(** * COVID-19 Global Data Tracker: the notebook's pipeline, embedded and verified

    The notebook [COVID-19.ipynb] is one linear script over pandas data
    frames.  A data frame is modelled as the list of its rows in row
    order (the positional index of [read_csv]); a row is a record of the
    columns the notebook reads or creates.

    Numbers.  The metric columns are float64 columns whose missing
    entries are NaN.  They are modelled as [option Q]: [None] is NaN and
    [Some q] an exact rational, so that sums and means are the
    mathematical ones (rounding is idealised away).  The ratio columns
    ([death_rate], [cfr], [vaccination_percentage]) can divide by zero;
    they carry the three IEEE 754 classes a real-valued quotient can fall
    in: NaN, an infinity, or a finite number. *)

From Stdlib Require Import String.
From Stdlib Require Import ZArith QArith Bool Arith Lia Lqa List.
From Stdlib Require Import Permutation Sorted SpecFloat.
Import ListNotations.

Local Open Scope list_scope.

(* ================================================================= *)
(** ** Part 1. The pandas operations the notebook calls *)

Module Pandas.

(** An entry of a float64 column; [None] is NaN. *)
Definition cell := option Q.

(** An entry of a column computed by a float division. *)
Inductive xcell :=
| XNaN
| XInf (negative : bool)
| XFin (q : Q).

(** [pd.isna] on a ratio: only NaN is missing, an infinity is a value. *)
Definition isna_x (x : xcell) : bool :=
  match x with XNaN => true | _ => false end.

(** Equality of entries up to the representation of the rational. *)
Definition cell_eq (a b : cell) : Prop :=
  match a, b with
  | Some x, Some y => x == y
  | None, None => True
  | _, _ => False
  end.

(** [a / b] on float64 entries with real (or missing) values: NaN when
    an operand is NaN, [0/0] is NaN, [x/0] is an infinity of the sign of
    [x] (the zero read from a CSV is [+0.0]). *)
Definition truediv (a b : cell) : xcell :=
  match a, b with
  | Some x, Some y =>
      if Qeq_bool y 0
      then (if Qeq_bool x 0 then XNaN else XInf (negb (Qle_bool 0 x)))
      else XFin (x / y)
  | _, _ => XNaN
  end.

(** [x * k] for a ratio [x] and a finite constant [k]. *)
Definition xmul (x : xcell) (k : Q) : xcell :=
  match x with
  | XNaN => XNaN
  | XInf s => if Qeq_bool k 0 then XNaN else XInf (xorb s (negb (Qle_bool 0 k)))
  | XFin q => XFin (q * k)
  end.

(** [Series.isin(values)] on strings. *)
Definition isin (x : string) (values : list string) : bool :=
  existsb (String.eqb x) values.

(** Assigning a column: the new values are aligned with the rows by
    position ([set v r] writes one entry). *)
Definition assign {R V : Type} (set : V -> R -> R) (vals : list V) (t : list R) : list R :=
  map (fun vr => set (fst vr) (snd vr)) (combine vals t).

(** Sorting by a key, as a stable insertion sort; [sort_values] and the
    ordering of group keys are instances.  (The default sort of pandas
    does not promise an order among rows with equal keys; the model
    fixes one.) *)
Fixpoint insert_by {A : Type} (leb : A -> A -> bool) (x : A) (l : list A) : list A :=
  match l with
  | [] => [x]
  | y :: l' => if leb x y then x :: l else y :: insert_by leb x l'
  end.

Definition sort_by {A : Type} (leb : A -> A -> bool) (l : list A) : list A :=
  fold_right (insert_by leb) [] l.

(** [fillna(method='ffill')] on one series: a missing entry takes the
    last entry seen that was not missing. *)
Fixpoint ffill_from (last : cell) (xs : list cell) : list cell :=
  match xs with
  | [] => []
  | x :: xs' =>
      let v := match x with Some _ => x | None => last end in
      v :: ffill_from v xs'
  end.

Definition ffill (xs : list cell) : list cell := ffill_from None xs.

(** The last entry of a series that is not missing. *)
Definition last_valid (xs : list cell) : cell :=
  fold_left (fun acc x => match x with Some _ => x | None => acc end) xs None.

(** [rolling(window, min_periods).mean()]: at position [i] the window is
    the trailing [window] entries ending at [i] (fewer at the start of
    the series); the mean is taken over the entries of the window that
    are not missing, and is missing when fewer than [min_periods] of
    them are present. *)
Definition rolling_window (window i : nat) (xs : list cell) : list cell :=
  skipn (S i - window) (firstn (S i) xs).

Fixpoint valid (w : list cell) : list Q :=
  match w with
  | [] => []
  | Some q :: w' => q :: valid w'
  | None :: w' => valid w'
  end.

Definition Qsum (l : list Q) : Q := fold_right Qplus 0%Q l.

Definition window_mean (min_periods : nat) (w : list cell) : cell :=
  let vs := valid w in
  if (length vs <? min_periods)%nat then None
  else match vs with
       | [] => None
       | _ => Some (Qsum vs / inject_Z (Z.of_nat (length vs)))
       end.

Definition rolling_mean (window min_periods : nat) (xs : list cell) : list cell :=
  map (fun i => window_mean min_periods (rolling_window window i xs))
      (seq 0 (length xs)).

(** *** Exceptions *)

Record exn := Exception { exn_type : string; exn_msg : string }.

Inductive result (A : Type) :=
| Ok (a : A)
| Err (e : exn).
Arguments Ok {A} a.
Arguments Err {A} e.

(** *** groupby *)

Section GroupBy.
Context {R : Type} (by_key : R -> string).

(** The rows of one group, in the order they have in the frame. *)
Definition get_group (k : string) (t : list R) : list R :=
  filter (fun r => String.eqb (by_key r) k) t.

(** [groupby(key)[col].transform(f)]: [f] is applied to the series of
    each group and every result goes back to the row it came from.
    [pre] holds the rows already passed, so the length of the group
    inside [pre] is the position of the current row in its group. *)
Fixpoint transform_go (col : R -> cell) (f : list cell -> list cell)
         (t pre suf : list R) : list cell :=
  match suf with
  | [] => []
  | r :: suf' =>
      nth (length (get_group (by_key r) pre))
          (f (map col (get_group (by_key r) t))) None
      :: transform_go col f t (pre ++ [r]) suf'
  end.

Definition transform (col : R -> cell) (f : list cell -> list cell)
           (t : list R) : list cell :=
  transform_go col f t [] t.

(** The group keys, each once, in ascending order ([sort=True]). *)
Definition group_keys (t : list R) : list string :=
  sort_by String.leb (nodup string_dec (map by_key t)).

(** [groupby(key).last()]: one row per group; [merge acc r] keeps of
    [acc] the entries that are missing in [r], so folding it over a
    group gives, column by column, the last entry that is not missing. *)
Definition groupby_last (merge : R -> R -> R) (t : list R) : list R :=
  flat_map (fun k => match get_group k t with
                     | [] => []
                     | r0 :: g => [fold_left merge g r0]
                     end)
           (group_keys t).
End GroupBy.

(** *** pivot *)

(** The error of [pivot] on a frame with a repeated pair of labels. *)
Definition duplicate_entries : exn :=
  Exception "ValueError" "Index contains duplicate entries, cannot reshape".

Record PivotTable (V : Type) := {
  pt_index : list Z;
  pt_columns : list string;
  pt_data : list (list V)
}.
Arguments pt_index {V} _.
Arguments pt_columns {V} _.
Arguments pt_data {V} _.

Definition key_eqb (a b : Z * string) : bool :=
  Z.eqb (fst a) (fst b) && String.eqb (snd a) (snd b).

Fixpoint has_duplicates (l : list (Z * string)) : bool :=
  match l with
  | [] => false
  | x :: l' => existsb (key_eqb x) l' || has_duplicates l'
  end.

Fixpoint index_of {A : Type} (eqb : A -> A -> bool) (x : A) (l : list A) : option nat :=
  match l with
  | [] => None
  | y :: l' => if eqb x y then Some 0%nat
               else option_map S (index_of eqb x l')
  end.

Section Pivot.
Context {R V : Type} (index : R -> Z) (columns : R -> string)
        (values : R -> V) (na : V).

Definition pivot_keys (t : list R) : list (Z * string) :=
  map (fun r => (index r, columns r)) t.

Definition pivot_entry (t : list R) (d : Z) (c : string) : V :=
  match find (fun r => key_eqb (index r, columns r) (d, c)) t with
  | Some r => values r
  | None => na
  end.

(** [DataFrame.pivot(index, columns, values)]: one line per index
    label and one column per column label, both ascending; a pair of
    labels that occurs twice cannot be reshaped. *)
Definition pivot (t : list R) : result (PivotTable V) :=
  if has_duplicates (pivot_keys t)
  then Err duplicate_entries
  else
    let idx := sort_by Z.leb (nodup Z.eq_dec (map index t)) in
    let cols := sort_by String.leb (nodup string_dec (map columns t)) in
    Ok {| pt_index := idx;
          pt_columns := cols;
          pt_data := map (fun d => map (fun c => pivot_entry t d c) cols) idx |}.

(** [p.loc[d, c]]. *)
Definition pt_loc (p : PivotTable V) (d : Z) (c : string) : option V :=
  match index_of Z.eqb d (pt_index p), index_of String.eqb c (pt_columns p) with
  | Some i, Some j =>
      match nth_error (pt_data p) i with
      | Some line => nth_error line j
      | None => None
      end
  | _, _ => None
  end.
End Pivot.

End Pandas.

(* ================================================================= *)
(** ** Binary64, to check the division against IEEE 754 *)

Module Binary64.
Import Pandas.

Definition prec : Z := 53.
Definition emax : Z := 1024.

(** [100.0] *)
Definition hundred : spec_float := S754_finite false 7036874417766400 (-46).

(** [(total_deaths / total_cases) * 100] on float64 entries. *)
Definition deaths_per_100_cases (total_deaths total_cases : spec_float) : spec_float :=
  SFmul prec emax (SFdiv prec emax total_deaths total_cases) hundred.

(** The real number [(-1)^s * m * 2^e]. *)
Definition value (s : bool) (m : positive) (e : Z) : Q :=
  let v := match e with
           | Z0 => Zpos m # 1
           | Zpos p => Zpos (m * 2 ^ p) # 1
           | Zneg p => Zpos m # (2 ^ p)
           end%positive in
  if s then Qopp v else v.

(** The entry a float stands for; an infinity is not an entry of the
    dataset. *)
Definition to_cell (x : spec_float) : option cell :=
  match x with
  | S754_nan => Some None
  | S754_zero _ => Some (Some 0%Q)
  | S754_finite s m e => Some (Some (value s m e))
  | S754_infinity _ => None
  end.

(** A float and a ratio are of the same kind: both NaN, both infinite,
    or both finite. *)
Definition same_class (f : spec_float) (x : xcell) : Prop :=
  match f, x with
  | S754_nan, XNaN => True
  | S754_infinity _, XInf _ => True
  | S754_zero _, XFin _ | S754_finite _ _ _, XFin _ => True
  | _, _ => False
  end.

Definition is_infinity (f : spec_float) (negative : bool) : Prop :=
  f = S754_infinity negative.

End Binary64.

(* ================================================================= *)
(** ** Part 2. The notebook *)

Module Notebook.
Import Pandas.

(** One observation: the columns of the dataset the notebook reads, then
    the columns it assigns (missing until the cell that computes them,
    but for [new_cases_smoothed], which the dataset holds as well and
    cell 4.3 overwrites). *)
Record Row := mkRow {
  location : string;
  iso_code : string;
  date : Z;
  total_cases : cell;
  new_cases : cell;
  total_deaths : cell;
  new_deaths : cell;
  total_vaccinations : cell;
  people_vaccinated : cell;
  people_fully_vaccinated : cell;
  population : cell;
  total_cases_per_million : cell;
  new_cases_smoothed : cell;
  death_rate : xcell;
  pct_vaccinated : cell;
  cfr : xcell;
  vaccination_percentage : xcell
}.

Definition table := list Row.

(** The names in [key_metrics]. *)
Inductive metric :=
| TotalCases | NewCases | TotalDeaths | NewDeaths
| TotalVaccinations | PeopleVaccinated | PeopleFullyVaccinated.

Definition metric_name (m : metric) : string :=
  match m with
  | TotalCases => "total_cases"
  | NewCases => "new_cases"
  | TotalDeaths => "total_deaths"
  | NewDeaths => "new_deaths"
  | TotalVaccinations => "total_vaccinations"
  | PeopleVaccinated => "people_vaccinated"
  | PeopleFullyVaccinated => "people_fully_vaccinated"
  end.

(** [r[m]] *)
Definition get (m : metric) (r : Row) : cell :=
  match m with
  | TotalCases => total_cases r
  | NewCases => new_cases r
  | TotalDeaths => total_deaths r
  | NewDeaths => new_deaths r
  | TotalVaccinations => total_vaccinations r
  | PeopleVaccinated => people_vaccinated r
  | PeopleFullyVaccinated => people_fully_vaccinated r
  end.

(** [r[m] = v] *)
Definition set (m : metric) (v : cell) (r : Row) : Row :=
  let 'mkRow l i d tc nc td nd tv pv pfv pop tcm ncs dr pct c vp := r in
  match m with
  | TotalCases => mkRow l i d v nc td nd tv pv pfv pop tcm ncs dr pct c vp
  | NewCases => mkRow l i d tc v td nd tv pv pfv pop tcm ncs dr pct c vp
  | TotalDeaths => mkRow l i d tc nc v nd tv pv pfv pop tcm ncs dr pct c vp
  | NewDeaths => mkRow l i d tc nc td v tv pv pfv pop tcm ncs dr pct c vp
  | TotalVaccinations => mkRow l i d tc nc td nd v pv pfv pop tcm ncs dr pct c vp
  | PeopleVaccinated => mkRow l i d tc nc td nd tv v pfv pop tcm ncs dr pct c vp
  | PeopleFullyVaccinated => mkRow l i d tc nc td nd tv pv v pop tcm ncs dr pct c vp
  end.

Definition set_new_cases_smoothed (v : cell) (r : Row) : Row :=
  let 'mkRow l i d tc nc td nd tv pv pfv pop tcm _ dr pct c vp := r in
  mkRow l i d tc nc td nd tv pv pfv pop tcm v dr pct c vp.

Definition set_death_rate (v : xcell) (r : Row) : Row :=
  let 'mkRow l i d tc nc td nd tv pv pfv pop tcm ncs _ pct c vp := r in
  mkRow l i d tc nc td nd tv pv pfv pop tcm ncs v pct c vp.

Definition set_pct_vaccinated (v : cell) (r : Row) : Row :=
  let 'mkRow l i d tc nc td nd tv pv pfv pop tcm ncs dr _ c vp := r in
  mkRow l i d tc nc td nd tv pv pfv pop tcm ncs dr v c vp.

Definition set_cfr (v : xcell) (r : Row) : Row :=
  let 'mkRow l i d tc nc td nd tv pv pfv pop tcm ncs dr pct _ vp := r in
  mkRow l i d tc nc td nd tv pv pfv pop tcm ncs dr pct v vp.

Definition set_vaccination_percentage (v : xcell) (r : Row) : Row :=
  let 'mkRow l i d tc nc td nd tv pv pfv pop tcm ncs dr pct c _ := r in
  mkRow l i d tc nc td nd tv pv pfv pop tcm ncs dr pct c v.

(** Every column of a row that is not a key metric. *)
Definition rest_of_row (r : Row) :=
  (location r, iso_code r, date r, population r, total_cases_per_million r,
   new_cases_smoothed r, death_rate r, pct_vaccinated r, cfr r,
   vaccination_percentage r).

(** What cleaning may do to a row: nothing outside the key metrics, and
    nothing to a key metric that was present. *)
Definition only_fills (r r' : Row) : Prop :=
  rest_of_row r' = rest_of_row r /\
  forall m v, get m r = Some v -> get m r' = Some v.

(** *** Data Cleaning *)

Definition countries_of_interest : list string :=
  ["United States"; "India"; "Brazil"; "United Kingdom"; "Russia";
   "France"; "Germany"; "South Africa"; "Kenya"; "China"]%string.

Definition continents : list string :=
  ["World"; "Asia"; "Europe"; "North America"; "South America"; "Africa";
   "Oceania"; "European Union"; "High income"; "Upper middle income";
   "Lower middle income"; "Low income"]%string.

(** [df[df['location'].isin(countries_of_interest)]] *)
Definition filtered (df : table) : table :=
  filter (fun r => isin (location r) countries_of_interest) df.

(** [df[df['location'].isin(continents)]] *)
Definition continent_df (df : table) : table :=
  filter (fun r => isin (location r) continents) df.

(** [df[~df['location'].isin(continents)]] *)
Definition country_df (df : table) : table :=
  filter (fun r => negb (isin (location r) continents)) df.

Definition key_metrics : list metric :=
  [TotalCases; NewCases; TotalDeaths; NewDeaths;
   TotalVaccinations; PeopleVaccinated; PeopleFullyVaccinated].

(** One turn of the loop over [key_metrics]:
    [filtered_df[metric] = filtered_df.groupby('location')[metric]
       .transform(lambda x: x.fillna(method='ffill'))].
    Every name of [key_metrics] is a column of the frame, so the test
    [metric in filtered_df.columns] holds. *)
Definition ffill_metric (m : metric) (t : table) : table :=
  assign (set m) (transform location (get m) ffill t) t.

Definition ffill_loop (ms : list metric) (t : table) : table :=
  fold_left (fun t m => ffill_metric m t) ms t.

Definition forward_fill (t : table) : table := ffill_loop key_metrics t.

(** The values that the rows of one location hold in a column, in row
    order: the series that [groupby('location')[col]] hands to the
    function of [transform]. *)
Definition series {V : Type} (col : Row -> V) (loc : string) (t : table) : list V :=
  map col (get_group location loc t).

(** The rows of a location are listed by ascending date. *)
Definition listed_by_date (loc : string) (t : table) : Prop :=
  forall p q dp dq, (p < q)%nat ->
    nth_error (series date loc t) p = Some dp ->
    nth_error (series date loc t) q = Some dq ->
    (dp < dq)%Z.

(** *** Derived columns *)

(** [filtered_df['new_cases_smoothed'] = filtered_df.groupby('location')
      ['new_cases'].transform(lambda x: x.rolling(7, min_periods=1).mean())] *)
Definition with_new_cases_smoothed (t : table) : table :=
  assign set_new_cases_smoothed
         (transform location new_cases (rolling_mean 7 1) t) t.

(** [(total_deaths / total_cases) * 100], the expression of both
    [death_rate] and [cfr]. *)
Definition deaths_per_100_cases (r : Row) : xcell :=
  xmul (truediv (total_deaths r) (total_cases r)) 100.

Definition with_death_rate (t : table) : table :=
  map (fun r => set_death_rate (deaths_per_100_cases r) r) t.

Definition with_cfr (t : table) : table :=
  map (fun r => set_cfr (deaths_per_100_cases r) r) t.

(** [country_data['population'].iloc[-1]] of a frame that is not empty:
    the population entry of the last row of the country. *)
Definition latest_pop (country : string) (t : table) : option cell :=
  match rev (get_group location country t) with
  | [] => None
  | r :: _ => Some (population r)
  end.

(** [people_fully_vaccinated / latest_pop * 100] for a positive
    [latest_pop]. *)
Definition pct_of (p : Q) (r : Row) : cell :=
  match people_fully_vaccinated r with
  | Some x => Some (x / p * 100)%Q
  | None => None
  end.

(** [filtered_df.loc[filtered_df['location'] == country, 'pct_vaccinated']
      = .../ latest_pop * 100], seen from one row. *)
Definition pct_row (country : string) (p : Q) (r : Row) : Row :=
  if String.eqb (location r) country
  then set_pct_vaccinated (pct_of p r) r else r.

(** One turn of the loop over [countries_of_interest].  The result says
    whether the turn assigned (and so created) the column. *)
Definition pct_country (country : string) (t : table) : table * bool :=
  match latest_pop country t with
  | Some (Some p) =>
      if negb (Qle_bool p 0)
      then (map (pct_row country p) t, true)
      else (t, false)
  | _ => (t, false)
  end.

Definition pct_loop (cs : list string) (acc : table * bool) : table * bool :=
  fold_left (fun acc country =>
               let step := pct_country country (fst acc) in
               (fst step, snd acc || snd step)) cs acc.

Definition with_pct_vaccinated (t : table) : table * bool :=
  pct_loop countries_of_interest (t, false).

(** Two rows agree on the columns the percentage is computed from. *)
Definition agree (a b : Row) : Prop :=
  location a = location b /\ population a = population b /\
  people_fully_vaccinated a = people_fully_vaccinated b.

(** *** Latest snapshot *)

Definition keep_last (old new : cell) : cell :=
  match new with Some _ => new | None => old end.

Definition keep_last_x (old new : xcell) : xcell :=
  match new with XNaN => old | _ => new end.

(** What [GroupBy.last] keeps when row [r] follows the rows summed up in
    [acc]: it skips missing entries, column by column. *)
Definition merge_last (acc r : Row) : Row :=
  {| location := location r;
     iso_code := iso_code r;
     date := date r;
     total_cases := keep_last (total_cases acc) (total_cases r);
     new_cases := keep_last (new_cases acc) (new_cases r);
     total_deaths := keep_last (total_deaths acc) (total_deaths r);
     new_deaths := keep_last (new_deaths acc) (new_deaths r);
     total_vaccinations := keep_last (total_vaccinations acc) (total_vaccinations r);
     people_vaccinated := keep_last (people_vaccinated acc) (people_vaccinated r);
     people_fully_vaccinated :=
       keep_last (people_fully_vaccinated acc) (people_fully_vaccinated r);
     population := keep_last (population acc) (population r);
     total_cases_per_million :=
       keep_last (total_cases_per_million acc) (total_cases_per_million r);
     new_cases_smoothed := keep_last (new_cases_smoothed acc) (new_cases_smoothed r);
     death_rate := keep_last_x (death_rate acc) (death_rate r);
     pct_vaccinated := keep_last (pct_vaccinated acc) (pct_vaccinated r);
     cfr := keep_last_x (cfr acc) (cfr r);
     vaccination_percentage :=
       keep_last_x (vaccination_percentage acc) (vaccination_percentage r) |}.

(** [t.sort_values('date')] *)
Definition sort_by_date (t : table) : table :=
  sort_by (fun a b => Z.leb (date a) (date b)) t.

(** [t.sort_values('date').groupby('location').last().reset_index()] *)
Definition latest (t : table) : table :=
  groupby_last location merge_last (sort_by_date t).

(** The frame [filtered_df] as the cells leave it: after the cleaning
    loop, in cell 4.4 (where [latest_data] is first taken), and in cell 8
    (where it is taken again for the rankings). *)
Definition cleaned (df : table) : table := forward_fill (filtered df).

Definition frame_4_4 (df : table) : table :=
  with_death_rate (with_new_cases_smoothed (cleaned df)).

Definition frame_8 (df : table) : table :=
  with_cfr (fst (with_pct_vaccinated (frame_4_4 df))).

Definition latest_data_4_4 (df : table) : table := latest (frame_4_4 df).
Definition latest_data (df : table) : table := latest (frame_8 df).

(** *** Rankings *)

(** [b] may follow [a] in a descending column: it is missing, or both
    are present and [b] is at most [a]. *)
Definition may_follow (a b : cell) : Prop :=
  match a, b with
  | _, None => True
  | None, Some _ => False
  | Some x, Some y => (y <= x)%Q
  end.

(** Descending order of [sort_values(col, ascending=False)]: missing
    entries go last. *)
Definition cell_geb (a b : cell) : bool :=
  match a, b with
  | _, None => true
  | None, Some _ => false
  | Some x, Some y => Qle_bool y x
  end.

Definition xcell_geb (a b : xcell) : bool :=
  match a, b with
  | _, XNaN => true
  | XNaN, _ => false
  | XInf false, _ => true
  | _, XInf true => true
  | XInf true, _ => false
  | _, XInf false => false
  | XFin x, XFin y => Qle_bool y x
  end.

Definition sort_values_desc {V : Type} (geb : V -> V -> bool)
           (col : Row -> V) (t : table) : table :=
  sort_by (fun a b => geb (col a) (col b)) t.

(** [latest_data.sort_values(col, ascending=False)[['location', col]].head(5)] *)
Definition top5 (col : Row -> cell) (latest_data : table) : list (string * cell) :=
  map (fun r => (location r, col r))
      (firstn 5 (sort_values_desc cell_geb col latest_data)).

(** *** The run

    The cells run top to bottom on the notebook's variables.  An
    exception that no handler catches ends the run; the variables keep
    what was assigned before it was raised. *)

Inductive output :=
| Printed (line : string)
| Displayed (rows : list (string * cell))
| LinePlot (title : string) (log_scale : bool) (ylim : option (Q * Q))
           (data : PivotTable xcell)
| BarPlot (title : string) (bars : list (string * xcell))
| Choropleth (title : string) (regions : list (string * xcell)).

Record state := mkState {
  df : table;
  filtered_df : table;
  has_pct_vaccinated : bool;   (* 'pct_vaccinated' in filtered_df.columns *)
  latest_global_data : table;
  fig_cases : option output;
  fig_vax : option output;
  stdout : list output
}.

Inductive run :=
| Done (s : state)
| Raised (e : exn) (s : state).

Definition cmd := state -> run.

Definition andthen (c1 c2 : cmd) : cmd :=
  fun s => match c1 s with
           | Done s' => c2 s'
           | Raised e s' => Raised e s'
           end.

Notation "c1 ;; c2" := (andthen c1 c2) (at level 61, right associativity).

Definition skip : cmd := Done.
Definition raise (e : exn) : cmd := Raised e.
Definition modify (f : state -> state) : cmd := fun s => Done (f s).

(** [try: body / except Exception as e: handler] *)
Definition try_except (body : cmd) (handler : exn -> cmd) : cmd :=
  fun s => match body s with
           | Done s' => Done s'
           | Raised e s' => handler e s'
           end.

Definition emit (o : output) : cmd :=
  modify (fun s => mkState (df s) (filtered_df s) (has_pct_vaccinated s)
                           (latest_global_data s) (fig_cases s) (fig_vax s)
                           (stdout s ++ [o])).

Definition set_filtered_df (t : table) (s : state) : state :=
  mkState (df s) t (has_pct_vaccinated s) (latest_global_data s)
          (fig_cases s) (fig_vax s) (stdout s).

Definition set_has_pct_vaccinated (b : bool) (s : state) : state :=
  mkState (df s) (filtered_df s) b (latest_global_data s)
          (fig_cases s) (fig_vax s) (stdout s).

Definition set_latest_global_data (t : table) (s : state) : state :=
  mkState (df s) (filtered_df s) (has_pct_vaccinated s) t
          (fig_cases s) (fig_vax s) (stdout s).

Definition set_fig_cases (f : output) (s : state) : state :=
  mkState (df s) (filtered_df s) (has_pct_vaccinated s) (latest_global_data s)
          (Some f) (fig_vax s) (stdout s).

Definition set_fig_vax (f : output) (s : state) : state :=
  mkState (df s) (filtered_df s) (has_pct_vaccinated s) (latest_global_data s)
          (fig_cases s) (Some f) (stdout s).

Definition of_cell (c : cell) : xcell :=
  match c with Some q => XFin q | None => XNaN end.

(** [filtered_df.pivot(index='date', columns='location', values=col)],
    then the cell's use of the pivot. *)
Definition with_pivot (col : Row -> xcell) (k : PivotTable xcell -> cmd) : cmd :=
  fun s => match pivot date location col XNaN (filtered_df s) with
           | Ok p => k p s
           | Err e => Raised e s
           end.

Definition line_plot (title : string) (log_scale : bool) (ylim : option (Q * Q))
           (p : PivotTable xcell) : cmd :=
  emit (LinePlot title log_scale ylim p).

Definition bar_plot (title : string) (col : Row -> xcell) (data : table) : cmd :=
  emit (BarPlot title (map (fun r => (location r, col r))
                           (sort_values_desc xcell_geb col data))).

(** 3. Data Cleaning *)
Definition data_cleaning : cmd :=
  modify (fun s => set_filtered_df (forward_fill (filtered (df s))) s).

(** 4.1 Total Cases Over Time *)
Definition total_cases_over_time : cmd :=
  with_pivot (fun r => of_cell (total_cases r)) (fun cases_pivot =>
    line_plot "Total COVID-19 Cases Over Time" false None cases_pivot ;;
    line_plot "Total COVID-19 Cases Over Time (Log Scale)" true None cases_pivot).

(** 4.2 Total Deaths Over Time *)
Definition total_deaths_over_time : cmd :=
  with_pivot (fun r => of_cell (total_deaths r)) (fun deaths_pivot =>
    line_plot "Total COVID-19 Deaths Over Time" false None deaths_pivot).

(** 4.3 Daily New Cases *)
Definition daily_new_cases : cmd :=
  modify (fun s => set_filtered_df (with_new_cases_smoothed (filtered_df s)) s) ;;
  with_pivot (fun r => of_cell (new_cases_smoothed r)) (fun new_cases_pivot =>
    line_plot "Daily New COVID-19 Cases (7-day Rolling Average)" false None
              new_cases_pivot).

(** 4.4 Death Rate Analysis *)
Definition death_rate_analysis : cmd :=
  modify (fun s => set_filtered_df (with_death_rate (filtered_df s)) s) ;;
  (fun s => bar_plot "COVID-19 Death Rate by Country (Latest Data)" death_rate
                     (latest (filtered_df s)) s).

(** 5. Vaccination Analysis.  The second pivot reads the column
    [pct_vaccinated], which exists only if the loop assigned it. *)
Definition vaccination_analysis : cmd :=
  with_pivot (fun r => of_cell (people_fully_vaccinated r)) (fun vax_pivot =>
    modify (fun s =>
              let tb := with_pct_vaccinated (filtered_df s) in
              set_has_pct_vaccinated (snd tb) (set_filtered_df (fst tb) s)) ;;
    (fun s => if has_pct_vaccinated s then skip s
              else raise (Exception "KeyError" "pct_vaccinated") s) ;;
    with_pivot (fun r => of_cell (pct_vaccinated r)) (fun vax_pivot =>
      line_plot "Percentage of Population Fully Vaccinated" false
                (Some (0, 100)%Q) vax_pivot) ;;
    (fun s => bar_plot "Latest COVID-19 Vaccination Rates by Country"
                       (fun r => of_cell (pct_vaccinated r))
                       (latest (filtered_df s)) s)).

(** 6. Choropleth maps.  What Plotly does is outside the notebook: each
    map is either rendered, or building the figure raises, or showing it
    raises. *)
Inductive rendering :=
| Rendered
| BuildRaises (e : exn)
| ShowRaises (e : exn).

Record plotly := { cases_map : rendering; vax_map : rendering }.

Definition choropleth (how : rendering) (bind : output -> state -> state)
           (fig : output) : cmd :=
  match how with
  | BuildRaises e => raise e
  | ShowRaises e => modify (bind fig) ;; raise e
  | Rendered => modify (bind fig) ;; emit fig
  end.

Definition connection_hint : string :=
  "If you're running this notebook locally, you'll need an internet connection for Plotly maps.".

Definition cases_choropleth (px : plotly) : cmd :=
  try_except
    (fun s => choropleth (cases_map px) set_fig_cases
                (Choropleth "COVID-19 Total Cases per Million"
                   (map (fun r => (iso_code r, of_cell (total_cases_per_million r)))
                        (latest_global_data s))) s)
    (fun e => emit (Printed ("Error creating cases choropleth: " ++ exn_msg e)) ;;
              emit (Printed connection_hint)).

Definition vaccination_choropleth (px : plotly) : cmd :=
  try_except
    (modify (fun s =>
               set_latest_global_data
                 (map (fun r => set_vaccination_percentage
                                  (xmul (truediv (people_fully_vaccinated r)
                                                 (population r)) 100) r)
                      (latest_global_data s)) s) ;;
     (fun s => choropleth (vax_map px) set_fig_vax
                 (Choropleth "COVID-19 Vaccination Rates (% of Population)"
                    (map (fun r => (iso_code r, vaccination_percentage r))
                         (latest_global_data s))) s))
    (fun e => emit (Printed ("Error creating vaccination choropleth: " ++ exn_msg e)) ;;
              emit (Printed connection_hint)).

Definition choropleth_maps (px : plotly) : cmd :=
  modify (fun s => set_latest_global_data (latest (df s)) s) ;;
  cases_choropleth px ;;
  vaccination_choropleth px.

(** [latest_global_data] with the column of the second map: what the
    first statement of the second [try] leaves. *)
Definition snapshot_for_maps (d : table) : table :=
  map (fun r => set_vaccination_percentage
                  (xmul (truediv (people_fully_vaccinated r) (population r)) 100) r)
      (latest d).

(** Rendering a map raised [e]. *)
Definition failed (how : rendering) (e : exn) : Prop :=
  how = BuildRaises e \/ how = ShowRaises e.

(** 7. Case Fatality Rate Over Time *)
Definition case_fatality_rate : cmd :=
  modify (fun s => set_filtered_df (with_cfr (filtered_df s)) s) ;;
  with_pivot cfr (fun cfr_pivot =>
    line_plot "COVID-19 Case Fatality Rate Over Time" false None cfr_pivot).

(** 8. Key Insights.  The three tables are computed before anything is
    printed; the third sorts by [pct_vaccinated], which has to exist. *)
Definition top_cases (latest_data : table) := top5 total_cases latest_data.
Definition top_deaths (latest_data : table) := top5 total_deaths latest_data.
Definition top_vax (latest_data : table) := top5 pct_vaccinated latest_data.

Definition key_insights : cmd :=
  fun s =>
    let latest_data := latest (filtered_df s) in
    ((fun s => if has_pct_vaccinated s then skip s
               else raise (Exception "KeyError" "pct_vaccinated") s) ;;
     emit (Printed "Top 5 Countries by Total Cases:") ;;
     emit (Displayed (top_cases latest_data)) ;;
     emit (Printed "\nTop 5 Countries by Total Deaths:") ;;
     emit (Displayed (top_deaths latest_data)) ;;
     emit (Printed "\nTop 5 Countries by Vaccination Rate:") ;;
     emit (Displayed (top_vax latest_data))) s.

(** The cells after the maps, and the whole notebook from the loaded and
    date-parsed frame on. *)
Definition after_maps : cmd := case_fatality_rate ;; key_insights.

Definition notebook (px : plotly) : cmd :=
  data_cleaning ;;
  total_cases_over_time ;;
  total_deaths_over_time ;;
  daily_new_cases ;;
  death_rate_analysis ;;
  vaccination_analysis ;;
  choropleth_maps px ;;
  after_maps.

Definition loaded (d : table) : state :=
  mkState d [] false [] None None [].

(** The cells before the maps. *)
Definition up_to_the_maps : cmd :=
  data_cleaning ;;
  total_cases_over_time ;;
  total_deaths_over_time ;;
  daily_new_cases ;;
  death_rate_analysis ;;
  vaccination_analysis.

(** Plotly renders both maps. *)
Definition all_rendered : plotly :=
  {| cases_map := Rendered; vax_map := Rendered |}.

(** Two states hold the same data for the cells after the maps. *)
Definition same_data (x y : state) : Prop :=
  df x = df y /\ filtered_df x = filtered_df y /\
  has_pct_vaccinated x = has_pct_vaccinated y.

(** Two runs end the same way: both to the end, on the same data, or
    both on the same exception. *)
Definition same_outcome (a b : run) : Prop :=
  match a, b with
  | Done x, Done y => same_data x y
  | Raised e _, Raised e' _ => e = e'
  | _, _ => False
  end.

End Notebook.

(* ================================================================= *)
(** ** Sample frames *)

Module Samples.
Import Pandas Notebook.
Local Open Scope string_scope.

(** An observation with every metric missing. *)
Definition obs (loc iso : string) (d : Z) : Row :=
  mkRow loc iso d None None None None None None None None None None
        XNaN None XNaN XNaN.

Definition cases (v : cell) (r : Row) : Row := set TotalCases v r.

(** Two countries, rows interleaved, gaps in [total_cases]. *)
Definition interleaved : table :=
  [ cases None (obs "Kenya" "KEN" 1);
    cases (Some 3%Q) (obs "India" "IND" 1);
    cases (Some 5%Q) (obs "Kenya" "KEN" 2);
    cases None (obs "India" "IND" 2);
    cases None (obs "Kenya" "KEN" 3);
    cases (Some 9%Q) (obs "Kenya" "KEN" 4) ].

(** One country whose rows are not listed by date: day 2 comes first. *)
Definition day2_before_day1 : table :=
  [ cases None (obs "Kenya" "KEN" 2);
    cases (Some 5%Q) (obs "Kenya" "KEN" 1) ].

Definition new (v : cell) (r : Row) : Row := set NewCases v r.

(** One country, day 2 listed before day 1, with [new_cases] 10 on
    day 2 and 20 on day 1. *)
Definition new_cases_day2_first : table :=
  [ new (Some 10%Q) (obs "Kenya" "KEN" 2);
    new (Some 20%Q) (obs "Kenya" "KEN" 1) ].

(** One country listed by date whose [new_cases] starts with a missing
    value. *)
Definition new_cases_starts_missing : table :=
  [ new None (obs "Kenya" "KEN" 1);
    new (Some 5%Q) (obs "Kenya" "KEN" 2) ].

(** Nine days of one country, [new_cases] = 10, 20, ..., 90. *)
Definition nine_days : table :=
  map (fun d => new (Some (inject_Z (10 * d))) (obs "India" "IND" d))
      [1; 2; 3; 4; 5; 6; 7; 8; 9]%Z.

(** One observation with a death recorded and zero cases. *)
Definition deaths_without_cases : table :=
  [ set TotalDeaths (Some 1%Q) (cases (Some 0%Q) (obs "Kenya" "KEN" 1)) ].

(** Two days of one country; the population is missing on the last. *)
Definition population_gap : table :=
  [ mkRow "Kenya" "KEN" 1 (Some 10%Q) (Some 10%Q) (Some 1%Q) (Some 1%Q)
          None None None (Some 53771300%Q) None None XNaN None XNaN XNaN;
    mkRow "Kenya" "KEN" 2 (Some 12%Q) (Some 2%Q) (Some 1%Q) (Some 0%Q)
          None None None None None None XNaN None XNaN XNaN ].

(** A country and the aggregate of the whole world. *)
Definition with_world : table :=
  [ cases (Some 10%Q) (obs "Kenya" "KEN" 1);
    cases (Some 700%Q) (obs "World" "OWID_WRL" 1) ].

(** Two countries whose latest [total_cases] are equal. *)
Definition tie : table :=
  [ cases (Some 5%Q) (obs "India" "IND" 1);
    cases (Some 5%Q) (obs "Kenya" "KEN" 1) ].

(** Three days of one country of 100 inhabitants; on the last day 150
    people are recorded as fully vaccinated. *)
Definition over_vaccinated : table :=
  map (fun dv => mkRow "Kenya" "KEN" (fst dv) None None None None None None
                       (snd dv) (Some 100%Q) None None XNaN None XNaN XNaN)
      [(1%Z, None); (2%Z, Some 40%Q); (3%Z, Some 150%Q)].

(** Two days of one country, day 2 listed before day 1: on day 2 the
    population is 200 and 50 people are fully vaccinated; on day 1 the
    population is 100 and 10 people are. *)
Definition population_day2_first : table :=
  [ mkRow "Kenya" "KEN" 2 None None None None None None (Some 50%Q)
          (Some 200%Q) None None XNaN None XNaN XNaN;
    mkRow "Kenya" "KEN" 1 None None None None None None (Some 10%Q)
          (Some 100%Q) None None XNaN None XNaN XNaN ].

(** The same day of the same country reported twice. *)
Definition reported_twice : table :=
  [ cases (Some 10%Q) (obs "Kenya" "KEN" 1);
    cases (Some 11%Q) (obs "Kenya" "KEN" 1) ].

(** No network: building the first map raises, showing the second one
    raises. *)
Definition no_network : plotly :=
  {| cases_map := BuildRaises (Exception "ConnectionError" "no route to host");
     vax_map := ShowRaises (Exception "ConnectionError" "no route to host") |}.

(** Two days of two countries, with populations and vaccinations. *)
Definition two_countries : table :=
  [ mkRow "India" "IND" 1 (Some 100%Q) (Some 100%Q) (Some 2%Q) (Some 2%Q)
          None None (Some 50%Q) (Some 1000%Q) (Some 100000%Q)
          None XNaN None XNaN XNaN;
    mkRow "India" "IND" 2 (Some 150%Q) (Some 50%Q) (Some 3%Q) (Some 1%Q)
          None None (Some 80%Q) (Some 1000%Q) (Some 150000%Q)
          None XNaN None XNaN XNaN;
    mkRow "Kenya" "KEN" 1 (Some 10%Q) (Some 10%Q) (Some 0%Q) (Some 0%Q)
          None None None (Some 500%Q) (Some 20000%Q)
          None XNaN None XNaN XNaN;
    mkRow "Kenya" "KEN" 2 (Some 30%Q) (Some 20%Q) (Some 1%Q) (Some 1%Q)
          None None (Some 5%Q) (Some 500%Q) (Some 60000%Q)
          None XNaN None XNaN XNaN ].

(** The variables as the cells before the maps leave them on that
    frame. *)
Definition before_maps : state :=
  match up_to_the_maps (loaded two_countries) with
  | Done s => s
  | Raised _ s => s
  end.

End Samples.

(* ================================================================= *)
(** ** The cells that explore the loaded frame, and notions for the
       properties of the whole run *)

Module Exploring.
Import Pandas Notebook.

(** The columns that the cells after the cleaning loop keep as they
    are: every column of a row but the ones they assign, which are
    [new_cases_smoothed] (a column that the dataset already holds and
    that cell 4.3 overwrites), [death_rate], [pct_vaccinated], [cfr]
    and [vaccination_percentage]. *)
Definition kept_columns (r : Row) :=
  (location r, iso_code r, date r,
   (total_cases r, new_cases r, total_deaths r, new_deaths r),
   (total_vaccinations r, people_vaccinated r, people_fully_vaccinated r),
   population r, total_cases_per_million r).

(** [Series.isnull] on one entry. *)
Definition isnull (c : cell) : bool :=
  match c with None => true | Some _ => false end.

(** The columns of [df] with the test [isnull] on their entry of a row;
    the labels and the date of a row are never missing in the model. *)
Definition df_columns : list (string * (Row -> bool)) :=
  [ ("iso_code", fun _ => false);
    ("location", fun _ => false);
    ("date", fun _ => false);
    ("total_cases", fun r => isnull (total_cases r));
    ("new_cases", fun r => isnull (new_cases r));
    ("total_deaths", fun r => isnull (total_deaths r));
    ("new_deaths", fun r => isnull (new_deaths r));
    ("total_cases_per_million", fun r => isnull (total_cases_per_million r));
    ("total_vaccinations", fun r => isnull (total_vaccinations r));
    ("people_vaccinated", fun r => isnull (people_vaccinated r));
    ("people_fully_vaccinated", fun r => isnull (people_fully_vaccinated r));
    ("population", fun r => isnull (population r)) ]%string.

Definition count_true (f : Row -> bool) (t : table) : nat :=
  length (filter f t).

(** [df.isnull().mean()] for one column: the share of the rows whose
    entry is missing; the mean of no row at all is NaN. *)
Definition null_share (f : Row -> bool) (t : table) : cell :=
  match t with
  | [] => None
  | _ => Some (inject_Z (Z.of_nat (count_true f t))
               / inject_Z (Z.of_nat (length t)))%Q
  end.

Definition times_100 (c : cell) : cell :=
  match c with Some q => Some (q * 100)%Q | None => None end.

(** [x > 0] on an entry; a comparison with NaN is false. *)
Definition positive_entry (c : cell) : bool :=
  match c with Some q => negb (Qle_bool q 0) | None => false end.

(** [missing_values = df.isnull().mean().sort_values(ascending=False) * 100]
    [missing_values = missing_values[missing_values > 0]] *)
Definition missing_values_of (columns : list (string * (Row -> bool)))
           (t : table) : list (string * cell) :=
  filter (fun nv => positive_entry (snd nv))
    (map (fun nv => (fst nv, times_100 (snd nv)))
       (sort_by (fun a b => cell_geb (snd a) (snd b))
          (map (fun cf => (fst cf, null_share (snd cf) t)) columns))).

Definition missing_values (t : table) : list (string * cell) :=
  missing_values_of df_columns t.

(** [df['date'].min()] and [df['date'].max()]; of no row, NaT. *)
Definition date_min (t : table) : option Z :=
  match t with
  | [] => None
  | r :: t' => Some (fold_left (fun m r' => Z.min m (date r')) t' (date r))
  end.

Definition date_max (t : table) : option Z :=
  match t with
  | [] => None
  | r :: t' => Some (fold_left (fun m r' => Z.max m (date r')) t' (date r))
  end.

(** [filtered_df['location'].value_counts()]: the number of rows of each
    location, the largest first. *)
Definition value_counts (t : table) : list (string * nat) :=
  sort_by (fun a b => Nat.leb (snd b) (snd a))
    (map (fun k => (k, length (get_group location k t)))
         (nodup string_dec (map location t))).

Definition total (counts : list (string * nat)) : nat :=
  fold_right (fun kn acc => snd kn + acc)%nat 0%nat counts.




(** Some country of interest has a positive population in its last
    row. *)
Definition has_population (t : table) : Prop :=
  exists c p, In c countries_of_interest /\
              latest_pop c t = Some (Some p) /\ (0 < p)%Q.

(** The same, as a test. *)
Definition has_population_b (t : table) : bool :=
  existsb (fun c => match latest_pop c t with
                    | Some (Some p) => negb (Qle_bool p 0)
                    | _ => false
                    end) countries_of_interest.


(** [b] may follow [a] in a descending ratio column: NaN goes last, then
    from plus infinity down through the finite numbers to minus
    infinity. *)
Definition may_follow_x (a b : xcell) : Prop :=
  match a, b with
  | _, XNaN => True
  | XNaN, _ => False
  | XInf false, _ => True
  | _, XInf true => True
  | XInf true, _ => False
  | _, XInf false => False
  | XFin x, XFin y => (y <= x)%Q
  end.

(** The ratio columns of a snapshot. *)
Definition ratio_columns : list (Row -> xcell) :=
  [death_rate; cfr; vaccination_percentage].

(** The float64 columns of a snapshot taken with [GroupBy.last]. *)
Definition cell_columns : list (Row -> cell) :=
  [total_cases; new_cases; total_deaths; new_deaths; total_vaccinations;
   people_vaccinated; people_fully_vaccinated; population;
   total_cases_per_million; new_cases_smoothed; pct_vaccinated].

End Exploring.

(* ================================================================= *)
(** ** Part 3. Properties *)

Import Pandas Notebook.
Local Open Scope nat_scope.

(** *** Lists *)

Section ListFacts.
Context {A : Type}.

Lemma skipn_cons_nth (n : nat) (l : list A) (d : A) :
  n < length l -> skipn n l = nth n l d :: skipn (S n) l.
Proof.
  revert l; induction n as [|n IH]; intros [|a l] Hn; simpl in *; try lia.
  - reflexivity.
  - apply IH; lia.
Qed.

Lemma In_firstn (n : nat) (l : list A) (x : A) :
  In x (firstn n l) -> In x l.
Proof.
  revert l; induction n as [|n IH]; intros [|a l] H; simpl in *; try contradiction.
  destruct H as [->|H]; [now left|right; now apply IH].
Qed.

Lemma nth_error_nth_default (l : list A) (n : nat) (d x : A) :
  nth_error l n = Some x -> nth n l d = x.
Proof.
  revert n; induction l as [|a l IH]; intros [|n] H; simpl in *;
    try discriminate.
  - now inversion H.
  - now apply IH.
Qed.
End ListFacts.

(** *** Assignment of a column *)

Section Assign.
Context {R V : Type} (set : V -> R -> R).

Lemma assign_length (vals : list V) (t : list R) :
  length vals = length t -> length (assign set vals t) = length t.
Proof.
  intros H. unfold assign. rewrite length_map, length_combine. lia.
Qed.

Lemma assign_cons (v : V) (vals : list V) (r : R) (t : list R) :
  assign set (v :: vals) (r :: t) = set v r :: assign set vals t.
Proof. reflexivity. Qed.

Lemma assign_nth_error (vals : list V) (t : list R) (k : nat) (v : V) (r : R) :
  nth_error vals k = Some v -> nth_error t k = Some r ->
  nth_error (assign set vals t) k = Some (set v r).
Proof.
  revert t k; induction vals as [|v0 vals IH]; intros [|r0 t] [|k] Hv Hr;
    simpl in *; try discriminate.
  - now inversion Hv; inversion Hr.
  - now apply IH.
Qed.

(** A column that the setter does not touch is the same afterwards. *)
Lemma assign_frame {B : Type} (g : R -> B) (vals : list V) (t : list R) :
  (forall v r, g (set v r) = g r) ->
  length vals = length t ->
  map g (assign set vals t) = map g t.
Proof.
  intros Hg. revert t; induction vals as [|v vals IH]; intros [|r t] Hlen;
    simpl in *; try discriminate; trivial.
  rewrite Hg. f_equal. apply IH. lia.
Qed.

(** The column that the setter writes holds the assigned values. *)
Lemma assign_column (g : R -> V) (vals : list V) (t : list R) :
  (forall v r, g (set v r) = v) ->
  length vals = length t ->
  map g (assign set vals t) = vals.
Proof.
  intros Hg. revert t; induction vals as [|v vals IH]; intros [|r t] Hlen;
    simpl in *; try discriminate; trivial.
  rewrite Hg. f_equal. apply IH. lia.
Qed.
End Assign.

(** *** groupby and transform *)

Section Transform.
Context {R : Type} (by_key : R -> string).
Variable col : R -> cell.
Variable f : list cell -> list cell.
Hypothesis f_length : forall xs, length (f xs) = length xs.

Lemma get_group_app (k : string) (a b : list R) :
  get_group by_key k (a ++ b) = get_group by_key k a ++ get_group by_key k b.
Proof. apply filter_app. Qed.

Lemma transform_go_length (t pre suf : list R) :
  length (transform_go by_key col f t pre suf) = length suf.
Proof.
  revert pre; induction suf as [|r suf IH]; intros pre; simpl; [reflexivity|].
  now rewrite IH.
Qed.

Lemma transform_length (t : list R) :
  length (transform by_key col f t) = length t.
Proof. apply transform_go_length. Qed.

Lemma get_group_cons_eq (k : string) (r : R) (t : list R) :
  by_key r = k -> get_group by_key k (r :: t) = r :: get_group by_key k t.
Proof.
  intros H. unfold get_group. simpl. subst k. now rewrite String.eqb_refl.
Qed.

Lemma get_group_cons_neq (k : string) (r : R) (t : list R) :
  by_key r <> k -> get_group by_key k (r :: t) = get_group by_key k t.
Proof.
  intros H. unfold get_group. simpl.
  destruct (String.eqb_spec (by_key r) k); [contradiction|reflexivity].
Qed.

(** Grouping after the assignment of a transformed column: the group
    of [k] holds [f] of the old series of the group. *)
Lemma get_group_assign_go (set : cell -> R -> R) (k : string) (t pre suf : list R) :
  (forall v r, by_key (set v r) = by_key r) ->
  t = pre ++ suf ->
  get_group by_key k (assign set (transform_go by_key col f t pre suf) suf)
  = assign set
      (skipn (length (get_group by_key k pre))
             (f (map col (get_group by_key k t))))
      (get_group by_key k suf).
Proof.
  intros Hset. revert pre; induction suf as [|r suf IH]; intros pre Ht.
  - simpl. unfold assign. now rewrite combine_nil.
  - simpl transform_go. rewrite assign_cons.
    assert (Ht' : t = (pre ++ [r]) ++ suf) by (now rewrite <- app_assoc).
    specialize (IH (pre ++ [r]) Ht').
    destruct (string_dec (by_key r) k) as [E|E].
    + rewrite get_group_cons_eq by (now rewrite Hset).
      rewrite (get_group_cons_eq k r suf E).
      rewrite IH, get_group_app, (get_group_cons_eq k r [] E), length_app.
      simpl length. subst k.
      rewrite (@skipn_cons_nth cell (length (get_group by_key (by_key r) pre)) _ None).
      * rewrite assign_cons. now rewrite Nat.add_1_r.
      * rewrite f_length, length_map, Ht, get_group_app, length_app.
        rewrite (get_group_cons_eq (by_key r) r suf eq_refl). simpl. lia.
    + rewrite get_group_cons_neq by (now rewrite Hset).
      rewrite (get_group_cons_neq k r suf E).
      rewrite IH, get_group_app, (get_group_cons_neq k r [] E).
      now rewrite app_nil_r.
Qed.

Lemma get_group_assign_transform (set : cell -> R -> R) (k : string) (t : list R) :
  (forall v r, by_key (set v r) = by_key r) ->
  get_group by_key k (assign set (transform by_key col f t) t)
  = assign set (f (map col (get_group by_key k t))) (get_group by_key k t).
Proof.
  intros Hset. unfold transform.
  now rewrite (get_group_assign_go set k t [] t Hset eq_refl).
Qed.
End Transform.

(** *** Forward fill of one series *)

Lemma ffill_from_length (xs : list cell) (l : cell) :
  length (ffill_from l xs) = length xs.
Proof.
  revert l; induction xs as [|x xs IH]; intros l; simpl; [reflexivity|].
  now rewrite IH.
Qed.

Lemma ffill_length (xs : list cell) : length (ffill xs) = length xs.
Proof. apply ffill_from_length. Qed.

(** While nothing but missing entries has been seen, the fill is the
    value carried in. *)
Lemma ffill_from_all_missing (xs : list cell) (l : cell) (p : nat) :
  p < length xs ->
  (forall i, i <= p -> nth_error xs i = Some None) ->
  nth_error (ffill_from l xs) p = Some l.
Proof.
  revert l p; induction xs as [|x xs IH]; intros l p Hp Hall; simpl in Hp; [lia|].
  assert (Hx : x = None).
  { specialize (Hall 0 (Nat.le_0_l p)). simpl in Hall. now inversion Hall. }
  subst x. destruct p as [|p]; simpl; [reflexivity|].
  apply IH; [lia|].
  intros i Hi. apply (Hall (S i)). lia.
Qed.

(** The entry at [q] is present and everything after it up to [p] is
    missing: the fill at [p] is the entry at [q]. *)
Lemma ffill_from_carries (xs : list cell) (l : cell) (p q : nat) (v : Q) :
  q <= p -> p < length xs ->
  nth_error xs q = Some (Some v) ->
  (forall i, q < i -> i <= p -> nth_error xs i = Some None) ->
  nth_error (ffill_from l xs) p = Some (Some v).
Proof.
  revert l p q; induction xs as [|x xs IH]; intros l p q Hqp Hp Hq Hgap;
    simpl in Hp; [lia|].
  destruct q as [|q].
  - simpl in Hq. inversion Hq; subst x.
    destruct p as [|p]; simpl; [reflexivity|].
    apply ffill_from_all_missing; [lia|].
    intros i Hi. apply (Hgap (S i)); lia.
  - destruct p as [|p]; [lia|]. simpl.
    apply (IH _ p q); [lia|lia|exact Hq|].
    intros i H1 H2. apply (Hgap (S i)); lia.
Qed.

(** Once a present value is carried, every fill is present. *)
Lemma ffill_from_some_present (xs : list cell) (v : Q) (p : nat) :
  p < length xs ->
  exists w, nth_error (ffill_from (Some v) xs) p = Some (Some w).
Proof.
  revert v p; induction xs as [|x xs IH]; intros v p Hp; simpl in Hp; [lia|].
  destruct p as [|p]; simpl.
  - destruct x as [w|]; [now exists w | now exists v].
  - destruct x as [w|]; apply IH; lia.
Qed.

(** An entry that is present somewhere up to [p] makes the fill at [p]
    present. *)
Lemma ffill_from_present (xs : list cell) (l : cell) (p q : nat) :
  q <= p -> p < length xs ->
  nth_error xs q <> Some None ->
  nth_error (ffill_from l xs) p <> Some None.
Proof.
  revert l p q; induction xs as [|x xs IH]; intros l p q Hqp Hp Hq;
    simpl in Hp; [lia|].
  destruct p as [|p].
  - assert (q = 0) by lia. subst q. simpl in *.
    destruct x; [discriminate|contradiction].
  - simpl. destruct q as [|q].
    + simpl in Hq. destruct x as [v|]; [|contradiction].
      destruct (ffill_from_some_present xs v p) as [w Hw]; [lia|].
      rewrite Hw. discriminate.
    + apply (IH _ p q); [lia|lia|exact Hq].
Qed.

(** The fill at [p] is the last present entry of the series up to [p]. *)
Lemma ffill_from_fold (xs : list cell) (l : cell) (p : nat) :
  p < length xs ->
  nth_error (ffill_from l xs) p
  = Some (fold_left (fun acc x => match x with Some _ => x | None => acc end)
                    (firstn (S p) xs) l).
Proof.
  revert l p; induction xs as [|x xs IH]; intros l p Hp; simpl in Hp; [lia|].
  destruct p as [|p].
  - reflexivity.
  - cbn [ffill_from nth_error]. rewrite IH by lia. reflexivity.
Qed.

Lemma ffill_last_valid (xs : list cell) (p : nat) :
  p < length xs ->
  nth_error (ffill xs) p = Some (last_valid (firstn (S p) xs)).
Proof. apply ffill_from_fold. Qed.

(** *** Rows: what a setter writes and what it leaves *)

Lemma metric_eq_dec (a b : metric) : {a = b} + {a <> b}.
Proof. decide equality. Qed.

Lemma get_set_same (m : metric) (v : cell) (r : Row) : get m (set m v r) = v.
Proof. now destruct r, m. Qed.

Lemma get_set_other (m m' : metric) (v : cell) (r : Row) :
  m <> m' -> get m' (set m v r) = get m' r.
Proof. intros H. destruct r, m, m'; try reflexivity; now elim H. Qed.

Lemma rest_of_row_set (m : metric) (v : cell) (r : Row) :
  rest_of_row (set m v r) = rest_of_row r.
Proof. now destruct r, m. Qed.

Lemma location_set (m : metric) (v : cell) (r : Row) :
  location (set m v r) = location r.
Proof. now destruct r, m. Qed.

(** *** One turn of the cleaning loop *)

Lemma ffill_metric_length (m : metric) (t : table) :
  length (ffill_metric m t) = length t.
Proof.
  unfold ffill_metric. apply assign_length, transform_length.
Qed.

Lemma ffill_metric_group (m : metric) (loc : string) (t : table) :
  get_group location loc (ffill_metric m t)
  = assign (set m) (ffill (series (get m) loc t)) (get_group location loc t).
Proof.
  unfold ffill_metric, series.
  apply get_group_assign_transform; [apply ffill_length | apply location_set].
Qed.

Lemma ffill_metric_series_same (m : metric) (loc : string) (t : table) :
  series (get m) loc (ffill_metric m t) = ffill (series (get m) loc t).
Proof.
  unfold series at 1. rewrite ffill_metric_group.
  apply assign_column; [apply get_set_same|].
  unfold series. now rewrite ffill_length, length_map.
Qed.

Lemma ffill_metric_series_other (m m' : metric) (loc : string) (t : table) :
  m <> m' ->
  series (get m') loc (ffill_metric m t) = series (get m') loc t.
Proof.
  intros H. unfold series at 1. rewrite ffill_metric_group.
  apply assign_frame; [intros; now apply get_set_other|].
  unfold series. now rewrite ffill_length, length_map.
Qed.

Lemma ffill_metric_rest (m : metric) (t : table) :
  map rest_of_row (ffill_metric m t) = map rest_of_row t.
Proof.
  unfold ffill_metric. apply assign_frame; [apply rest_of_row_set|].
  apply transform_length.
Qed.

(** *** The whole loop *)

Lemma ffill_loop_series_untouched (ms : list metric) (m : metric) (loc : string) (t : table) :
  ~ In m ms ->
  series (get m) loc (ffill_loop ms t) = series (get m) loc t.
Proof.
  revert t; induction ms as [|m0 ms IH]; intros t Hm; simpl; [reflexivity|].
  rewrite IH by (intros H; apply Hm; now right).
  apply ffill_metric_series_other. intros ->. apply Hm. now left.
Qed.

Lemma ffill_loop_series (ms : list metric) (m : metric) (loc : string) (t : table) :
  NoDup ms -> In m ms ->
  series (get m) loc (ffill_loop ms t) = ffill (series (get m) loc t).
Proof.
  revert t; induction ms as [|m0 ms IH]; intros t Hnd Hin; [contradiction|].
  inversion Hnd as [|? ? Hnotin Hnd']; subst. simpl.
  destruct (metric_eq_dec m0 m) as [->|Hne].
  - rewrite ffill_loop_series_untouched by assumption.
    apply ffill_metric_series_same.
  - destruct Hin as [->|Hin]; [now elim Hne|].
    rewrite IH by assumption.
    now rewrite ffill_metric_series_other.
Qed.

Lemma key_metrics_complete (m : metric) : In m key_metrics.
Proof. destruct m; simpl; tauto. Qed.

Lemma key_metrics_NoDup : NoDup key_metrics.
Proof.
  unfold key_metrics.
  repeat (constructor; [simpl; intuition discriminate|]). constructor.
Qed.

Lemma forward_fill_series (m : metric) (loc : string) (t : table) :
  series (get m) loc (forward_fill t) = ffill (series (get m) loc t).
Proof.
  apply (ffill_loop_series key_metrics);
    [apply key_metrics_NoDup | apply key_metrics_complete].
Qed.

(** *** Rows and their place in the series of their group *)

Section RowLevel.
Context {R : Type} (by_key : R -> string).
Variable col : R -> cell.
Variable f : list cell -> list cell.

Lemma transform_go_nth_error (t suf pre : list R) (j : nat) (r : R) :
  nth_error suf j = Some r ->
  nth_error (transform_go by_key col f t pre suf) j
  = Some (nth (length (get_group by_key (by_key r) (pre ++ firstn j suf)))
              (f (map col (get_group by_key (by_key r) t))) None).
Proof.
  revert pre j; induction suf as [|r0 suf IH]; intros pre [|j] H;
    simpl in H; try discriminate.
  - inversion H; subst r0. simpl. now rewrite app_nil_r.
  - simpl. rewrite (IH (pre ++ [r0]) j H). now rewrite <- app_assoc.
Qed.

Lemma transform_nth_error (t : list R) (k : nat) (r : R) :
  nth_error t k = Some r ->
  nth_error (transform by_key col f t) k
  = Some (nth (length (get_group by_key (by_key r) (firstn k t)))
              (f (map col (get_group by_key (by_key r) t))) None).
Proof. intros H. unfold transform. now rewrite (transform_go_nth_error t t [] k r H). Qed.

(** The row at [k] sits in the series of its group at the position
    given by the number of rows of the group before [k]. *)
Lemma group_position {B : Type} (g : R -> B) (t : list R) (k : nat) (r : R) :
  nth_error t k = Some r ->
  nth_error (map g (get_group by_key (by_key r) t))
            (length (get_group by_key (by_key r) (firstn k t)))
  = Some (g r).
Proof.
  intros H.
  assert (Hk : k < length t) by (apply nth_error_Some; congruence).
  rewrite <- (firstn_skipn k t) at 1.
  rewrite (skipn_cons_nth k t r Hk), (nth_error_nth_default t k r r H).
  rewrite get_group_app, (get_group_cons_eq by_key _ r _ eq_refl).
  rewrite map_app, nth_error_app2 by (rewrite length_map; lia).
  rewrite length_map, Nat.sub_diag. reflexivity.
Qed.
End RowLevel.

Lemma ffill_keeps_present (xs : list cell) (p : nat) (v : Q) :
  nth_error xs p = Some (Some v) -> nth_error (ffill xs) p = Some (Some v).
Proof.
  intros H. apply (ffill_from_carries xs None p p v); trivial.
  - apply nth_error_Some. congruence.
  - intros; lia.
Qed.

Lemma only_fills_refl (r : Row) : only_fills r r.
Proof. now split. Qed.

Lemma only_fills_trans (a b c : Row) :
  only_fills a b -> only_fills b c -> only_fills a c.
Proof.
  intros [H1 H2] [H3 H4]. split; [congruence|].
  intros m v H. now apply H4, H2.
Qed.

Lemma ffill_metric_row (m : metric) (t : table) (k : nat) (r : Row) :
  nth_error t k = Some r ->
  exists r', nth_error (ffill_metric m t) k = Some r' /\ only_fills r r'.
Proof.
  intros H. unfold ffill_metric.
  pose proof (transform_nth_error location (get m) ffill t k r H) as Hv.
  eexists. split; [apply (assign_nth_error _ _ _ _ _ r Hv H)|].
  split; [apply rest_of_row_set|].
  intros m' v Hg. destruct (metric_eq_dec m m') as [<-|Hne].
  - rewrite get_set_same.
    pose proof (group_position location (get m) t k r H) as Hpos.
    rewrite Hg in Hpos. apply ffill_keeps_present in Hpos.
    now apply nth_error_nth_default.
  - now rewrite get_set_other.
Qed.

Lemma ffill_loop_row (ms : list metric) (t : table) (k : nat) (r : Row) :
  nth_error t k = Some r ->
  exists r', nth_error (ffill_loop ms t) k = Some r' /\ only_fills r r'.
Proof.
  revert t r; induction ms as [|m ms IH]; intros t r H; simpl.
  - exists r. split; [assumption|apply only_fills_refl].
  - destruct (ffill_metric_row m t k r H) as (r1 & H1 & F1).
    destruct (IH _ r1 H1) as (r' & H' & F').
    exists r'. split; [assumption|]. now apply (only_fills_trans r r1 r').
Qed.

Lemma ffill_loop_length (ms : list metric) (t : table) :
  length (ffill_loop ms t) = length t.
Proof.
  revert t; induction ms as [|m ms IH]; intros t; simpl; [reflexivity|].
  now rewrite IH, ffill_metric_length.
Qed.

Lemma ffill_loop_rest (ms : list metric) (t : table) :
  map rest_of_row (ffill_loop ms t) = map rest_of_row t.
Proof.
  revert t; induction ms as [|m ms IH]; intros t; simpl; [reflexivity|].
  now rewrite IH, ffill_metric_rest.
Qed.

(** *** Cleaning: forward fill per location *)

(** C1 (amended to row order).  Take the series of a key metric [m] for
    a location, in the order the rows of the location have in the frame
    (the order [groupby] keeps and [ffill] works in), and a position [p]
    of it.  After cleaning, the entry at [p] is the most recent entry at
    or before [p] that was present: if the entry at [q <= p] was [v] and
    everything after [q] up to [p] was missing, the cleaned entry at [p]
    is [v] (for [q = p] a present entry is kept); so any present entry
    at or before [p] makes the cleaned entry present; and if every entry
    up to [p] was missing, the cleaned entry at [p] is still missing. *)
Theorem forward_fill_in_row_order
        (t : table) (loc : string) (m : metric) (p : nat) (x : cell) :
  nth_error (series (get m) loc t) p = Some x ->
  (forall q v, q <= p ->
     nth_error (series (get m) loc t) q = Some (Some v) ->
     (forall i, q < i -> i <= p -> nth_error (series (get m) loc t) i = Some None) ->
     nth_error (series (get m) loc (forward_fill t)) p = Some (Some v))
  /\ (forall q v, q <= p ->
        nth_error (series (get m) loc t) q = Some (Some v) ->
        exists w, nth_error (series (get m) loc (forward_fill t)) p = Some (Some w))
  /\ ((forall i, i <= p -> nth_error (series (get m) loc t) i = Some None) ->
      nth_error (series (get m) loc (forward_fill t)) p = Some None).
Proof.
  intros Hx. rewrite forward_fill_series.
  assert (Hp : p < length (series (get m) loc t))
    by (apply nth_error_Some; congruence).
  repeat split.
  - intros q v Hq Hv Hgap. now apply (ffill_from_carries _ None p q v).
  - intros q v Hq Hv.
    assert (Hne : nth_error (ffill (series (get m) loc t)) p <> Some None).
    { apply (ffill_from_present _ None p q); trivial. rewrite Hv. discriminate. }
    destruct (nth_error (ffill (series (get m) loc t)) p) as [[w|]|] eqn:E.
    + now exists w.
    + now elim Hne.
    + apply nth_error_None in E. rewrite ffill_length in E. lia.
  - intros Hall. now apply ffill_from_all_missing.
Qed.

Lemma forward_fill_in_row_order_witness :
  nth_error (series (get TotalCases) "Kenya" (forward_fill Samples.interleaved)) 2
  = Some (Some 5%Q).
Proof.
  apply (proj1 (forward_fill_in_row_order Samples.interleaved "Kenya" TotalCases
                  2 None eq_refl) 1 5%Q).
  - lia.
  - reflexivity.
  - intros i H1 H2. assert (i = 2) by lia. subst i. reflexivity.
Defined.

(** On a frame that lists the rows of the location by ascending date,
    row order is the order of time: an observation dated at or after a
    present observation of the location is present after cleaning. *)
Lemma forward_fill_chronological_when_listed_by_date
      (t : table) (loc : string) (m : metric) (p q : nat) (dp dq : Z) (v : Q) :
  listed_by_date loc t ->
  nth_error (series date loc t) p = Some dp ->
  nth_error (series date loc t) q = Some dq ->
  (dq <= dp)%Z ->
  nth_error (series (get m) loc t) q = Some (Some v) ->
  exists w, nth_error (series (get m) loc (forward_fill t)) p = Some (Some w).
Proof.
  intros Hsorted Hp Hq Hle Hv.
  assert (Hqp : q <= p).
  { destruct (Nat.le_gt_cases q p) as [H|H]; [exact H|].
    specialize (Hsorted p q dp dq H Hp Hq). lia. }
  assert (Hlen : p < length (series (get m) loc t)).
  { unfold series in *. rewrite length_map.
    rewrite <- (length_map date). apply nth_error_Some. congruence. }
  rewrite forward_fill_series.
  assert (Hne : nth_error (ffill (series (get m) loc t)) p <> Some None).
  { apply (ffill_from_present _ None p q); trivial. rewrite Hv. discriminate. }
  destruct (nth_error (ffill (series (get m) loc t)) p) as [[w|]|] eqn:E.
  - now exists w.
  - now elim Hne.
  - apply nth_error_None in E. rewrite ffill_length in E. lia.
Qed.

(** C1 as stated fails on a frame that is not listed by date: the
    observation of day 2 comes after a present observation of day 1 of
    the same location, and is still missing after cleaning, because it
    comes first in the frame. *)
Lemma forward_fill_not_chronological :
  exists k r r0 r',
    nth_error Samples.day2_before_day1 k = Some r /\
    In r0 Samples.day2_before_day1 /\
    location r0 = location r /\
    (date r0 <= date r)%Z /\
    total_cases r0 <> None /\
    nth_error (forward_fill Samples.day2_before_day1) k = Some r' /\
    total_cases r' = None.
Proof.
  exists 0, (Samples.cases None (Samples.obs "Kenya" "KEN" 2)),
         (Samples.cases (Some 5%Q) (Samples.obs "Kenya" "KEN" 1)).
  exists (Samples.cases None (Samples.obs "Kenya" "KEN" 2)).
  split; [reflexivity|]. split; [simpl; tauto|]. split; [reflexivity|].
  split; [simpl; lia|]. split; [discriminate|]. split; reflexivity.
Qed.

(** C9.  Cleaning keeps the rows and only fills: the frame has as many
    rows as before; every column outside the key metrics (location and
    date among them) holds, row by row, what it held; and a key metric
    that was present in a row has the same value in that row
    afterwards. *)
Theorem forward_fill_only_fills (t : table) :
  length (forward_fill t) = length t
  /\ map rest_of_row (forward_fill t) = map rest_of_row t
  /\ (forall k r, nth_error t k = Some r ->
        exists r', nth_error (forward_fill t) k = Some r' /\
                   rest_of_row r' = rest_of_row r /\
                   forall m v, get m r = Some v -> get m r' = Some v).
Proof.
  repeat split.
  - apply ffill_loop_length.
  - apply ffill_loop_rest.
  - intros k r H. apply (ffill_loop_row key_metrics t k r H).
Qed.

Lemma forward_fill_only_fills_witness :
  exists r', nth_error (forward_fill Samples.interleaved) 1 = Some r' /\
             total_cases r' = Some 3%Q /\ date r' = 1%Z.
Proof.
  destruct (proj2 (proj2 (forward_fill_only_fills Samples.interleaved)) 1 _ eq_refl)
    as (r' & H & Hrest & Hkeep).
  exists r'. split; [exact H|]. split.
  - apply (Hkeep TotalCases). reflexivity.
  - change (date r') with (snd (fst (fst (fst (fst (fst (fst (fst (rest_of_row r'))))))))).
    rewrite Hrest. reflexivity.
Defined.

(** *** Smoothed new cases: the rolling mean *)

Lemma rolling_mean_length (w mp : nat) (xs : list cell) :
  length (rolling_mean w mp xs) = length xs.
Proof. unfold rolling_mean. now rewrite length_map, length_seq. Qed.

Lemma rolling_mean_nth_error (w mp : nat) (xs : list cell) (p : nat) :
  p < length xs ->
  nth_error (rolling_mean w mp xs) p
  = Some (window_mean mp (rolling_window w p xs)).
Proof.
  intros Hp. unfold rolling_mean.
  rewrite nth_error_map, nth_error_seq.
  destruct (Nat.ltb_spec p (length xs)) as [_|H]; [reflexivity|lia].
Qed.

(** The window at [p] has [min (p+1) w] entries ... *)
Lemma rolling_window_length (w p : nat) (xs : list cell) :
  p < length xs -> length (rolling_window w p xs) = Nat.min (S p) w.
Proof.
  intros Hp. unfold rolling_window. rewrite length_skipn, length_firstn. lia.
Qed.

(** ... and they are the entries of the series that end at [p]. *)
Lemma rolling_window_nth_error (w p : nat) (xs : list cell) (j : nat) :
  j < Nat.min (S p) w ->
  nth_error (rolling_window w p xs) j
  = nth_error xs (S p - Nat.min (S p) w + j).
Proof.
  intros Hj. unfold rolling_window.
  rewrite nth_error_skipn, nth_error_firstn.
  replace (S p - w + j) with (S p - Nat.min (S p) w + j) by lia.
  destruct (Nat.ltb_spec (S p - Nat.min (S p) w + j) (S p)) as [_|H];
    [reflexivity|lia].
Qed.

Lemma valid_map_Some (vs : list Q) : valid (map Some vs) = vs.
Proof. induction vs as [|v vs IH]; simpl; congruence. Qed.

Lemma valid_nil_iff (w : list cell) :
  valid w = [] <-> forall c, In c w -> c = None.
Proof.
  induction w as [|[q|] w IH]; simpl.
  - split; [intros _ c []|reflexivity].
  - split; [discriminate|]. intros H. specialize (H (Some q) (or_introl eq_refl)).
    discriminate.
  - rewrite IH. split.
    + intros H c [<-|Hc]; [reflexivity|now apply H].
    + intros H c Hc. apply H. now right.
Qed.

(** With [min_periods = 1] the mean is that of the present entries, and
    is missing only when the window has none. *)
Lemma window_mean_present (w : list cell) :
  valid w <> [] ->
  window_mean 1 w
  = Some (Qsum (valid w) / inject_Z (Z.of_nat (length (valid w))))%Q.
Proof.
  intros H. unfold window_mean.
  destruct (valid w) as [|v vs]; [now elim H|reflexivity].
Qed.

Lemma window_mean_missing_iff (w : list cell) :
  window_mean 1 w = None <-> forall c, In c w -> c = None.
Proof.
  rewrite <- valid_nil_iff. unfold window_mean.
  destruct (valid w) as [|v vs]; simpl; split; trivial; discriminate.
Qed.

Lemma location_set_new_cases_smoothed (v : cell) (r : Row) :
  location (set_new_cases_smoothed v r) = location r.
Proof. now destruct r. Qed.

Lemma with_new_cases_smoothed_series (loc : string) (t : table) :
  series new_cases_smoothed loc (with_new_cases_smoothed t)
  = rolling_mean 7 1 (series new_cases loc t).
Proof.
  unfold series at 1, with_new_cases_smoothed.
  rewrite (get_group_assign_transform location new_cases (rolling_mean 7 1)
             (rolling_mean_length 7 1) set_new_cases_smoothed loc t
             location_set_new_cases_smoothed).
  apply assign_column; [now intros v []|].
  unfold series. now rewrite rolling_mean_length, length_map.
Qed.

(** C4 (amended to row order and to the present entries).  Take the
    series of [new_cases] of a location in the order its rows have in
    the frame and a position [p] of it (counted from 0, so the claim's
    [i] is [p + 1]).  The window at [p] is the trailing [min (p+1) 7]
    entries of the series, ending at [p].  The smoothed value at [p] is
    the arithmetic mean of the entries of the window that are present;
    when all of them are present it is their sum divided by
    [min (p+1) 7]; it is missing exactly when the whole window is
    missing; and at the first row of the location it is the raw value. *)
Theorem smoothed_is_mean_of_trailing_window
        (t : table) (loc : string) (p : nat) (x : cell) :
  nth_error (series new_cases loc t) p = Some x ->
  let xs := series new_cases loc t in
  let ys := series new_cases_smoothed loc (with_new_cases_smoothed t) in
  let w := rolling_window 7 p xs in
  let n := Nat.min (S p) 7 in
  length w = n
  /\ (forall j, j < n -> nth_error w j = nth_error xs (S p - n + j))
  /\ (valid w <> [] ->
      nth_error ys p
      = Some (Some (Qsum (valid w) / inject_Z (Z.of_nat (length (valid w))))%Q))
  /\ (forall vs, w = map Some vs ->
      nth_error ys p = Some (Some (Qsum vs / inject_Z (Z.of_nat n))%Q))
  /\ (nth_error ys p = Some None <-> forall c, In c w -> c = None)
  /\ (p = 0 -> exists y, nth_error ys 0 = Some y /\ cell_eq y x).
Proof.
  intros Hx xs ys w n.
  assert (Hp : p < length xs) by (apply nth_error_Some; unfold xs; congruence).
  assert (Hlen : length w = n) by (apply rolling_window_length; exact Hp).
  assert (Hys : nth_error ys p = Some (window_mean 1 w)).
  { unfold ys. rewrite with_new_cases_smoothed_series.
    now apply rolling_mean_nth_error. }
  split; [exact Hlen|]. split; [apply rolling_window_nth_error|].
  split; [|split; [|split]].
  - intros Hv. rewrite Hys. f_equal. now apply window_mean_present.
  - intros vs Hw. rewrite Hys. f_equal.
    assert (Hvs : valid w = vs) by (rewrite Hw; apply valid_map_Some).
    assert (Hn : length vs = n) by (rewrite <- Hlen, Hw; now rewrite length_map).
    rewrite window_mean_present.
    + now rewrite Hvs, Hn.
    + rewrite Hvs. intros ->. simpl in Hn. unfold n in Hn. lia.
  - rewrite Hys, <- window_mean_missing_iff.
    split; [intros H; now inversion H | intros H; now rewrite H].
  - intros ->. exists (window_mean 1 w). split; [exact Hys|].
    unfold w, rolling_window. fold xs in Hx.
    destruct xs as [|x0 xs']; simpl in Hx; [discriminate|].
    inversion Hx; subst x0. simpl.
    destruct x as [q|]; simpl; [|exact I].
    unfold Qsum. simpl. field.
Qed.

Lemma smoothed_is_mean_of_trailing_window_witness :
  nth_error (series new_cases_smoothed "India"
               (with_new_cases_smoothed Samples.nine_days)) 8
  = Some (Some (Qsum [30; 40; 50; 60; 70; 80; 90] / 7)%Q).
Proof.
  apply (proj1 (proj2 (proj2 (proj2
           (smoothed_is_mean_of_trailing_window Samples.nine_days "India" 8
              (Some 90%Q) eq_refl))))
           [30; 40; 50; 60; 70; 80; 90]%Q).
  reflexivity.
Defined.

(** C4 as stated fails on a frame that is not listed by date: the
    observation of day 1 is the first of its location in time, but the
    second in the frame, and its smoothed value is the mean of both
    days, not its raw value. *)
Lemma smoothed_not_chronological :
  let t := forward_fill (filtered Samples.new_cases_day2_first) in
  exists k r r',
    nth_error t k = Some r /\
    (forall r0, In r0 t -> location r0 = location r -> (date r <= date r0)%Z) /\
    nth_error (with_new_cases_smoothed t) k = Some r' /\
    new_cases r = Some 20%Q /\
    ~ cell_eq (new_cases_smoothed r') (new_cases r).
Proof.
  exists 1, (Samples.new (Some 20%Q) (Samples.obs "Kenya" "KEN" 1)).
  eexists. split; [vm_compute; reflexivity|]. split.
  - intros r0 Hin _. vm_compute in Hin.
    destruct Hin as [<-|[<-|[]]]; vm_compute; discriminate.
  - split; [vm_compute; reflexivity|]. split; [reflexivity|].
    vm_compute. discriminate.
Qed.

(** Also on a frame listed by date the mean skips what is missing: a
    series that starts with a missing value has a missing smoothed value
    first, and next the one present value, not half of it. *)
Lemma smoothed_with_leading_missing :
  series new_cases "Kenya" (cleaned Samples.new_cases_starts_missing)
  = [None; Some 5%Q]
  /\ series new_cases_smoothed "Kenya"
       (with_new_cases_smoothed (cleaned Samples.new_cases_starts_missing))
     = [None; Some (5 + 0 / 1)%Q].
Proof. split; vm_compute; reflexivity. Qed.

(** *** Death rate and case fatality rate *)

Lemma truediv_missing_denominator (a : cell) : truediv a None = XNaN.
Proof. now destruct a. Qed.

Lemma truediv_zero_denominator (a : cell) (c : Q) :
  (c == 0)%Q ->
  truediv a (Some c)
  = match a with
    | None => XNaN
    | Some d => if Qeq_bool d 0 then XNaN else XInf (negb (Qle_bool 0 d))
    end.
Proof.
  intros Hc. destruct a as [d|]; simpl; [|reflexivity].
  apply Qeq_bool_iff in Hc. now rewrite Hc.
Qed.

Lemma death_rate_with_death_rate (r : Row) :
  death_rate (set_death_rate (deaths_per_100_cases r) r) = deaths_per_100_cases r.
Proof. now destruct r. Qed.

Lemma cfr_with_cfr (r : Row) :
  cfr (set_cfr (deaths_per_100_cases r) r) = deaths_per_100_cases r.
Proof. now destruct r. Qed.

(** On a missing or zero denominator the model of the division is that
    of binary64: the result is of the same kind, and for the zero [+0.0]
    an infinity has the same sign. *)
Lemma value_not_zero (s : bool) (m : positive) (e : Z) :
  Qeq_bool (Binary64.value s m e) 0 = false.
Proof. destruct s, e; reflexivity. Qed.

Lemma value_sign (s : bool) (m : positive) (e : Z) :
  Qle_bool 0 (Binary64.value s m e) = negb s.
Proof. destruct s, e; reflexivity. Qed.

Lemma deaths_per_100_cases_binary64 (td tc : spec_float) (a b : cell) (zs : bool) :
  Binary64.to_cell td = Some a ->
  Binary64.to_cell tc = Some b ->
  tc = S754_nan \/ tc = S754_zero zs ->
  Binary64.same_class (Binary64.deaths_per_100_cases td tc)
                      (xmul (truediv a b) 100)
  /\ (zs = false -> forall neg, xmul (truediv a b) 100 = XInf neg ->
       Binary64.is_infinity (Binary64.deaths_per_100_cases td tc) neg).
Proof.
  intros Ha Hb [->| ->]; simpl in Hb; injection Hb as <-.
  - rewrite truediv_missing_denominator.
    destruct td; simpl; split; trivial; discriminate.
  - destruct td as [s| s| |s m e]; simpl in Ha; try discriminate;
      injection Ha as <-.
    + simpl. split; [trivial|discriminate].
    + simpl. split; [trivial|discriminate].
    + unfold truediv. simpl Qeq_bool at 1. cbv iota.
      rewrite value_not_zero, value_sign, negb_involutive.
      split; [exact I|].
      intros -> neg H. simpl in H. injection H as <-.
      unfold Binary64.is_infinity. simpl. now destruct s.
Qed.

(** C2 (amended).  In every row, [death_rate] and [cfr] are the same
    expression of the row's [total_deaths] and [total_cases].  Both are
    missing when [total_cases] is missing, and when [total_cases] is
    zero and [total_deaths] is missing or zero.  When [total_cases] is
    zero and [total_deaths] is a number other than zero, both are an
    infinity, which is not a missing value.  A zero [total_cases] never
    gives a finite number. *)
Theorem ratio_columns_when_cases_missing_or_zero (t : table) (k : nat) (r : Row) :
  nth_error t k = Some r ->
  exists r1 r2,
    nth_error (with_death_rate t) k = Some r1 /\
    nth_error (with_cfr t) k = Some r2 /\
    death_rate r1 = cfr r2 /\
    (total_cases r = None -> death_rate r1 = XNaN) /\
    (forall c, total_cases r = Some c -> (c == 0)%Q ->
       (total_deaths r = None -> death_rate r1 = XNaN) /\
       (forall d, total_deaths r = Some d ->
          ((d == 0)%Q -> death_rate r1 = XNaN) /\
          (~ (d == 0)%Q -> death_rate r1 = XInf (negb (Qle_bool 0 d)) /\
                           isna_x (death_rate r1) = false)) /\
       (forall q, death_rate r1 <> XFin q)).
Proof.
  intros H.
  exists (set_death_rate (deaths_per_100_cases r) r),
         (set_cfr (deaths_per_100_cases r) r).
  split; [unfold with_death_rate; now rewrite nth_error_map, H|].
  split; [unfold with_cfr; now rewrite nth_error_map, H|].
  rewrite death_rate_with_death_rate, cfr_with_cfr.
  split; [reflexivity|]. unfold deaths_per_100_cases. split.
  - intros ->. now rewrite truediv_missing_denominator.
  - intros c -> Hc. rewrite (truediv_zero_denominator _ c Hc). repeat split.
    + now intros ->.
    + intros Hd. rewrite H0. apply Qeq_bool_iff in Hd. now rewrite Hd.
    + rewrite H0. destruct (Qeq_bool d 0) eqn:E;
        [apply Qeq_bool_iff in E; contradiction|].
      simpl. now destruct (Qle_bool 0 d).
    + rewrite H0. destruct (Qeq_bool d 0) eqn:E;
        [apply Qeq_bool_iff in E; contradiction|reflexivity].
    + intros q. destruct (total_deaths r) as [d|]; [|discriminate].
      destruct (Qeq_bool d 0); simpl; discriminate.
Qed.

Lemma ratio_columns_when_cases_missing_or_zero_witness :
  exists r1 r2,
    nth_error (with_death_rate Samples.interleaved) 0 = Some r1 /\
    nth_error (with_cfr Samples.interleaved) 0 = Some r2 /\
    death_rate r1 = cfr r2 /\ death_rate r1 = XNaN.
Proof.
  destruct (ratio_columns_when_cases_missing_or_zero Samples.interleaved 0 _ eq_refl)
    as (r1 & r2 & H1 & H2 & H3 & H4 & _).
  exists r1, r2. repeat split; trivial. apply H4. reflexivity.
Defined.

(** C2 as stated fails: a row with zero [total_cases] and one death has
    a [death_rate] and a [cfr] that are not missing. *)
Lemma death_rate_of_zero_cases_not_missing :
  exists r r1 r2,
    nth_error Samples.deaths_without_cases 0 = Some r /\
    total_cases r = Some 0%Q /\
    nth_error (with_death_rate Samples.deaths_without_cases) 0 = Some r1 /\
    nth_error (with_cfr Samples.deaths_without_cases) 0 = Some r2 /\
    isna_x (death_rate r1) = false /\ isna_x (cfr r2) = false.
Proof.
  do 3 eexists. repeat split.
Qed.

(** *** The latest snapshot *)

(** C3 fails on the code.  [GroupBy.last] takes, column by column, the
    last entry that is not missing.  In the sample the row of the
    latest date has no population; the snapshot row carries the latest
    date together with the population of the day before, so it is not
    the row of the latest date. *)
Theorem latest_data_mixes_rows :
  exists snap snap' r_last,
    latest_data Samples.population_gap = [snap] /\
    latest_data_4_4 Samples.population_gap = [snap'] /\
    nth_error (frame_8 Samples.population_gap) 1 = Some r_last /\
    (forall r, In r (frame_8 Samples.population_gap) -> (date r <= date r_last)%Z) /\
    date snap = date r_last /\ date snap' = date r_last /\
    population r_last = None /\
    population snap = Some 53771300%Q /\
    population snap' = Some 53771300%Q.
Proof.
  exists (mkRow "Kenya" "KEN" 2 (Some 12%Q) (Some 2%Q) (Some 1%Q) (Some 0%Q)
                None None None (Some 53771300%Q) None (Some (12 # 2))
                (XFin (100 # 12)) None (XFin (100 # 12)) XNaN),
         (mkRow "Kenya" "KEN" 2 (Some 12%Q) (Some 2%Q) (Some 1%Q) (Some 0%Q)
                None None None (Some 53771300%Q) None (Some (12 # 2))
                (XFin (100 # 12)) None XNaN XNaN),
         (mkRow "Kenya" "KEN" 2 (Some 12%Q) (Some 2%Q) (Some 1%Q) (Some 0%Q)
                None None None None None (Some (12 # 2))
                (XFin (100 # 12)) None (XFin (100 # 12)) XNaN).
  split; [vm_compute; reflexivity|].
  split; [vm_compute; reflexivity|].
  split; [vm_compute; reflexivity|].
  split; [|repeat split].
  assert (E : map date (frame_8 Samples.population_gap) = [1; 2]%Z)
    by (vm_compute; reflexivity).
  intros r Hin. apply (in_map date) in Hin. rewrite E in Hin.
  simpl in Hin. cbn [date]. lia.
Qed.

(** *** Aggregates *)

Lemma isin_In (x : string) (l : list string) : isin x l = true <-> In x l.
Proof.
  unfold isin. rewrite existsb_exists. split.
  - intros (y & Hy & E). apply String.eqb_eq in E. now subst.
  - intros H. exists x. split; [assumption|apply String.eqb_refl].
Qed.

(** The part of C5 that holds: [country_df] has no aggregate row. *)
Lemma country_df_has_no_aggregate (df : table) (r : Row) :
  In r (country_df df) -> ~ In (location r) continents.
Proof.
  unfold country_df. rewrite filter_In. intros [_ H] Hin.
  apply isin_In in Hin. rewrite Hin in H. discriminate.
Qed.

(** *** Sorting *)

Section SortBy.
Context {A : Type} (leb : A -> A -> bool).

Lemma insert_by_perm (x : A) (l : list A) :
  Permutation (insert_by leb x l) (x :: l).
Proof.
  induction l as [|y l IH]; simpl; [reflexivity|].
  destruct (leb x y); [reflexivity|].
  rewrite IH. apply perm_swap.
Qed.

Lemma sort_by_perm (l : list A) : Permutation (sort_by leb l) l.
Proof.
  induction l as [|x l IH]; simpl; [reflexivity|].
  rewrite insert_by_perm. now apply perm_skip.
Qed.

Lemma sort_by_In (l : list A) (x : A) : In x (sort_by leb l) <-> In x l.
Proof.
  split; apply Permutation_in;
    [apply sort_by_perm | apply Permutation_sym, sort_by_perm].
Qed.

Lemma sort_by_length (l : list A) : length (sort_by leb l) = length l.
Proof. apply Permutation_length, sort_by_perm. Qed.

Hypothesis leb_total : forall a b, leb a b = true \/ leb b a = true.
Hypothesis leb_trans :
  forall a b c, leb a b = true -> leb b c = true -> leb a c = true.

Let ordered (a b : A) : Prop := leb a b = true.

Lemma insert_by_sorted (x : A) (l : list A) :
  StronglySorted ordered l -> StronglySorted ordered (insert_by leb x l).
Proof.
  induction 1 as [|y l Hs IH Hy]; simpl.
  - repeat constructor.
  - destruct (leb x y) eqn:E.
    + constructor; [now constructor|].
      constructor; [exact E|].
      rewrite Forall_forall in *. intros z Hz.
      apply (leb_trans x y z E). now apply Hy.
    + constructor; [exact IH|].
      rewrite Forall_forall in *. intros z Hz.
      apply (Permutation_in z (insert_by_perm x l)) in Hz.
      destruct Hz as [<-|Hz]; [|now apply Hy].
      destruct (leb_total x y) as [H|H]; [congruence|exact H].
Qed.

Lemma sort_by_sorted (l : list A) : StronglySorted ordered (sort_by leb l).
Proof.
  induction l as [|x l IH]; simpl; [constructor|].
  now apply insert_by_sorted.
Qed.

Lemma sorted_nth_error (l : list A) (i j : nat) (a b : A) :
  StronglySorted ordered l -> i < j ->
  nth_error l i = Some a -> nth_error l j = Some b -> leb a b = true.
Proof.
  intros Hs. revert i j; induction Hs as [|y l Hs IH Hy]; intros i j Hij Ha Hb.
  - now destruct i.
  - destruct j as [|j]; [lia|]. simpl in Hb. destruct i as [|i].
    + simpl in Ha. inversion Ha; subst y.
      rewrite Forall_forall in Hy. apply Hy. eapply nth_error_In, Hb.
    + simpl in Ha. apply (IH i j); [lia|assumption|assumption].
Qed.
End SortBy.

Lemma cell_geb_total (a b : cell) : cell_geb a b = true \/ cell_geb b a = true.
Proof.
  destruct a as [x|], b as [y|]; simpl; auto.
  destruct (Qle_bool y x) eqn:E; [now left|right].
  apply Qle_bool_iff. apply Qlt_le_weak, Qnot_le_lt.
  intros H. apply Qle_bool_iff in H. congruence.
Qed.

Lemma cell_geb_trans (a b c : cell) :
  cell_geb a b = true -> cell_geb b c = true -> cell_geb a c = true.
Proof.
  destruct a as [x|], b as [y|], c as [z|]; simpl; trivial; try discriminate.
  rewrite !Qle_bool_iff. intros H1 H2. now apply (Qle_trans z y x).
Qed.

(** *** Locations through the pipeline *)

Lemma get_group_location (k : string) (t : table) (r : Row) :
  In r (get_group location k t) -> location r = k /\ In r t.
Proof.
  unfold get_group. rewrite filter_In. intros [H E].
  apply String.eqb_eq in E. now split.
Qed.

Lemma fold_merge_last_location (k : string) (g : table) (r0 : Row) :
  location r0 = k -> (forall r, In r g -> location r = k) ->
  location (fold_left merge_last g r0) = k.
Proof.
  revert r0; induction g as [|r g IH]; intros r0 H0 Hg; simpl; [exact H0|].
  apply IH.
  - simpl. apply Hg. now left.
  - intros r' H'. apply Hg. now right.
Qed.

Lemma groupby_last_location (t : table) (row : Row) :
  In row (groupby_last location merge_last t) ->
  In (location row) (map location t).
Proof.
  unfold groupby_last. rewrite in_flat_map. intros (k & Hk & Hrow).
  destruct (get_group location k t) as [|r0 g] eqn:E; [contradiction|].
  destruct Hrow as [<-|[]].
  assert (Hall : forall r, In r (r0 :: g) -> location r = k /\ In r t)
    by (intros r Hr; apply get_group_location; now rewrite E).
  rewrite (fold_merge_last_location k g r0).
  - destruct (Hall r0 (or_introl eq_refl)) as [<- Hin]. now apply in_map.
  - apply Hall. now left.
  - intros r Hr. apply Hall. now right.
Qed.

Lemma latest_location (t : table) (row : Row) :
  In row (latest t) -> In (location row) (map location t).
Proof.
  intros H. apply groupby_last_location in H.
  apply in_map_iff in H. destruct H as (r & <- & Hr).
  apply in_map. unfold sort_by_date in Hr. now apply sort_by_In in Hr.
Qed.

Lemma ffill_loop_location (ms : list metric) (t : table) :
  map location (ffill_loop ms t) = map location t.
Proof.
  revert t; induction ms as [|m ms IH]; intros t; simpl; [reflexivity|].
  rewrite IH. unfold ffill_metric.
  apply assign_frame; [apply location_set | apply transform_length].
Qed.

Lemma with_new_cases_smoothed_location (t : table) :
  map location (with_new_cases_smoothed t) = map location t.
Proof.
  unfold with_new_cases_smoothed.
  apply assign_frame; [now intros v [] | apply transform_length].
Qed.

Lemma with_death_rate_location (t : table) :
  map location (with_death_rate t) = map location t.
Proof.
  unfold with_death_rate. rewrite map_map. apply map_ext. now intros [].
Qed.

Lemma with_cfr_location (t : table) :
  map location (with_cfr t) = map location t.
Proof.
  unfold with_cfr. rewrite map_map. apply map_ext. now intros [].
Qed.

Lemma pct_country_location (c : string) (t : table) :
  map location (fst (pct_country c t)) = map location t.
Proof.
  unfold pct_country.
  destruct (latest_pop c t) as [[p|]|]; try reflexivity.
  destruct (negb (Qle_bool p 0)); [|reflexivity].
  simpl. rewrite map_map. apply map_ext. intros r. unfold pct_row.
  destruct (String.eqb (location r) c); [now destruct r|reflexivity].
Qed.

Lemma pct_loop_location (cs : list string) (acc : table * bool) :
  map location (fst (pct_loop cs acc)) = map location (fst acc).
Proof.
  revert acc; induction cs as [|c cs IH]; intros acc; simpl; [reflexivity|].
  rewrite IH. simpl. apply pct_country_location.
Qed.

Lemma frame_8_location (df : table) :
  map location (frame_8 df) = map location (filtered df).
Proof.
  unfold frame_8, frame_4_4, cleaned, forward_fill.
  rewrite with_cfr_location.
  unfold with_pct_vaccinated.
  rewrite (pct_loop_location countries_of_interest (_, false)). cbn [fst].
  now rewrite with_death_rate_location, with_new_cases_smoothed_location,
    ffill_loop_location.
Qed.

Lemma filtered_location (df : table) (l : string) :
  In l (map location (filtered df)) -> In l countries_of_interest.
Proof.
  rewrite in_map_iff. intros (r & <- & Hr).
  unfold filtered in Hr. apply filter_In in Hr. now apply isin_In.
Qed.

Lemma latest_data_location (df : table) (row : Row) :
  In row (latest_data df) -> In (location row) countries_of_interest.
Proof.
  unfold latest_data. intros H.
  apply (filtered_location df). rewrite <- frame_8_location.
  exact (latest_location _ _ H).
Qed.

(** *** The top-5 tables *)

Lemma cell_geb_may_follow (a b : cell) : cell_geb a b = true -> may_follow a b.
Proof.
  destruct a as [x|], b as [y|]; simpl; trivial; try discriminate.
  apply Qle_bool_iff.
Qed.

Lemma top5_length (col : Row -> cell) (t : table) : length (top5 col t) <= 5.
Proof. unfold top5. rewrite length_map. apply firstn_le_length. Qed.

Lemma top5_In (col : Row -> cell) (t : table) (l : string) (v : cell) :
  In (l, v) (top5 col t) -> exists r, In r t /\ location r = l /\ col r = v.
Proof.
  unfold top5. rewrite in_map_iff. intros (r & E & Hr).
  inversion E; subst. exists r. split; [|now split].
  apply In_firstn in Hr. unfold sort_values_desc in Hr.
  now apply sort_by_In in Hr.
Qed.

Lemma top5_descending (col : Row -> cell) (t : table) (i j : nat)
      (la lb : string) (a b : cell) :
  i < j ->
  nth_error (top5 col t) i = Some (la, a) ->
  nth_error (top5 col t) j = Some (lb, b) ->
  may_follow a b.
Proof.
  unfold top5. intros Hij Ha Hb.
  rewrite nth_error_map in Ha, Hb.
  destruct (nth_error (firstn 5 (sort_values_desc cell_geb col t)) i) as [ra|] eqn:Ea;
    [|discriminate].
  destruct (nth_error (firstn 5 (sort_values_desc cell_geb col t)) j) as [rb|] eqn:Eb;
    [|discriminate].
  simpl in Ha, Hb. inversion Ha; inversion Hb; subst.
  rewrite nth_error_firstn in Ea, Eb.
  destruct (i <? 5); [|discriminate]. destruct (j <? 5); [|discriminate].
  apply cell_geb_may_follow.
  apply (sorted_nth_error (fun x y => cell_geb (col x) (col y))
           (sort_values_desc cell_geb col t) i j ra rb); trivial.
  apply sort_by_sorted.
  - intros x y. apply cell_geb_total.
  - intros x y z. apply cell_geb_trans.
Qed.

(** C6 (amended: descending, not strictly).  Each of the three top-5
    tables has at most 5 rows; every location in it is a country of
    interest; and it is in descending order of its metric with ties
    allowed and missing values last: of two rows, the later one holds a
    missing value or a value that is at most that of the earlier one. *)
Theorem top5_tables (df : table) (top : list (string * cell)) :
  In top [top_cases (latest_data df); top_deaths (latest_data df);
          top_vax (latest_data df)] ->
  length top <= 5
  /\ (forall l v, In (l, v) top -> In l countries_of_interest)
  /\ (forall i j la lb a b, i < j ->
        nth_error top i = Some (la, a) -> nth_error top j = Some (lb, b) ->
        may_follow a b).
Proof.
  assert (G : forall col, let top := top5 col (latest_data df) in
     length top <= 5
     /\ (forall l v, In (l, v) top -> In l countries_of_interest)
     /\ (forall i j la lb a b, i < j ->
           nth_error top i = Some (la, a) -> nth_error top j = Some (lb, b) ->
           may_follow a b)).
  { intros col top0. split; [apply top5_length|]. split.
    - intros l v H. apply top5_In in H. destruct H as (r & Hr & <- & _).
      now apply latest_data_location in Hr.
    - intros i j la lb a b. apply top5_descending. }
  intros [<-|[<-|[<-|[]]]]; apply G.
Qed.

Lemma top5_tables_witness :
  length (top_cases (latest_data Samples.interleaved)) <= 5
  /\ nth_error (top_cases (latest_data Samples.interleaved)) 0
     = Some ("Kenya"%string, Some 9%Q)
  /\ may_follow (Some 9%Q) (Some 3%Q).
Proof.
  destruct (top5_tables Samples.interleaved
              (top_cases (latest_data Samples.interleaved))
              (or_introl eq_refl)) as (Hlen & _ & Hdesc).
  split; [exact Hlen|]. split; [reflexivity|].
  apply (Hdesc 0 1 "Kenya"%string "India"%string); [lia|reflexivity|reflexivity].
Defined.

(** C6 as stated fails on a tie: two countries with the same latest
    [total_cases] stand one after the other in the table with equal
    values, so the table is not strictly descending. *)
Lemma top_cases_tie_not_strict :
  exists la lb x y,
    nth_error (top_cases (latest_data Samples.tie)) 0 = Some (la, Some x) /\
    nth_error (top_cases (latest_data Samples.tie)) 1 = Some (lb, Some y) /\
    ~ (y < x)%Q.
Proof.
  exists "India"%string, "Kenya"%string, 5%Q, 5%Q.
  split; [reflexivity|]. split; [reflexivity|].
  intros H. vm_compute in H. discriminate.
Qed.

(** *** Vaccination percentage *)

Lemma agree_refl (r : Row) : agree r r.
Proof. now repeat split. Qed.

Lemma agree_pct_row (c : string) (p : Q) (a r : Row) :
  agree a r -> agree a (pct_row c p r).
Proof.
  unfold pct_row. destruct (String.eqb (location r) c); [|trivial].
  destruct r. unfold agree. simpl. trivial.
Qed.

Lemma agree_group_population (c : string) (t t' : table) :
  Forall2 agree t t' ->
  map population (get_group location c t) = map population (get_group location c t').
Proof.
  induction 1 as [|a b t t' (Hl & Hp & _) _ IH]; [reflexivity|].
  unfold get_group in *. simpl. rewrite Hl.
  destruct (String.eqb (location b) c); simpl; [now rewrite Hp, IH|exact IH].
Qed.

Lemma latest_pop_population (c : string) (t : table) :
  latest_pop c t
  = match rev (map population (get_group location c t)) with
    | [] => None
    | p :: _ => Some p
    end.
Proof.
  unfold latest_pop. rewrite <- map_rev.
  now destruct (rev (get_group location c t)).
Qed.

Lemma agree_latest_pop (c : string) (t t' : table) :
  Forall2 agree t t' -> latest_pop c t = latest_pop c t'.
Proof.
  intros H. rewrite !latest_pop_population.
  now rewrite (agree_group_population c t t' H).
Qed.

Lemma agree_pct_country (c : string) (t cur : table) :
  Forall2 agree t cur -> Forall2 agree t (fst (pct_country c cur)).
Proof.
  intros H. unfold pct_country.
  destruct (latest_pop c cur) as [[p|]|]; trivial.
  destruct (negb (Qle_bool p 0)); trivial. simpl.
  induction H as [|a b t cur Hab _ IH]; simpl; constructor; trivial.
  now apply agree_pct_row.
Qed.

(** What one turn of the loop does to the row at [k]. *)
Lemma pct_country_row (c : string) (cur : table) (k : nat) (r : Row) :
  nth_error cur k = Some r ->
  nth_error (fst (pct_country c cur)) k
  = Some match latest_pop c cur with
         | Some (Some p) => if negb (Qle_bool p 0) then pct_row c p r else r
         | _ => r
         end.
Proof.
  intros H. unfold pct_country.
  destruct (latest_pop c cur) as [[p|]|]; trivial.
  destruct (negb (Qle_bool p 0)); trivial.
  simpl. now rewrite nth_error_map, H.
Qed.

Lemma pct_row_other (c : string) (p : Q) (r : Row) :
  location r <> c -> pct_row c p r = r.
Proof.
  intros H. unfold pct_row.
  destruct (String.eqb_spec (location r) c); [contradiction|reflexivity].
Qed.

Lemma pct_row_same (p : Q) (r : Row) :
  pct_row (location r) p r = set_pct_vaccinated (pct_of p r) r.
Proof. unfold pct_row. now rewrite String.eqb_refl. Qed.

(** The loop, row by row: only the turn of the row's own country can
    write to the row, and it does so when the last row of the country
    has a positive population. *)
Lemma pct_loop_row (t0 : table) (cs : list string) :
  NoDup cs ->
  forall (cur : table) (b : bool) (k : nat) (r0 r : Row),
  Forall2 agree t0 cur ->
  nth_error t0 k = Some r0 -> nth_error cur k = Some r ->
  exists r',
    nth_error (fst (pct_loop cs (cur, b))) k = Some r' /\
    (~ In (location r0) cs -> r' = r) /\
    (In (location r0) cs ->
       r' = match latest_pop (location r0) t0 with
            | Some (Some p) =>
                if negb (Qle_bool p 0)
                then set_pct_vaccinated (pct_of p r) r else r
            | _ => r
            end).
Proof.
  induction 1 as [|c cs Hc Hnd IH]; intros cur b k r0 r Hagree H0 Hr.
  - exists r. simpl. split; [exact Hr|]. split; [trivial|intros []].
  - simpl.
    pose proof (pct_country_row c cur k r Hr) as Hstep.
    destruct (IH _ (b || snd (pct_country c cur))%bool k r0 _
                 (agree_pct_country c t0 cur Hagree) H0 Hstep)
      as (r' & Hr' & Hout & Hin).
    exists r'. split; [exact Hr'|].
    assert (Hloc : location r0 = location r).
    { clear - Hagree H0 Hr. revert k H0 Hr.
      induction Hagree as [|a b' t cur' Hab _ IHa]; intros [|k] H0 Hr;
        simpl in *; try discriminate.
      - inversion H0; inversion Hr; subst. apply Hab.
      - now apply (IHa k). }
    rewrite <- (agree_latest_pop c t0 cur Hagree) in Hout, Hin.
    destruct (string_dec (location r0) c) as [E|E].
    + subst c. split; [intros H; elim H; now left|]. intros _.
      rewrite (Hout Hc).
      destruct (latest_pop (location r0) t0) as [[p|]|]; trivial.
      destruct (negb (Qle_bool p 0)); trivial.
      rewrite Hloc. apply pct_row_same.
    + assert (Hsame : match latest_pop c t0 with
                      | Some (Some p) =>
                          if negb (Qle_bool p 0) then pct_row c p r else r
                      | _ => r
                      end = r).
      { destruct (latest_pop c t0) as [[p|]|]; trivial.
        destruct (negb (Qle_bool p 0)); trivial.
        apply pct_row_other. now rewrite <- Hloc. }
      rewrite Hsame in Hout, Hin. split.
      * intros H. apply Hout. intros H'. apply H. now right.
      * intros [H|H]; [now elim E|]. now apply Hin.
Qed.

Lemma Forall2_agree_refl (t : table) : Forall2 agree t t.
Proof. induction t; constructor; trivial. apply agree_refl. Qed.

Lemma countries_of_interest_NoDup : NoDup countries_of_interest.
Proof.
  unfold countries_of_interest.
  repeat (constructor; [simpl; intuition discriminate|]). constructor.
Qed.

(** On a frame that lists the rows of the country by ascending date,
    the last row, whose population [latest_pop] reads, is the row of the
    latest date. *)
Lemma latest_pop_of_latest_date (t : table) (c : string) (p : cell) :
  listed_by_date c t ->
  latest_pop c t = Some p ->
  exists r, In r t /\ location r = c /\ population r = p /\
            forall r', In r' t -> location r' = c -> (date r' <= date r)%Z.
Proof.
  unfold latest_pop, listed_by_date, series. intros Hsorted Hp.
  destruct (rev (get_group location c t)) as [|r rest] eqn:E; [discriminate|].
  injection Hp as <-.
  assert (G : get_group location c t = rev rest ++ [r]).
  { rewrite <- (rev_involutive (get_group location c t)), E. reflexivity. }
  assert (Hr : In r (get_group location c t)).
  { rewrite G. apply in_or_app. right. now left. }
  apply get_group_location in Hr. destruct Hr as [Hloc Hin].
  exists r. split; [exact Hin|]. split; [exact Hloc|]. split; [reflexivity|].
  intros r' Hin' Hloc'.
  assert (Hg : In r' (get_group location c t)).
  { unfold get_group. apply filter_In. split; [exact Hin'|].
    now apply String.eqb_eq. }
  apply In_nth_error in Hg. destruct Hg as [q Hq].
  assert (Hlast : nth_error (get_group location c t) (length (rev rest)) = Some r).
  { rewrite G, nth_error_app2, Nat.sub_diag by lia. reflexivity. }
  assert (Hlen : q < length (get_group location c t))
    by (apply nth_error_Some; congruence).
  rewrite G, length_app in Hlen. simpl in Hlen.
  destruct (Nat.eq_dec q (length (rev rest))) as [->|Hne].
  - rewrite Hlast in Hq. injection Hq as <-. lia.
  - apply Z.lt_le_incl.
    apply (Hsorted q (length (rev rest))); [lia| |];
      rewrite nth_error_map; [now rewrite Hq | now rewrite Hlast].
Qed.

Lemma pct_above_100 (x p : Q) : (0 < p)%Q -> (p < x)%Q -> (100 < x / p * 100)%Q.
Proof.
  intros Hp Hx.
  assert (H1 : (1 < x / p)%Q).
  { apply Qlt_shift_div_l; [exact Hp|]. now rewrite Qmult_1_l. }
  apply (Qmult_lt_compat_r _ _ 100) in H1; [|reflexivity].
  now rewrite Qmult_1_l in H1.
Qed.

(** Commands *)

Lemma Done_inj (s s' : state) : Done s = Done s' -> s = s'.
Proof. intros H. now injection H. Qed.

Lemma andthen_done (c1 c2 : cmd) (s s' : state) :
  (c1 ;; c2) s = Done s' -> exists s1, c1 s = Done s1 /\ c2 s1 = Done s'.
Proof.
  unfold andthen. destruct (c1 s) as [s1|e s1]; [|discriminate].
  intros H. now exists s1.
Qed.

Lemma emit_done (o : output) (s s' : state) :
  emit o s = Done s' ->
  df s' = df s /\ filtered_df s' = filtered_df s /\
  has_pct_vaccinated s' = has_pct_vaccinated s /\
  latest_global_data s' = latest_global_data s /\
  stdout s' = stdout s ++ [o].
Proof.
  unfold emit, modify. intros H. injection H as <-. now repeat split.
Qed.

(** The vaccination cell plots the pivot of the stored column; the
    limits 0 and 100 are a property of the axis of the figure. *)
Lemma vaccination_plot_limits_axis_only (s s' : state) :
  vaccination_analysis s = Done s' ->
  filtered_df s' = fst (with_pct_vaccinated (filtered_df s)) /\
  exists p,
    pivot date location (fun r => of_cell (pct_vaccinated r)) XNaN (filtered_df s')
    = Ok p /\
    In (LinePlot "Percentage of Population Fully Vaccinated" false
                 (Some (0, 100)%Q) p) (stdout s').
Proof.
  unfold vaccination_analysis, with_pivot at 1.
  destruct (pivot date location (fun r => of_cell (people_fully_vaccinated r))
                  XNaN (filtered_df s)) as [p0|e]; [|discriminate].
  intros H.
  apply andthen_done in H. destruct H as (s1 & H1 & H).
  apply andthen_done in H. destruct H as (s2 & H2 & H).
  apply andthen_done in H. destruct H as (s3 & H3 & H4).
  unfold modify in H1. apply Done_inj in H1.
  assert (Hf1 : filtered_df s1 = fst (with_pct_vaccinated (filtered_df s)))
    by (rewrite <- H1; reflexivity).
  destruct (has_pct_vaccinated s1); [|discriminate].
  unfold skip in H2. apply Done_inj in H2. subst s2.
  unfold with_pivot in H3.
  destruct (pivot date location (fun r => of_cell (pct_vaccinated r)) XNaN
                  (filtered_df s1)) as [p|e] eqn:Hp; [|discriminate].
  unfold line_plot in H3. apply emit_done in H3.
  destruct H3 as (_ & Hf3 & _ & _ & Ho3).
  unfold bar_plot in H4. apply emit_done in H4.
  destruct H4 as (_ & Hf4 & _ & _ & Ho4).
  rewrite Hf4, Hf3. split; [exact Hf1|].
  exists p. split; [exact Hp|].
  rewrite Ho4, Ho3, !in_app_iff. left. right. now left.
Qed.

(** [latest_pop] of a country that has a row is the population entry
    of the row of the country that comes last in the frame. *)
Lemma latest_pop_last_row (t : table) (r : Row) :
  In r t ->
  exists p, latest_pop (location r) t = Some p /\
    forall g rl, get_group location (location r) t = g ++ [rl] ->
                 population rl = p.
Proof.
  intros Hr. unfold latest_pop.
  assert (Hg : In r (get_group location (location r) t)).
  { unfold get_group. apply filter_In. split; [exact Hr|].
    apply String.eqb_refl. }
  destruct (rev (get_group location (location r) t)) as [|r1 rest] eqn:E.
  - apply in_rev in Hg. rewrite E in Hg. contradiction.
  - exists (population r1). split; [reflexivity|].
    intros g rl Hsplit. rewrite Hsplit, rev_app_distr in E.
    cbn [rev app] in E. injection E as -> _. reflexivity.
Qed.

(** C7 (amended to row order).  For a row of a country of interest,
    the loop stores in [pct_vaccinated] the value
    [people_fully_vaccinated / latest_pop * 100], where [latest_pop] is
    the population entry of the row of the country that comes last in
    the frame, whenever that entry is present and positive; the stored
    value is not clamped (it exceeds 100 when the count exceeds the
    population), and the cell's figure plots the stored column with only
    its axis limited to 0..100.  When the entry is missing or not
    positive the row's [pct_vaccinated] is left as it was, that is
    undefined in a frame that has no such column yet.  On a frame that
    lists the rows of the country by date, the row that comes last is
    the one of the latest date, and [latest_pop] is its population. *)
Theorem pct_vaccinated_is_unclamped_ratio (t : table) (k : nat) (r : Row) :
  In (location r) countries_of_interest ->
  nth_error t k = Some r ->
  exists r',
    nth_error (fst (with_pct_vaccinated t)) k = Some r' /\
    (forall p, latest_pop (location r) t = Some (Some p) -> (0 < p)%Q ->
       pct_vaccinated r'
       = match people_fully_vaccinated r with
         | Some x => Some (x / p * 100)%Q
         | None => None
         end /\
       (forall x, people_fully_vaccinated r = Some x -> (p < x)%Q ->
          exists v, pct_vaccinated r' = Some v /\ (100 < v)%Q)) /\
    (latest_pop (location r) t = Some None ->
       pct_vaccinated r' = pct_vaccinated r) /\
    (forall p, latest_pop (location r) t = Some (Some p) -> (p <= 0)%Q ->
       pct_vaccinated r' = pct_vaccinated r) /\
    (forall s s', filtered_df s = t -> vaccination_analysis s = Done s' ->
       nth_error (filtered_df s') k = Some r' /\
       exists p,
         pivot date location (fun r => of_cell (pct_vaccinated r)) XNaN
               (filtered_df s') = Ok p /\
         In (LinePlot "Percentage of Population Fully Vaccinated" false
                      (Some (0, 100)%Q) p) (stdout s')) /\
    (exists p, latest_pop (location r) t = Some p /\
       forall g rl, get_group location (location r) t = g ++ [rl] ->
                    population rl = p) /\
    (listed_by_date (location r) t ->
     forall p, latest_pop (location r) t = Some p ->
       exists rl, In rl t /\ location rl = location r /\ population rl = p /\
                  forall r0, In r0 t -> location r0 = location r ->
                             (date r0 <= date rl)%Z).
Proof.
  intros Hc Hr.
  destruct (pct_loop_row t countries_of_interest countries_of_interest_NoDup
              t false k r r (Forall2_agree_refl t) Hr Hr)
    as (r' & Hr' & _ & Hin).
  specialize (Hin Hc). exists r'. split; [exact Hr'|].
  split; [|split; [|split; [|split; [|split]]]].
  - intros p Hp Hpos. rewrite Hp in Hin.
    assert (Hb : negb (Qle_bool p 0) = true).
    { destruct (Qle_bool p 0) eqn:E; [|reflexivity].
      apply Qle_bool_iff in E. exfalso. now apply (Qlt_not_le 0 p). }
    rewrite Hb in Hin. subst r'.
    assert (E : pct_vaccinated (set_pct_vaccinated (pct_of p r) r) = pct_of p r)
      by now destruct r.
    rewrite E. unfold pct_of. split; [reflexivity|].
    intros x Hx Hlt. rewrite Hx. eexists. split; [reflexivity|].
    now apply pct_above_100.
  - intros Hp. rewrite Hp in Hin. now subst r'.
  - intros p Hp Hle. rewrite Hp in Hin.
    apply Qle_bool_iff in Hle. rewrite Hle in Hin. now subst r'.
  - intros s s' <- Hrun.
    destruct (vaccination_plot_limits_axis_only s s' Hrun) as (Hf & p & Hp & Hplot).
    split; [rewrite Hf; exact Hr'|]. exists p. split; [exact Hp|exact Hplot].
  - apply latest_pop_last_row. apply (nth_error_In t k). exact Hr.
  - intros Hby p Hp. exact (latest_pop_of_latest_date t (location r) p Hby Hp).
Qed.

Lemma pct_vaccinated_is_unclamped_ratio_witness :
  exists r',
    nth_error (fst (with_pct_vaccinated Samples.over_vaccinated)) 2 = Some r' /\
    pct_vaccinated r' = Some (150 / 100 * 100)%Q /\
    exists v, pct_vaccinated r' = Some v /\ (100 < v)%Q.
Proof.
  destruct (pct_vaccinated_is_unclamped_ratio Samples.over_vaccinated 2
              (nth 2 Samples.over_vaccinated (Samples.obs "" "" 0))
              ltac:(simpl; tauto) eq_refl)
    as (r' & Hr' & Hpos & _).
  destruct (Hpos 100%Q eq_refl ltac:(reflexivity)) as (Hval & Hbig).
  exists r'. split; [exact Hr'|]. split; [exact Hval|].
  apply (Hbig 150%Q); reflexivity.
Defined.

(** The claim as worded fails on a frame that lists day 2 before
    day 1: the row of the latest date has a population of 200 and 50
    people fully vaccinated, and gets 50 = 50 / 100 * 100, computed with
    the population of day 1, not 25 = 50 / 200 * 100. *)
Lemma pct_vaccinated_not_of_latest_date :
  exists r r' v,
    nth_error Samples.population_day2_first 0 = Some r /\
    In (location r) countries_of_interest /\
    (forall r0, In r0 Samples.population_day2_first ->
                location r0 = location r -> (date r0 <= date r)%Z) /\
    population r = Some 200%Q /\
    people_fully_vaccinated r = Some 50%Q /\
    nth_error (fst (with_pct_vaccinated Samples.population_day2_first)) 0
    = Some r' /\
    pct_vaccinated r' = Some v /\
    (v == 50)%Q /\ ~ (v == 50 / 200 * 100)%Q.
Proof.
  eexists. eexists. eexists.
  split; [reflexivity|]. split; [cbn; tauto|]. split.
  { intros r0 [<-|[<-|[]]] _; cbn; lia. }
  split; [reflexivity|]. split; [reflexivity|].
  split; [vm_compute; reflexivity|]. split; [reflexivity|].
  split; [reflexivity|]. intros H. discriminate H.
Qed.

(** *** Pivot *)

Lemma key_eqb_eq (a b : Z * string) : key_eqb a b = true <-> a = b.
Proof.
  destruct a as [d l], b as [d' l']. unfold key_eqb. simpl.
  rewrite andb_true_iff, Z.eqb_eq, String.eqb_eq.
  split; [intros [-> ->]; reflexivity | intros H; now inversion H].
Qed.

Lemma has_duplicates_false_NoDup (l : list (Z * string)) :
  has_duplicates l = false -> NoDup l.
Proof.
  induction l as [|x l IH]; simpl; [constructor|].
  rewrite orb_false_iff. intros [Hx Hl]. constructor; [|now apply IH].
  intros Hin.
  assert (E : existsb (key_eqb x) l = true).
  { apply existsb_exists. exists x. split; [exact Hin|now apply key_eqb_eq]. }
  congruence.
Qed.

Lemma has_duplicates_repeated (l : list (Z * string)) (i j : nat) (x : Z * string) :
  i < j -> nth_error l i = Some x -> nth_error l j = Some x ->
  has_duplicates l = true.
Proof.
  revert i j; induction l as [|y l IH]; intros i j Hij Hi Hj.
  - now destruct i.
  - destruct j as [|j]; [lia|]. simpl in Hj. simpl. apply orb_true_iff.
    destruct i as [|i].
    + left. simpl in Hi. inversion Hi; subst y.
      apply existsb_exists. exists x. split; [|now apply key_eqb_eq].
      eapply nth_error_In, Hj.
    + right. apply (IH i j); [lia|exact Hi|exact Hj].
Qed.

Lemma index_of_In {A : Type} (eqb : A -> A -> bool) (l : list A) (x : A) :
  (forall a b, eqb a b = true <-> a = b) ->
  In x l -> exists i, index_of eqb x l = Some i /\ nth_error l i = Some x.
Proof.
  intros Heq. induction l as [|y l IH]; intros Hin; [contradiction|].
  simpl. destruct (eqb x y) eqn:E.
  - apply Heq in E. subst y. now exists 0.
  - destruct Hin as [->|Hin].
    + assert (eqb x x = true) by now apply Heq. congruence.
    + destruct (IH Hin) as (i & Hi & Hn). exists (S i).
      rewrite Hi. now split.
Qed.

Section PivotFacts.
Context {V : Type} (values : Row -> V) (na : V).

(** With pairwise different labels, a row is found under its own. *)
Lemma pivot_entry_unique (t : table) (r : Row) :
  NoDup (pivot_keys date location t) -> In r t ->
  pivot_entry date location values na t (date r) (location r) = values r.
Proof.
  unfold pivot_entry.
  induction t as [|r0 t IH]; intros Hnd Hin; [contradiction|].
  simpl in Hnd. inversion Hnd as [|? ? Hnotin Hnd']; subst. simpl.
  destruct (key_eqb (date r0, location r0) (date r, location r)) eqn:E.
  - apply key_eqb_eq in E. destruct Hin as [->|Hin]; [reflexivity|].
    elim Hnotin. rewrite E.
    now apply (in_map (fun r => (date r, location r))).
  - destruct Hin as [->|Hin]; [|now apply IH].
    assert (key_eqb (date r, location r) (date r, location r) = true)
      by now apply key_eqb_eq.
    congruence.
Qed.

Lemma pivot_keys_unique_rows (t : table) (r r' : Row) :
  NoDup (pivot_keys date location t) -> In r t -> In r' t ->
  date r' = date r -> location r' = location r -> r' = r.
Proof.
  induction t as [|r0 t IH]; intros Hnd Hr Hr' Hd Hl; [contradiction|].
  simpl in Hnd. inversion Hnd as [|? ? Hnotin Hnd']; subst.
  assert (Hkey : forall a, In a t -> In (date a, location a)
                                     (pivot_keys date location t))
    by (intros a; apply (in_map (fun r => (date r, location r)))).
  destruct Hr as [->|Hr], Hr' as [->|Hr']; trivial.
  - elim Hnotin. rewrite <- Hd, <- Hl. now apply Hkey.
  - elim Hnotin. rewrite Hd, Hl. now apply Hkey.
  - now apply IH.
Qed.

(** A pair of labels that no row carries finds nothing. *)
Lemma pivot_entry_absent (t : table) (d : Z) (c : string) :
  (forall r, In r t -> ~ (date r = d /\ location r = c)) ->
  pivot_entry date location values na t d c = na.
Proof.
  unfold pivot_entry. intros H.
  destruct (find (fun r => key_eqb (date r, location r) (d, c)) t) as [r|] eqn:E;
    [|reflexivity].
  apply find_some in E. destruct E as [Hin E].
  apply key_eqb_eq in E. injection E as Hd Hc.
  elim (H r Hin). now split.
Qed.

(** The entry under any two labels of the matrix. *)
Lemma pivot_ok_any_loc (t : table) (p : PivotTable V) (d : Z) (c : string) :
  pivot date location values na t = Ok p ->
  In d (map date t) -> In c (map location t) ->
  pt_loc p d c = Some (pivot_entry date location values na t d c).
Proof.
  unfold pivot. destruct (has_duplicates (pivot_keys date location t));
    [discriminate|].
  intros Hp Hd Hc. injection Hp as <-.
  unfold pt_loc. cbn [pt_index pt_columns pt_data].
  destruct (index_of_In Z.eqb (sort_by Z.leb (nodup Z.eq_dec (map date t)))
              d Z.eqb_eq) as (i & Hi & Hni).
  { now apply sort_by_In, nodup_In. }
  destruct (index_of_In String.eqb
              (sort_by String.leb (nodup string_dec (map location t)))
              c String.eqb_eq) as (j & Hj & Hnj).
  { now apply sort_by_In, nodup_In. }
  rewrite Hi, Hj, nth_error_map, Hni. cbn [option_map].
  now rewrite nth_error_map, Hnj.
Qed.

Lemma pivot_ok_loc (t : table) (p : PivotTable V) (r : Row) :
  pivot date location values na t = Ok p -> In r t ->
  NoDup (pivot_keys date location t) /\
  pt_loc p (date r) (location r) = Some (values r).
Proof.
  unfold pivot. destruct (has_duplicates (pivot_keys date location t)) eqn:Hd;
    [discriminate|].
  intros Hp Hin. inversion Hp; subst p; clear Hp.
  apply has_duplicates_false_NoDup in Hd. split; [exact Hd|].
  unfold pt_loc. simpl.
  destruct (index_of_In Z.eqb (sort_by Z.leb (nodup Z.eq_dec (map date t)))
              (date r) Z.eqb_eq) as (i & Hi & Hni).
  { apply sort_by_In, nodup_In. now apply in_map. }
  destruct (index_of_In String.eqb
              (sort_by String.leb (nodup string_dec (map location t)))
              (location r) String.eqb_eq) as (j & Hj & Hnj).
  { apply sort_by_In, nodup_In. now apply in_map. }
  rewrite Hi, Hj, nth_error_map, Hni. simpl.
  rewrite nth_error_map, Hnj. simpl.
  now rewrite pivot_entry_unique.
Qed.
End PivotFacts.


Lemma pivot_repeated_pair {V : Type} (values : Row -> V) (na : V) (t : table)
      (i j : nat) (ri rj : Row) :
  i < j -> nth_error t i = Some ri -> nth_error t j = Some rj ->
  date ri = date rj -> location ri = location rj ->
  pivot date location values na t = Err duplicate_entries.
Proof.
  intros Hij Hi Hj Hd Hl. unfold pivot.
  rewrite (has_duplicates_repeated (pivot_keys date location t) i j
             (date ri, location ri) Hij).
  - reflexivity.
  - unfold pivot_keys. now rewrite nth_error_map, Hi.
  - unfold pivot_keys. now rewrite nth_error_map, Hj, Hd, Hl.
Qed.

Lemma pivot_err_any_values {V W : Type} (v : Row -> V) (w : Row -> W)
      (na : V) (na' : W) (t : table) (e : exn) :
  pivot date location v na t = Err e -> pivot date location w na' t = Err e.
Proof.
  unfold pivot. destruct (has_duplicates (pivot_keys date location t));
    [|discriminate].
  intros H. injection H as <-. reflexivity.
Qed.

(** C10.  A pivot of a frame in which some (date, location) pair occurs
    twice raises "Index contains duplicate entries": so does every pivot
    of the notebook on such a [filtered_df], whatever the column; the
    error is not caught, and the notebook run ends at its first pivot,
    before anything is shown.  When a pivot returns, each row of the
    frame is found in the matrix under its date and location with its
    own value, and it is the only row with that date and location; a
    date and a location of the frame that no row combines hold the
    missing value. *)
Theorem pivot_needs_unique_pairs {V : Type} (values : Row -> V) (na : V) (t : table) :
  (forall i j ri rj, i < j ->
     nth_error t i = Some ri -> nth_error t j = Some rj ->
     date ri = date rj -> location ri = location rj ->
     pivot date location values na t = Err duplicate_entries
     /\ (forall col k s, filtered_df s = t ->
           with_pivot col k s = Raised duplicate_entries s)
     /\ (forall px d, cleaned d = t ->
           exists s, notebook px (loaded d) = Raised duplicate_entries s /\
                     stdout s = []))
  /\ (forall p r, pivot date location values na t = Ok p -> In r t ->
        pt_loc p (date r) (location r) = Some (values r)
        /\ forall r', In r' t -> date r' = date r -> location r' = location r ->
                      r' = r)
  /\ (forall p d c, pivot date location values na t = Ok p ->
        In d (map date t) -> In c (map location t) ->
        (forall r, In r t -> ~ (date r = d /\ location r = c)) ->
        pt_loc p d c = Some na).
Proof.
  split; [|split].
  - intros i j ri rj Hij Hi Hj Hd Hl.
    pose proof (pivot_repeated_pair values na t i j ri rj Hij Hi Hj Hd Hl) as E.
    split; [exact E|].
    assert (W : forall col k s, filtered_df s = t ->
                with_pivot col k s = Raised duplicate_entries s).
    { intros col k s Hs. unfold with_pivot. rewrite Hs.
      now rewrite (pivot_err_any_values values col na XNaN t _ E). }
    split; [exact W|].
    intros px d Hd'. eexists. split.
    + unfold notebook, andthen at 1. unfold data_cleaning, modify.
      unfold andthen at 1. unfold total_cases_over_time.
      rewrite W; [reflexivity|]. simpl. exact Hd'.
    + reflexivity.
  - intros p r Hp Hin.
    destruct (pivot_ok_loc values na t p r Hp Hin) as [Hnd Hloc].
    split; [exact Hloc|].
    intros r' Hr' Hd Hl. now apply (pivot_keys_unique_rows t r r').
  - intros p d c Hp Hd Hc Habsent.
    rewrite (pivot_ok_any_loc values na t p d c Hp Hd Hc).
    now rewrite pivot_entry_absent.
Qed.

Lemma pivot_needs_unique_pairs_witness :
  pivot date location (fun r => of_cell (total_cases r)) XNaN
        (cleaned Samples.reported_twice) = Err duplicate_entries
  /\ (exists s, notebook all_rendered (loaded Samples.reported_twice)
                = Raised duplicate_entries s /\ stdout s = [])
  /\ (forall p,
        pivot date location (fun r => of_cell (total_cases r)) XNaN
              Samples.interleaved = Ok p ->
        pt_loc p 2%Z "Kenya"%string = Some (XFin 5)).
Proof.
  edestruct (proj1 (pivot_needs_unique_pairs
                      (fun r => of_cell (total_cases r)) XNaN
                      (cleaned Samples.reported_twice)) 0 1)
    as (H1 & _ & H3).
  - lia.
  - vm_compute. reflexivity.
  - vm_compute. reflexivity.
  - reflexivity.
  - reflexivity.
  - split; [exact H1|]. split; [exact (H3 all_rendered _ eq_refl)|].
    intros p Hp.
    exact (proj1 (proj1 (proj2 (pivot_needs_unique_pairs
                                  (fun r => of_cell (total_cases r)) XNaN
                                  Samples.interleaved))
                        p (Samples.cases (Some 5%Q) (Samples.obs "Kenya" "KEN" 2))
                        Hp (or_intror (or_intror (or_introl eq_refl))))).
Defined.

(** *** The choropleth maps *)

Lemma NoDup_has_duplicates_false (l : list (Z * string)) :
  NoDup l -> has_duplicates l = false.
Proof.
  induction 1 as [|x l Hx _ IH]; simpl; [reflexivity|].
  rewrite IH, orb_false_r.
  destruct (existsb (key_eqb x) l) eqn:E; [|reflexivity].
  apply existsb_exists in E. destruct E as (y & Hy & E).
  apply key_eqb_eq in E. now subst y.
Qed.

Lemma with_cfr_keys (t : table) :
  pivot_keys date location (with_cfr t) = pivot_keys date location t.
Proof.
  unfold pivot_keys, with_cfr. rewrite map_map. apply map_ext. now intros [].
Qed.

(** Each [try] statement, as a function of the state. *)
Lemma cases_choropleth_run (px : plotly) (s : state) :
  let fig := Choropleth "COVID-19 Total Cases per Million"
               (map (fun r => (iso_code r, of_cell (total_cases_per_million r)))
                    (latest_global_data s)) in
  let report e := [Printed ("Error creating cases choropleth: " ++ exn_msg e);
                   Printed connection_hint] in
  cases_choropleth px s
  = Done (mkState (df s) (filtered_df s) (has_pct_vaccinated s)
                  (latest_global_data s)
                  match cases_map px with
                  | BuildRaises _ => fig_cases s
                  | _ => Some fig
                  end
                  (fig_vax s)
                  (stdout s ++ match cases_map px with
                               | Rendered => [fig]
                               | BuildRaises e | ShowRaises e => report e
                               end)).
Proof.
  unfold cases_choropleth, try_except, choropleth.
  destruct (cases_map px) as [|e|e];
    unfold andthen, raise, emit, modify, set_fig_cases;
    cbn [df filtered_df has_pct_vaccinated latest_global_data fig_cases fig_vax stdout];
    rewrite <- ?app_assoc; reflexivity.
Qed.

Lemma vaccination_choropleth_run (px : plotly) (s : state) :
  let snapshot :=
    map (fun r => set_vaccination_percentage
                    (xmul (truediv (people_fully_vaccinated r) (population r)) 100) r)
        (latest_global_data s) in
  let fig := Choropleth "COVID-19 Vaccination Rates (% of Population)"
               (map (fun r => (iso_code r, vaccination_percentage r)) snapshot) in
  let report e := [Printed ("Error creating vaccination choropleth: " ++ exn_msg e);
                   Printed connection_hint] in
  vaccination_choropleth px s
  = Done (mkState (df s) (filtered_df s) (has_pct_vaccinated s)
                  snapshot
                  (fig_cases s)
                  match vax_map px with
                  | BuildRaises _ => fig_vax s
                  | _ => Some fig
                  end
                  (stdout s ++ match vax_map px with
                               | Rendered => [fig]
                               | BuildRaises e | ShowRaises e => report e
                               end)).
Proof.
  unfold vaccination_choropleth, try_except, choropleth.
  unfold andthen at 1. unfold modify at 1.
  destruct (vax_map px) as [|e|e];
    unfold andthen, raise, emit, modify, set_fig_vax, set_latest_global_data;
    cbn [df filtered_df has_pct_vaccinated latest_global_data fig_cases fig_vax stdout];
    rewrite <- ?app_assoc; reflexivity.
Qed.

Lemma choropleth_maps_done (px : plotly) (s : state) :
  exists s1,
    choropleth_maps px s = Done s1 /\
    df s1 = df s /\ filtered_df s1 = filtered_df s /\
    has_pct_vaccinated s1 = has_pct_vaccinated s /\
    latest_global_data s1 = snapshot_for_maps (df s) /\
    (forall e, failed (cases_map px) e ->
       In (Printed ("Error creating cases choropleth: " ++ exn_msg e)) (stdout s1)) /\
    (forall e, failed (vax_map px) e ->
       In (Printed ("Error creating vaccination choropleth: " ++ exn_msg e))
          (stdout s1)) /\
    (vax_map px = Rendered ->
       In (Choropleth "COVID-19 Vaccination Rates (% of Population)"
             (map (fun r => (iso_code r, vaccination_percentage r))
                  (snapshot_for_maps (df s)))) (stdout s1)).
Proof.
  unfold choropleth_maps, andthen, modify.
  rewrite cases_choropleth_run. cbv zeta. rewrite vaccination_choropleth_run.
  cbv zeta.
  cbn [df filtered_df has_pct_vaccinated latest_global_data fig_cases fig_vax stdout
       set_latest_global_data].
  eexists. split; [reflexivity|].
  cbn [df filtered_df has_pct_vaccinated latest_global_data stdout].
  split; [reflexivity|]. split; [reflexivity|]. split; [reflexivity|].
  split; [reflexivity|]. fold (snapshot_for_maps (df s)).
  unfold failed. split; [|split].
  - intros e [H|H]; rewrite H; rewrite !in_app_iff;
      left; right; cbn [In]; now left.
  - intros e [H|H]; rewrite H; rewrite !in_app_iff; right; cbn [In]; now left.
  - intros H. rewrite H, !in_app_iff. right. cbn [In]. now left.
Qed.

(** C5 fails on the code.  The snapshot behind the two maps is taken
    from [df], not from [country_df]: with a row of "World" in the input,
    whatever Plotly does, "World" is a row of [latest_global_data],
    though it is in the list of aggregates and not in [country_df]. *)
Theorem latest_global_data_keeps_aggregates :
  forall px, exists s,
    choropleth_maps px (loaded Samples.with_world) = Done s /\
    latest_global_data s = snapshot_for_maps Samples.with_world /\
    map location (snapshot_for_maps Samples.with_world)
    = ["Kenya"; "World"]%string /\
    In "World"%string continents /\
    map location (country_df Samples.with_world) = ["Kenya"%string].
Proof.
  intros px.
  destruct (choropleth_maps_done px (loaded Samples.with_world))
    as (s & Hrun & _ & _ & _ & Hsnap & _).
  exists s. split; [exact Hrun|]. split; [exact Hsnap|].
  split; [vm_compute; reflexivity|].
  split; [unfold continents; cbn [In]; now left|].
  vm_compute. reflexivity.
Qed.

(** The two cells after the maps, as functions of the state. *)
Lemma case_fatality_rate_run (x : state) :
  case_fatality_rate x
  = match pivot date location cfr XNaN (with_cfr (filtered_df x)) with
    | Ok p =>
        Done (mkState (df x) (with_cfr (filtered_df x)) (has_pct_vaccinated x)
                      (latest_global_data x) (fig_cases x) (fig_vax x)
                      (stdout x ++
                       [LinePlot "COVID-19 Case Fatality Rate Over Time"
                                 false None p]))
    | Err e => Raised e (set_filtered_df (with_cfr (filtered_df x)) x)
    end.
Proof.
  unfold case_fatality_rate, andthen, modify, with_pivot.
  cbn [filtered_df set_filtered_df].
  destruct (pivot date location cfr XNaN (with_cfr (filtered_df x)));
    reflexivity.
Qed.

Lemma key_insights_run (x : state) :
  key_insights x
  = if has_pct_vaccinated x
    then Done (mkState (df x) (filtered_df x) (has_pct_vaccinated x)
                       (latest_global_data x) (fig_cases x) (fig_vax x)
                       (stdout x ++
                        [Printed "Top 5 Countries by Total Cases:";
                         Displayed (top_cases (latest (filtered_df x)));
                         Printed "\nTop 5 Countries by Total Deaths:";
                         Displayed (top_deaths (latest (filtered_df x)));
                         Printed "\nTop 5 Countries by Vaccination Rate:";
                         Displayed (top_vax (latest (filtered_df x)))]))
    else Raised (Exception "KeyError" "pct_vaccinated") x.
Proof.
  unfold key_insights, andthen at 1.
  destruct (has_pct_vaccinated x) eqn:E; [|reflexivity].
  unfold skip, andthen, emit, modify.
  cbn [df filtered_df has_pct_vaccinated latest_global_data fig_cases fig_vax stdout].
  rewrite E. repeat rewrite <- app_assoc. reflexivity.
Qed.

(** The cells after the maps read [df], [filtered_df] and its columns,
    nothing else. *)
Lemma after_maps_same_data (x y : state) :
  same_data x y -> same_outcome (after_maps x) (after_maps y).
Proof.
  intros (Hdf & Hf & Hp). unfold after_maps, andthen.
  rewrite !case_fatality_rate_run, <- Hf.
  destruct (pivot date location cfr XNaN (with_cfr (filtered_df x))) as [p|e];
    [|reflexivity].
  rewrite !key_insights_run.
  cbn [df filtered_df has_pct_vaccinated latest_global_data fig_cases fig_vax stdout].
  rewrite <- Hp.
  destruct (has_pct_vaccinated x); [|reflexivity].
  now repeat split.
Qed.

(** The cells after the maps run to the end on a frame with pairwise
    different (date, location) pairs and the column [pct_vaccinated]. *)
Lemma after_maps_done (s1 : state) :
  has_pct_vaccinated s1 = true ->
  NoDup (pivot_keys date location (filtered_df s1)) ->
  exists s2 p,
    after_maps s1 = Done s2 /\
    pivot date location cfr XNaN (with_cfr (filtered_df s1)) = Ok p /\
    filtered_df s2 = with_cfr (filtered_df s1) /\
    stdout s2
    = stdout s1 ++
      [LinePlot "COVID-19 Case Fatality Rate Over Time" false None p] ++
      [Printed "Top 5 Countries by Total Cases:";
       Displayed (top_cases (latest (with_cfr (filtered_df s1))));
       Printed "\nTop 5 Countries by Total Deaths:";
       Displayed (top_deaths (latest (with_cfr (filtered_df s1))));
       Printed "\nTop 5 Countries by Vaccination Rate:";
       Displayed (top_vax (latest (with_cfr (filtered_df s1))))].
Proof.
  intros Hpct Hnd.
  assert (Hd : has_duplicates (pivot_keys date location (with_cfr (filtered_df s1)))
               = false)
    by (rewrite with_cfr_keys; now apply NoDup_has_duplicates_false).
  unfold after_maps, andthen. rewrite case_fatality_rate_run.
  unfold pivot at 1 2. rewrite Hd.
  rewrite key_insights_run.
  cbn [df filtered_df has_pct_vaccinated latest_global_data fig_cases fig_vax stdout].
  rewrite Hpct. do 2 eexists. split; [reflexivity|]. split; [reflexivity|].
  cbn [filtered_df stdout]. split; [reflexivity|].
  now rewrite <- app_assoc.
Qed.

(** *** The run up to the maps *)

Lemma with_pivot_done (col : Row -> xcell) (k : PivotTable xcell -> cmd)
      (s s' : state) :
  with_pivot col k s = Done s' ->
  NoDup (pivot_keys date location (filtered_df s)) /\
  exists p, pivot date location col XNaN (filtered_df s) = Ok p /\ k p s = Done s'.
Proof.
  unfold with_pivot.
  destruct (pivot date location col XNaN (filtered_df s)) as [p|e] eqn:E;
    [|discriminate].
  intros H. split; [|now exists p].
  unfold pivot in E.
  destruct (has_duplicates (pivot_keys date location (filtered_df s))) eqn:Hd;
    [discriminate|].
  now apply has_duplicates_false_NoDup.
Qed.

Lemma line_plot_done (title : string) (lg : bool) (yl : option (Q * Q))
      (p : PivotTable xcell) (s s' : state) :
  line_plot title lg yl p s = Done s' -> same_data s' s.
Proof.
  unfold line_plot. intros H. apply emit_done in H.
  destruct H as (H1 & H2 & H3 & _). now repeat split.
Qed.

Lemma same_data_trans (a b c : state) :
  same_data a b -> same_data b c -> same_data a c.
Proof.
  unfold same_data. intros (H1 & H2 & H3) (H4 & H5 & H6).
  repeat split; congruence.
Qed.

Lemma total_cases_over_time_done (s s' : state) :
  total_cases_over_time s = Done s' ->
  same_data s' s /\ NoDup (pivot_keys date location (filtered_df s)).
Proof.
  unfold total_cases_over_time. intros H.
  apply with_pivot_done in H. destruct H as (Hnd & p & _ & H).
  apply andthen_done in H. destruct H as (s1 & H1 & H2).
  apply line_plot_done in H1. apply line_plot_done in H2.
  split; [exact (same_data_trans _ _ _ H2 H1)|exact Hnd].
Qed.

Lemma total_deaths_over_time_done (s s' : state) :
  total_deaths_over_time s = Done s' -> same_data s' s.
Proof.
  unfold total_deaths_over_time. intros H.
  apply with_pivot_done in H. destruct H as (_ & p & _ & H).
  now apply line_plot_done in H.
Qed.

Lemma daily_new_cases_done (s s' : state) :
  daily_new_cases s = Done s' ->
  df s' = df s /\ filtered_df s' = with_new_cases_smoothed (filtered_df s) /\
  has_pct_vaccinated s' = has_pct_vaccinated s.
Proof.
  unfold daily_new_cases. intros H.
  apply andthen_done in H. destruct H as (s1 & H1 & H).
  unfold modify in H1. apply Done_inj in H1. subst s1.
  apply with_pivot_done in H. destruct H as (_ & p & _ & H).
  apply line_plot_done in H. destruct H as (H1 & H2 & H3).
  rewrite H1, H2, H3. now repeat split.
Qed.

Lemma death_rate_analysis_done (s s' : state) :
  death_rate_analysis s = Done s' ->
  df s' = df s /\ filtered_df s' = with_death_rate (filtered_df s) /\
  has_pct_vaccinated s' = has_pct_vaccinated s.
Proof.
  unfold death_rate_analysis. intros H.
  apply andthen_done in H. destruct H as (s1 & H1 & H).
  unfold modify in H1. apply Done_inj in H1. subst s1.
  unfold bar_plot in H. apply emit_done in H.
  destruct H as (H1 & H2 & H3 & _).
  rewrite H1, H2, H3. now repeat split.
Qed.

Lemma vaccination_analysis_done (s s' : state) :
  vaccination_analysis s = Done s' ->
  df s' = df s /\ filtered_df s' = fst (with_pct_vaccinated (filtered_df s)) /\
  has_pct_vaccinated s' = true.
Proof.
  unfold vaccination_analysis. intros H.
  apply with_pivot_done in H. destruct H as (_ & p0 & _ & H).
  apply andthen_done in H. destruct H as (s1 & H1 & H).
  apply andthen_done in H. destruct H as (s2 & H2 & H).
  apply andthen_done in H. destruct H as (s3 & H3 & H4).
  unfold modify in H1. apply Done_inj in H1.
  assert (Hd1 : df s1 = df s) by (rewrite <- H1; reflexivity).
  assert (Hf1 : filtered_df s1 = fst (with_pct_vaccinated (filtered_df s)))
    by (rewrite <- H1; reflexivity).
  destruct (has_pct_vaccinated s1) eqn:Hp1; [|discriminate].
  unfold skip in H2. apply Done_inj in H2. subst s2.
  apply with_pivot_done in H3. destruct H3 as (_ & p & _ & H3).
  apply line_plot_done in H3. destruct H3 as (A1 & A2 & A3).
  unfold bar_plot in H4. apply emit_done in H4.
  destruct H4 as (B1 & B2 & B3 & _).
  rewrite B1, B2, B3, A1, A2, A3. now repeat split.
Qed.

Lemma with_new_cases_smoothed_keys (t : table) :
  pivot_keys date location (with_new_cases_smoothed t) = pivot_keys date location t.
Proof.
  unfold pivot_keys, with_new_cases_smoothed.
  apply (assign_frame set_new_cases_smoothed (fun r => (date r, location r)));
    [now intros v [] | apply transform_length].
Qed.

Lemma with_death_rate_keys (t : table) :
  pivot_keys date location (with_death_rate t) = pivot_keys date location t.
Proof.
  unfold pivot_keys, with_death_rate. rewrite map_map. apply map_ext. now intros [].
Qed.

Lemma pct_country_keys (c : string) (t : table) :
  pivot_keys date location (fst (pct_country c t)) = pivot_keys date location t.
Proof.
  unfold pct_country, pivot_keys.
  destruct (latest_pop c t) as [[p|]|]; try reflexivity.
  destruct (negb (Qle_bool p 0)); [|reflexivity].
  cbn [fst]. rewrite map_map. apply map_ext. intros r. unfold pct_row.
  destruct (String.eqb (location r) c); [now destruct r|reflexivity].
Qed.

Lemma pct_loop_keys (cs : list string) (acc : table * bool) :
  pivot_keys date location (fst (pct_loop cs acc))
  = pivot_keys date location (fst acc).
Proof.
  revert acc; induction cs as [|c cs IH]; intros acc; [reflexivity|].
  unfold pct_loop in *. cbn [fold_left]. rewrite IH. cbn [fst].
  apply pct_country_keys.
Qed.

(** What the cells before the maps leave: the frame of cell 5, with
    pairwise different (date, location) pairs and the column
    [pct_vaccinated]. *)
Lemma up_to_the_maps_done (d : table) (s : state) :
  up_to_the_maps (loaded d) = Done s ->
  df s = d /\
  filtered_df s = fst (with_pct_vaccinated (frame_4_4 d)) /\
  has_pct_vaccinated s = true /\
  NoDup (pivot_keys date location (filtered_df s)).
Proof.
  unfold up_to_the_maps. intros H.
  apply andthen_done in H. destruct H as (s1 & H1 & H).
  apply andthen_done in H. destruct H as (s2 & H2 & H).
  apply andthen_done in H. destruct H as (s3 & H3 & H).
  apply andthen_done in H. destruct H as (s4 & H4 & H).
  apply andthen_done in H. destruct H as (s5 & H5 & H6).
  unfold data_cleaning, modify in H1. apply Done_inj in H1.
  assert (Hd1 : df s1 = d) by (rewrite <- H1; reflexivity).
  assert (Hf1 : filtered_df s1 = cleaned d) by (rewrite <- H1; reflexivity).
  apply total_cases_over_time_done in H2. destruct H2 as ((A1 & A2 & _) & Hnd).
  apply total_deaths_over_time_done in H3. destruct H3 as (B1 & B2 & _).
  apply daily_new_cases_done in H4. destruct H4 as (C1 & C2 & _).
  apply death_rate_analysis_done in H5. destruct H5 as (D1 & D2 & _).
  apply vaccination_analysis_done in H6. destruct H6 as (E1 & E2 & E3).
  assert (Hf5 : filtered_df s5 = frame_4_4 d).
  { unfold frame_4_4. rewrite D2, C2, B2, A2, Hf1. reflexivity. }
  split; [congruence|]. split; [rewrite E2, Hf5; reflexivity|].
  split; [exact E3|].
  rewrite E2. unfold with_pct_vaccinated.
  rewrite pct_loop_keys. cbn [fst].
  rewrite D2, with_death_rate_keys, C2, with_new_cases_smoothed_keys, B2, A2.
  exact Hnd.
Qed.

(** *** Failures of the maps *)

Lemma maps_then_rest (px : plotly) (s : state) :
  exists s1, choropleth_maps px s = Done s1 /\ same_data s1 s /\
             (choropleth_maps px ;; after_maps) s = after_maps s1.
Proof.
  destruct (choropleth_maps_done px s) as (s1 & Hrun & Hdf & Hf & Hpct & _).
  exists s1. split; [exact Hrun|]. split; [now repeat split|].
  unfold andthen at 1. now rewrite Hrun.
Qed.

Lemma same_data_sym (a b : state) : same_data a b -> same_data b a.
Proof. unfold same_data. intros (H1 & H2 & H3). now repeat split. Qed.

(** What the maps did does not change how the rest of the run ends. *)
Lemma maps_then_rest_same_outcome (px px' : plotly) (s : state) :
  same_outcome ((choropleth_maps px ;; after_maps) s)
               ((choropleth_maps px' ;; after_maps) s).
Proof.
  destruct (maps_then_rest px s) as (s1 & _ & H1 & ->).
  destruct (maps_then_rest px' s) as (s2 & _ & H2 & ->).
  apply after_maps_same_data.
  exact (same_data_trans _ _ _ H1 (same_data_sym _ _ H2)).
Qed.

Lemma notebook_split (px : plotly) (s : state) :
  notebook px s = (up_to_the_maps ;; choropleth_maps px ;; after_maps) s.
Proof.
  unfold notebook, up_to_the_maps, andthen.
  destruct (data_cleaning s) as [s1|]; [|reflexivity].
  destruct (total_cases_over_time s1) as [s2|]; [|reflexivity].
  destruct (total_deaths_over_time s2) as [s3|]; [|reflexivity].
  destruct (daily_new_cases s3) as [s4|]; [|reflexivity].
  destruct (death_rate_analysis s4) as [s5|]; reflexivity.
Qed.

Lemma notebook_same_outcome (px px' : plotly) (d : table) :
  same_outcome (notebook px (loaded d)) (notebook px' (loaded d)).
Proof.
  rewrite !notebook_split. unfold andthen at 1 3.
  destruct (up_to_the_maps (loaded d)) as [s|e s]; [|reflexivity].
  apply maps_then_rest_same_outcome.
Qed.

(** C8.  Whatever rendering either map does (it is shown, or building
    it raises, or showing it raises), the cell of the maps ends
    normally: [df], [filtered_df] and its columns are what they were,
    [latest_global_data] is what it is when both maps render, each
    failure is reported by a printed line with the message of the
    exception, and the second map is attempted (and shown if Plotly
    renders it) whatever happened to the first.  The run goes on with
    the cells after the maps and ends as it ends when both maps render,
    and so does the whole notebook on every input; in a run that has
    reached the maps, the cells after them run to the end: the case
    fatality rate is plotted and the three top-5 tables of the latest
    snapshot are shown. *)
Theorem map_failure_never_aborts (px : plotly) (s : state) :
  exists s1,
    choropleth_maps px s = Done s1 /\
    same_data s1 s /\
    latest_global_data s1 = snapshot_for_maps (df s) /\
    (forall e, failed (cases_map px) e ->
       In (Printed ("Error creating cases choropleth: " ++ exn_msg e)) (stdout s1)) /\
    (forall e, failed (vax_map px) e ->
       In (Printed ("Error creating vaccination choropleth: " ++ exn_msg e))
          (stdout s1)) /\
    (vax_map px = Rendered ->
       In (Choropleth "COVID-19 Vaccination Rates (% of Population)"
             (map (fun r => (iso_code r, vaccination_percentage r))
                  (snapshot_for_maps (df s)))) (stdout s1)) /\
    (choropleth_maps px ;; after_maps) s = after_maps s1 /\
    same_outcome ((choropleth_maps px ;; after_maps) s)
                 ((choropleth_maps all_rendered ;; after_maps) s) /\
    (forall d, same_outcome (notebook px (loaded d))
                            (notebook all_rendered (loaded d))) /\
    (forall d, up_to_the_maps (loaded d) = Done s ->
     exists s2 p,
       (choropleth_maps px ;; after_maps) s = Done s2 /\
       filtered_df s2 = frame_8 d /\
       In (LinePlot "COVID-19 Case Fatality Rate Over Time" false None p)
          (stdout s2) /\
       In (Displayed (top_cases (latest_data d))) (stdout s2) /\
       In (Displayed (top_deaths (latest_data d))) (stdout s2) /\
       In (Displayed (top_vax (latest_data d))) (stdout s2)).
Proof.
  destruct (choropleth_maps_done px s)
    as (s1 & Hrun & Hdf & Hf & Hpct & Hsnap & Hc & Hv & Hshown).
  exists s1. split; [exact Hrun|]. split; [now repeat split|].
  split; [exact Hsnap|]. split; [exact Hc|]. split; [exact Hv|].
  split; [exact Hshown|].
  assert (Hseq : (choropleth_maps px ;; after_maps) s = after_maps s1)
    by (unfold andthen at 1; now rewrite Hrun).
  split; [exact Hseq|].
  split; [apply maps_then_rest_same_outcome|].
  split; [intros d; apply notebook_same_outcome|].
  intros d Hd. apply up_to_the_maps_done in Hd.
  destruct Hd as (_ & Hfd & Hp & Hnd).
  rewrite <- Hpct in Hp. rewrite <- Hf in Hnd.
  destruct (after_maps_done s1 Hp Hnd) as (s2 & p & Hdone & _ & Hf2 & Hout).
  exists s2, p. rewrite Hseq. split; [exact Hdone|].
  rewrite Hf in Hf2, Hout. unfold latest_data, frame_8. rewrite <- Hfd.
  split; [exact Hf2|].
  rewrite Hout, !in_app_iff. cbn [In]. tauto.
Qed.

Lemma map_failure_never_aborts_witness :
  (exists s1,
     choropleth_maps Samples.no_network Samples.before_maps = Done s1 /\
     In (Printed ("Error creating cases choropleth: " ++ "no route to host"))
        (stdout s1))
  /\ (exists s2 p,
        (choropleth_maps Samples.no_network ;; after_maps) Samples.before_maps
        = Done s2 /\
        In (LinePlot "COVID-19 Case Fatality Rate Over Time" false None p)
           (stdout s2) /\
        In (Displayed (top_cases (latest_data Samples.two_countries))) (stdout s2)).
Proof.
  destruct (map_failure_never_aborts Samples.no_network Samples.before_maps)
    as (s1 & Hrun & _ & _ & Hc & _ & _ & _ & _ & _ & Hrest).
  split.
  - exists s1. split; [exact Hrun|].
    apply (Hc (Exception "ConnectionError" "no route to host")).
    left. reflexivity.
  - destruct (Hrest Samples.two_countries) as (s2 & p & Hdone & _ & Hplot & Htop & _).
    + vm_compute. reflexivity.
    + exists s2, p. split; [exact Hdone|]. split; [exact Hplot|exact Htop].
Defined.

(* ================================================================= *)
(** ** Part 4. More of the notebook *)

Import Exploring.

(** *** The three frames cut from the loaded one *)

Lemma countries_are_not_aggregates (c : string) :
  In c countries_of_interest -> isin c continents = false.
Proof.
  assert (H : forallb (fun c => negb (isin c continents)) countries_of_interest
              = true) by (vm_compute; reflexivity).
  rewrite forallb_forall in H. intros Hc. specialize (H c Hc).
  now destruct (isin c continents).
Qed.

Lemma filter_filter_implied {A : Type} (f g : A -> bool) (l : list A) :
  (forall x, f x = true -> g x = true) ->
  filter f (filter g l) = filter f l.
Proof.
  intros H. induction l as [|x l IH]; [reflexivity|].
  cbn [filter]. destruct (g x) eqn:G.
  - cbn [filter]. now rewrite IH.
  - rewrite IH. destruct (f x) eqn:F; [|reflexivity].
    rewrite (H x F) in G. discriminate.
Qed.

(** The frame of the countries of interest holds no aggregate: it is the
    same whether it is cut from [df] or from [country_df], each of its
    rows is a row of [country_df], and none is a row of [continent_df]. *)
Theorem filtered_is_country_level (df : table) :
  filtered (country_df df) = filtered df
  /\ (forall r, In r (filtered df) ->
        In r (country_df df) /\ ~ In r (continent_df df))
  /\ continent_df (filtered df) = [].
Proof.
  assert (Himp : forall r : Row,
            isin (location r) countries_of_interest = true ->
            negb (isin (location r) continents) = true).
  { intros r H. apply isin_In in H.
    now rewrite (countries_are_not_aggregates _ H). }
  split; [apply filter_filter_implied, Himp|]. split.
  - intros r Hr. unfold filtered in Hr. apply filter_In in Hr.
    destruct Hr as [Hin Hc]. specialize (Himp r Hc). split.
    + unfold country_df. apply filter_In. now split.
    + unfold continent_df. rewrite filter_In. intros [_ H].
      rewrite H in Himp. discriminate.
  - unfold continent_df, filtered.
    induction df as [|r df IH]; [reflexivity|].
    cbn [filter]. destruct (isin (location r) countries_of_interest) eqn:E;
      [|exact IH].
    cbn [filter]. specialize (Himp r E).
    destruct (isin (location r) continents); [discriminate|exact IH].
Qed.

(** [continent_df] and [country_df] split [df]: together they hold the
    rows of [df], each row in one of them according to its location,
    and in the order of [df]. *)
Theorem continent_and_country_split (df : table) :
  length (continent_df df) + length (country_df df) = length df
  /\ Permutation df (continent_df df ++ country_df df)
  /\ (forall r, In r df ->
        (In (location r) continents -> In r (continent_df df)) /\
        (~ In (location r) continents -> In r (country_df df)))
  /\ (forall r, In r (continent_df df) -> In (location r) continents)
  /\ (forall r, In r (country_df df) -> ~ In (location r) continents).
Proof.
  unfold continent_df, country_df. split; [|split; [|split; [|split]]].
  - induction df as [|r df IH]; [reflexivity|].
    cbn [filter]. destruct (isin (location r) continents); cbn [negb length]; lia.
  - induction df as [|r df IH]; [constructor|].
    cbn [filter]. destruct (isin (location r) continents); cbn [negb app].
    + now constructor.
    + rewrite IH at 1. apply Permutation_middle.
  - intros r Hr. split; intros H; apply filter_In; (split; [exact Hr|]).
    + now apply isin_In.
    + destruct (isin (location r) continents) eqn:E; [|reflexivity].
      apply isin_In in E. contradiction.
  - intros r Hr. apply filter_In in Hr. now apply isin_In.
  - intros r Hr Hc. apply filter_In in Hr. apply isin_In in Hc.
    destruct Hr as [_ Hr]. rewrite Hc in Hr. discriminate.
Qed.

(** *** Cleaning twice, and cleaning one location *)

Lemma ffill_from_twice (xs : list cell) (l : cell) :
  ffill_from l (ffill_from l xs) = ffill_from l xs.
Proof.
  revert l; induction xs as [|x xs IH]; intros l; [reflexivity|].
  cbn [ffill_from]. destruct x as [v|].
  - now rewrite IH.
  - destruct l as [v|]; now rewrite IH.
Qed.

(** A row is its key metrics and the rest. *)
Lemma row_ext (r r' : Row) :
  rest_of_row r = rest_of_row r' ->
  (forall m, get m r = get m r') ->
  r = r'.
Proof.
  destruct r, r'. unfold rest_of_row. cbn. intros H G.
  injection H as -> -> -> -> -> -> -> -> -> ->.
  pose proof (G TotalCases) as G1. pose proof (G NewCases) as G2.
  pose proof (G TotalDeaths) as G3. pose proof (G NewDeaths) as G4.
  pose proof (G TotalVaccinations) as G5. pose proof (G PeopleVaccinated) as G6.
  pose proof (G PeopleFullyVaccinated) as G7.
  cbn in G1, G2, G3, G4, G5, G6, G7. now subst.
Qed.

Lemma location_of_rest (r r' : Row) :
  rest_of_row r = rest_of_row r' -> location r = location r'.
Proof. destruct r, r'. unfold rest_of_row. cbn. intros H. now injection H. Qed.

(** Two frames with the same rest of the rows and, location by
    location, the same series of every key metric are the same frame. *)
Lemma table_ext (t t' : table) :
  map rest_of_row t = map rest_of_row t' ->
  (forall m loc, series (get m) loc t = series (get m) loc t') ->
  t = t'.
Proof.
  revert t'; induction t as [|r t IH]; intros [|r' t'] Hrest Hser;
    try discriminate; [reflexivity|].
  cbn [map] in Hrest.
  pose proof (f_equal (hd (rest_of_row r)) Hrest) as Hr. cbn [hd] in Hr.
  pose proof (f_equal (@tl _) Hrest) as Ht. cbn [tl] in Ht.
  clear Hrest. rename Ht into Hrest.
  pose proof (location_of_rest r r' Hr) as Hloc.
  assert (Hhead : forall m, get m r = get m r').
  { intros m. specialize (Hser m (location r)). unfold series in Hser.
    rewrite (get_group_cons_eq location _ r t eq_refl) in Hser.
    rewrite (get_group_cons_eq location _ r' t' (eq_sym Hloc)) in Hser.
    cbn [map] in Hser. now injection Hser. }
  f_equal; [now apply row_ext|].
  apply IH; [exact Hrest|].
  intros m loc. specialize (Hser m loc). unfold series in *.
  destruct (string_dec (location r) loc) as [E|E].
  - rewrite (get_group_cons_eq location _ r t E) in Hser.
    rewrite (get_group_cons_eq location _ r' t') in Hser by congruence.
    cbn [map] in Hser. now injection Hser.
  - rewrite (get_group_cons_neq location _ r t E) in Hser.
    rewrite (get_group_cons_neq location _ r' t') in Hser by congruence.
    exact Hser.
Qed.

(** Cleaning a cleaned frame changes nothing. *)
Theorem forward_fill_twice (t : table) :
  forward_fill (forward_fill t) = forward_fill t.
Proof.
  apply table_ext.
  - unfold forward_fill. now rewrite !ffill_loop_rest.
  - intros m loc. rewrite !forward_fill_series. apply ffill_from_twice.
Qed.

Lemma get_group_rest (loc : string) (t t' : table) :
  map rest_of_row t = map rest_of_row t' ->
  map rest_of_row (get_group location loc t)
  = map rest_of_row (get_group location loc t').
Proof.
  revert t'; induction t as [|r t IH]; intros [|r' t'] H; try discriminate;
    [reflexivity|].
  cbn [map] in H.
  pose proof (f_equal (hd (rest_of_row r)) H) as Hr. cbn [hd] in Hr.
  pose proof (f_equal (@tl _) H) as Ht. cbn [tl] in Ht.
  pose proof (location_of_rest r r' Hr) as Hloc.
  destruct (string_dec (location r) loc) as [E|E].
  - rewrite (get_group_cons_eq location _ r t E).
    rewrite (get_group_cons_eq location _ r' t') by congruence.
    cbn [map]. now rewrite Hr, (IH t' Ht).
  - rewrite (get_group_cons_neq location _ r t E).
    rewrite (get_group_cons_neq location _ r' t') by congruence.
    exact (IH t' Ht).
Qed.

Lemma get_group_get_group (loc loc' : string) (t : table) :
  get_group location loc (get_group location loc' t)
  = if String.eqb loc loc' then get_group location loc' t else [].
Proof.
  destruct (String.eqb_spec loc loc') as [->|Hne].
  - induction t as [|r t IH]; [reflexivity|].
    destruct (string_dec (location r) loc') as [E|E].
    + rewrite (get_group_cons_eq location _ r t E).
      rewrite (get_group_cons_eq location _ r _ E). now rewrite IH.
    + rewrite (get_group_cons_neq location _ r t E). exact IH.
  - induction t as [|r t IH]; [reflexivity|].
    destruct (string_dec (location r) loc') as [E|E].
    + rewrite (get_group_cons_eq location _ r t E).
      rewrite get_group_cons_neq by congruence. exact IH.
    + rewrite (get_group_cons_neq location _ r t E). exact IH.
Qed.

(** Each location is cleaned on its own: the rows of a location in the
    cleaned frame are what cleaning the rows of that location alone
    gives, whatever the other locations hold. *)
Theorem forward_fill_by_location (t : table) (loc : string) :
  get_group location loc (forward_fill t)
  = forward_fill (get_group location loc t).
Proof.
  apply table_ext.
  - unfold forward_fill at 2. rewrite ffill_loop_rest.
    apply get_group_rest. apply ffill_loop_rest.
  - intros m loc'. rewrite forward_fill_series.
    unfold series. rewrite !get_group_get_group.
    destruct (String.eqb loc' loc); [|reflexivity].
    exact (forward_fill_series m loc t).
Qed.

(** *** The smoothed series is not negative *)

Lemma In_valid (w : list cell) (q : Q) : In q (valid w) <-> In (Some q) w.
Proof.
  induction w as [|[x|] w IH]; cbn [valid In]; [tauto| |].
  - rewrite IH. split; (intros [H|H]; [left|right; exact H]); congruence.
  - rewrite IH. split; [tauto|]. intros [H|H]; [discriminate|exact H].
Qed.

Lemma In_rolling_window (n i : nat) (xs : list cell) (c : cell) :
  In c (rolling_window n i xs) -> In c xs.
Proof.
  unfold rolling_window. intros H.
  apply (In_firstn (S i)). revert H.
  generalize (firstn (S i) xs) as l. generalize (S i - n) as k.
  induction k as [|k IH]; intros [|a l] H; cbn [skipn] in *; trivial.
  right. now apply IH.
Qed.

Lemma Qsum_nonneg (vs : list Q) :
  (forall v, In v vs -> (0 <= v)%Q) -> (0 <= Qsum vs)%Q.
Proof.
  induction vs as [|v vs IH]; intros H.
  - cbn [Qsum fold_right]. lra.
  - cbn [Qsum fold_right]. fold (Qsum vs).
    pose proof (H v (or_introl eq_refl)) as Hv.
    assert (Hs : (0 <= Qsum vs)%Q) by (apply IH; intros x Hx; apply H; now right).
    lra.
Qed.

Lemma window_mean_nonneg (mp : nat) (w : list cell) (y : Q) :
  (forall v, In (Some v) w -> (0 <= v)%Q) ->
  window_mean mp w = Some y -> (0 <= y)%Q.
Proof.
  intros H. unfold window_mean.
  destruct (length (valid w) <? mp); [discriminate|].
  destruct (valid w) as [|v vs] eqn:E; [discriminate|].
  intros Hy. injection Hy as <-.
  set (n := inject_Z _).
  assert (B : (0 <= Qsum (v :: vs))%Q).
  { apply Qsum_nonneg. intros x Hx. apply H, In_valid. now rewrite E. }
  assert (Hn : (0 < n)%Q).
  { unfold n. change 0%Q with (inject_Z 0). rewrite <- Zlt_Qlt. lia. }
  clearbody n. apply Qle_shift_div_l; [exact Hn|].
  rewrite Qmult_0_l. exact B.
Qed.

(** When no recorded [new_cases] of a location is negative, no smoothed
    value of the location is: a mean of numbers that are not negative
    is not negative.  (The statement is on the sign only; it does not
    bound the smoothed value from above.) *)
Theorem smoothed_is_not_negative (t : table) (loc : string) :
  (forall v, In (Some v) (series new_cases loc t) -> (0 <= v)%Q) ->
  forall y, In (Some y) (series new_cases_smoothed loc (with_new_cases_smoothed t)) ->
            (0 <= y)%Q.
Proof.
  intros H y Hy. rewrite with_new_cases_smoothed_series in Hy.
  unfold rolling_mean in Hy. apply in_map_iff in Hy.
  destruct Hy as (i & Hi & _).
  apply (window_mean_nonneg 1 (rolling_window 7 i (series new_cases loc t)));
    [|exact Hi].
  intros v Hv. apply H. exact (In_rolling_window _ _ _ _ Hv).
Qed.

Lemma smoothed_is_not_negative_witness :
  exists y,
    nth_error (series new_cases_smoothed "India"
                      (with_new_cases_smoothed Samples.nine_days)) 8
    = Some (Some y) /\ (0 <= y)%Q.
Proof.
  eexists. split; [vm_compute; reflexivity|].
  apply (smoothed_is_not_negative Samples.nine_days "India").
  - assert (E : series new_cases "India" Samples.nine_days
                = map (fun d => Some (inject_Z (10 * d)))
                      [1; 2; 3; 4; 5; 6; 7; 8; 9]%Z)
      by (vm_compute; reflexivity).
    rewrite E. intros v Hv. cbn [map In] in Hv.
    repeat (destruct Hv as [Hv|Hv];
            [injection Hv as <-; apply Qle_bool_iff; reflexivity|]).
    contradiction.
  - apply (nth_error_In _ 8). vm_compute. reflexivity.
Defined.

(** *** The columns that the cells after the cleaning leave alone *)








Lemma with_new_cases_smoothed_kept (t : table) :
  map kept_columns (with_new_cases_smoothed t) = map kept_columns t.
Proof.
  unfold with_new_cases_smoothed.
  apply (assign_frame set_new_cases_smoothed kept_columns);
    [now intros v [] | apply transform_length].
Qed.

Lemma with_death_rate_kept (t : table) :
  map kept_columns (with_death_rate t) = map kept_columns t.
Proof. unfold with_death_rate. rewrite map_map. apply map_ext. now intros []. Qed.

Lemma with_cfr_kept (t : table) :
  map kept_columns (with_cfr t) = map kept_columns t.
Proof. unfold with_cfr. rewrite map_map. apply map_ext. now intros []. Qed.











(** *** Rates that are percentages *)

(** In a row whose recorded deaths are not negative and not more than
    its recorded cases, with cases above zero, [death_rate] and [cfr]
    are the same finite number, between 0 and 100. *)
Theorem death_rate_is_a_percentage (t : table) (k : nat) (r : Row) (d c : Q) :
  nth_error t k = Some r ->
  total_deaths r = Some d -> total_cases r = Some c ->
  (0 <= d)%Q -> (d <= c)%Q -> (0 < c)%Q ->
  exists r1 r2 q,
    nth_error (with_death_rate t) k = Some r1 /\
    nth_error (with_cfr t) k = Some r2 /\
    death_rate r1 = XFin q /\ cfr r2 = XFin q /\
    (0 <= q)%Q /\ (q <= 100)%Q.
Proof.
  intros H Hd Hc H0 Hle Hpos.
  exists (set_death_rate (deaths_per_100_cases r) r),
         (set_cfr (deaths_per_100_cases r) r), (d / c * 100)%Q.
  split; [unfold with_death_rate; now rewrite nth_error_map, H|].
  split; [unfold with_cfr; now rewrite nth_error_map, H|].
  rewrite death_rate_with_death_rate, cfr_with_cfr.
  assert (E : deaths_per_100_cases r = XFin (d / c * 100)).
  { unfold deaths_per_100_cases, truediv. rewrite Hd, Hc.
    destruct (Qeq_bool c 0) eqn:Z; [|reflexivity].
    apply Qeq_bool_iff in Z. rewrite Z in Hpos. discriminate Hpos. }
  split; [exact E|]. split; [exact E|].
  assert (B0 : (0 <= d / c)%Q)
    by (apply Qle_shift_div_l; [exact Hpos|lra]).
  assert (B1 : (d / c <= 1)%Q)
    by (apply Qle_shift_div_r; [exact Hpos|lra]).
  split; lra.
Qed.

Lemma death_rate_is_a_percentage_witness :
  exists r1 q,
    nth_error (with_death_rate Samples.two_countries) 1 = Some r1 /\
    death_rate r1 = XFin q /\ (0 <= q)%Q /\ (q <= 100)%Q.
Proof.
  destruct (death_rate_is_a_percentage Samples.two_countries 1
              (nth 1 Samples.two_countries (Samples.obs "" "" 0)) 3 150
              eq_refl eq_refl eq_refl)
    as (r1 & _ & q & H1 & _ & H2 & _ & Hb0 & Hb1).
  - apply Qle_bool_iff; reflexivity.
  - apply Qle_bool_iff; reflexivity.
  - reflexivity.
  - exists r1, q. split; [exact H1|]. split; [exact H2|].
    split; [exact Hb0|exact Hb1].
Defined.

(** For a country of interest whose last row has a positive population:
    a row whose [people_fully_vaccinated] is not negative and not above
    that population gets a [pct_vaccinated] between 0 and 100, inside
    the limits of the y-axis of the plot. *)
Theorem pct_vaccinated_within_axis (t : table) (k : nat) (r : Row) (p x : Q) :
  In (location r) countries_of_interest ->
  nth_error t k = Some r ->
  latest_pop (location r) t = Some (Some p) -> (0 < p)%Q ->
  people_fully_vaccinated r = Some x -> (0 <= x)%Q -> (x <= p)%Q ->
  exists r' v,
    nth_error (fst (with_pct_vaccinated t)) k = Some r' /\
    pct_vaccinated r' = Some v /\ (0 <= v)%Q /\ (v <= 100)%Q.
Proof.
  intros Hc Hr Hp Hpos Hx H0 Hle.
  destruct (pct_loop_row t countries_of_interest countries_of_interest_NoDup
              t false k r r (Forall2_agree_refl t) Hr Hr)
    as (r' & Hr' & _ & Hin).
  specialize (Hin Hc). rewrite Hp in Hin.
  assert (Hb : negb (Qle_bool p 0) = true).
  { destruct (Qle_bool p 0) eqn:E; [|reflexivity].
    apply Qle_bool_iff in E. exfalso. now apply (Qlt_not_le 0 p). }
  rewrite Hb in Hin. subst r'.
  exists (set_pct_vaccinated (pct_of p r) r), (x / p * 100)%Q.
  split; [exact Hr'|].
  split; [unfold pct_of; rewrite Hx; now destruct r|].
  assert (B0 : (0 <= x / p)%Q)
    by (apply Qle_shift_div_l; [exact Hpos|lra]).
  assert (B1 : (x / p <= 1)%Q)
    by (apply Qle_shift_div_r; [exact Hpos|lra]).
  split; lra.
Qed.

Lemma pct_vaccinated_within_axis_witness :
  exists r' v,
    nth_error (fst (with_pct_vaccinated Samples.over_vaccinated)) 1 = Some r' /\
    pct_vaccinated r' = Some v /\ (0 <= v)%Q /\ (v <= 100)%Q.
Proof.
  apply (pct_vaccinated_within_axis Samples.over_vaccinated 1
           (nth 1 Samples.over_vaccinated (Samples.obs "" "" 0)) 100 40).
  - cbn. tauto.
  - reflexivity.
  - reflexivity.
  - reflexivity.
  - reflexivity.
  - apply Qle_bool_iff; reflexivity.
  - apply Qle_bool_iff; reflexivity.
Defined.

(** *** When the column [pct_vaccinated] exists, and how the run ends *)

Lemma has_population_b_spec (t : table) :
  has_population_b t = true <-> has_population t.
Proof.
  unfold has_population_b, has_population. rewrite existsb_exists. split.
  - intros (c & Hc & H). destruct (latest_pop c t) as [[p|]|] eqn:E;
      try discriminate.
    exists c, p. split; [exact Hc|]. split; [exact E|].
    apply Qnot_le_lt. intros Hle. apply Qle_bool_iff in Hle.
    rewrite Hle in H. discriminate.
  - intros (c & p & Hc & Hl & Hp). exists c. split; [exact Hc|].
    rewrite Hl. destruct (Qle_bool p 0) eqn:E; [|reflexivity].
    apply Qle_bool_iff in E. exfalso. now apply (Qlt_not_le 0 p).
Qed.

Lemma pct_country_flag (c : string) (cur : table) :
  snd (pct_country c cur)
  = match latest_pop c cur with
    | Some (Some p) => negb (Qle_bool p 0)
    | _ => false
    end.
Proof.
  unfold pct_country. destruct (latest_pop c cur) as [[p|]|]; try reflexivity.
  now destruct (negb (Qle_bool p 0)).
Qed.

Lemma pct_country_unassigned (c : string) (cur : table) :
  snd (pct_country c cur) = false -> fst (pct_country c cur) = cur.
Proof.
  unfold pct_country. destruct (latest_pop c cur) as [[p|]|]; try reflexivity.
  destruct (negb (Qle_bool p 0)); [discriminate|reflexivity].
Qed.

Lemma pct_loop_flag (t : table) (cs : list string) (cur : table) (b : bool) :
  Forall2 agree t cur ->
  snd (pct_loop cs (cur, b))
  = b || existsb (fun c => match latest_pop c t with
                           | Some (Some p) => negb (Qle_bool p 0)
                           | _ => false
                           end) cs.
Proof.
  revert cur b; induction cs as [|c cs IH]; intros cur b Hagree.
  - cbn. now rewrite orb_false_r.
  - unfold pct_loop in *. cbn [fold_left existsb fst snd].
    rewrite (IH _ _ (agree_pct_country c t cur Hagree)).
    rewrite pct_country_flag, <- (agree_latest_pop c t cur Hagree).
    now rewrite orb_assoc.
Qed.

Lemma pct_loop_unassigned (cs : list string) (acc : table * bool) :
  snd (pct_loop cs acc) = false ->
  snd acc = false /\ fst (pct_loop cs acc) = fst acc.
Proof.
  revert acc; induction cs as [|c cs IH]; intros acc H; [now split|].
  unfold pct_loop in *. cbn [fold_left] in *.
  destruct (IH _ H) as [Hb Hf]. cbn [fst snd] in Hb, Hf.
  apply orb_false_iff in Hb. destruct Hb as [Hb Hstep].
  split; [exact Hb|]. rewrite Hf. now apply pct_country_unassigned.
Qed.

Lemma with_pct_vaccinated_flag (t : table) :
  snd (with_pct_vaccinated t) = has_population_b t.
Proof.
  unfold with_pct_vaccinated.
  now rewrite (pct_loop_flag t _ t false (Forall2_agree_refl t)).
Qed.

(** The loop over the countries creates the column [pct_vaccinated]
    exactly when some country of interest has a positive population in
    its last row; when none has, the loop leaves the frame as it was. *)
Theorem pct_vaccinated_column_exists_iff (t : table) :
  (snd (with_pct_vaccinated t) = true <-> has_population t)
  /\ (snd (with_pct_vaccinated t) = false -> fst (with_pct_vaccinated t) = t).
Proof.
  split.
  - rewrite with_pct_vaccinated_flag. apply has_population_b_spec.
  - intros H. apply (pct_loop_unassigned countries_of_interest (t, false) H).
Qed.

Section Projections.
Context {P : Type} (proj : Row -> P) (loc_of : P -> string) (pop_of : P -> cell).
Hypothesis loc_of_proj : forall r, loc_of (proj r) = location r.
Hypothesis pop_of_proj : forall r, pop_of (proj r) = population r.

Lemma get_group_proj (c : string) (t t' : table) :
  map proj t = map proj t' ->
  map proj (get_group location c t) = map proj (get_group location c t').
Proof.
  revert t'; induction t as [|r t IH]; intros [|r' t'] H; try discriminate;
    [reflexivity|].
  cbn [map] in H.
  pose proof (f_equal (hd (proj r)) H) as Hr. cbn [hd] in Hr.
  pose proof (f_equal (@tl _) H) as Ht. cbn [tl] in Ht.
  assert (Hloc : location r = location r')
    by (rewrite <- !loc_of_proj; now rewrite Hr).
  destruct (string_dec (location r) c) as [E|E].
  - rewrite (get_group_cons_eq location _ r t E).
    rewrite (get_group_cons_eq location _ r' t') by congruence.
    cbn [map]. now rewrite Hr, (IH t' Ht).
  - rewrite (get_group_cons_neq location _ r t E).
    rewrite (get_group_cons_neq location _ r' t') by congruence.
    exact (IH t' Ht).
Qed.

End Projections.










(** *** The latest snapshot, in general *)

Lemma StronglySorted_filter {A : Type} (R : A -> A -> Prop) (f : A -> bool)
      (l : list A) :
  StronglySorted R l -> StronglySorted R (filter f l).
Proof.
  induction 1 as [|a l Hs IH Ha]; cbn [filter]; [constructor|].
  destruct (f a); [|exact IH].
  constructor; [exact IH|].
  rewrite Forall_forall in *. intros x Hx. apply filter_In in Hx. now apply Ha.
Qed.

Lemma StronglySorted_app_inv {A : Type} (R : A -> A -> Prop) (l1 l2 : list A) :
  StronglySorted R (l1 ++ l2) ->
  forall a b, In a l1 -> In b l2 -> R a b.
Proof.
  induction l1 as [|x l1 IH]; intros Hs a b Ha Hb; [contradiction|].
  cbn [app] in Hs. apply StronglySorted_inv in Hs. destruct Hs as [Hs Hx].
  destruct Ha as [<-|Ha].
  - rewrite Forall_forall in Hx. apply Hx, in_or_app. now right.
  - now apply IH.
Qed.

Lemma date_leb_total (a b : Row) :
  Z.leb (date a) (date b) = true \/ Z.leb (date b) (date a) = true.
Proof. rewrite !Z.leb_le. lia. Qed.

Lemma date_leb_trans (a b c : Row) :
  Z.leb (date a) (date b) = true -> Z.leb (date b) (date c) = true ->
  Z.leb (date a) (date c) = true.
Proof. rewrite !Z.leb_le. lia. Qed.

Lemma sorted_group (t : table) (k : string) :
  StronglySorted (fun a b => Z.leb (date a) (date b) = true)
                 (get_group location k (sort_by_date t)).
Proof.
  apply StronglySorted_filter.
  exact (sort_by_sorted _ date_leb_total date_leb_trans t).
Qed.

Lemma sort_by_date_In (t : table) (r : Row) : In r (sort_by_date t) <-> In r t.
Proof. apply sort_by_In. Qed.

Lemma group_keys_In (t : table) (k : string) :
  In k (group_keys location t) <-> In k (map location t).
Proof. unfold group_keys. now rewrite sort_by_In, nodup_In. Qed.

Lemma group_keys_NoDup (t : table) : NoDup (group_keys location t).
Proof.
  unfold group_keys.
  apply (Permutation_NoDup (Permutation_sym (sort_by_perm _ _))).
  apply NoDup_nodup.
Qed.

Lemma get_group_In (k : string) (t : table) (r : Row) :
  In r (get_group location k t) <-> In r t /\ location r = k.
Proof.
  unfold get_group. rewrite filter_In. now rewrite String.eqb_eq.
Qed.

(** A row of the snapshot is the fold of [merge_last] over the rows of
    one location, taken in the order of their dates. *)
Lemma latest_In (t : table) (row : Row) :
  In row (latest t) <->
  exists k r0 g,
    In k (map location t) /\
    get_group location k (sort_by_date t) = r0 :: g /\
    row = fold_left merge_last g r0.
Proof.
  unfold latest, groupby_last. rewrite in_flat_map. split.
  - intros (k & Hk & Hin).
    destruct (get_group location k (sort_by_date t)) as [|r0 g] eqn:E;
      [contradiction|].
    destruct Hin as [<-|[]]. exists k, r0, g. split; [|now split].
    apply group_keys_In in Hk. apply in_map_iff in Hk.
    destruct Hk as (r & <- & Hr). apply in_map. now apply sort_by_date_In.
  - intros (k & r0 & g & Hk & E & ->). exists k. split.
    + apply group_keys_In. apply in_map_iff in Hk.
      destruct Hk as (r & <- & Hr). apply in_map. now apply sort_by_date_In.
    + rewrite E. now left.
Qed.

Lemma last_nonempty {A : Type} (x : A) (g : list A) (d d' : A) :
  last (x :: g) d = last (x :: g) d'.
Proof.
  revert x; induction g as [|y g IH]; intros x; [reflexivity|].
  change (last (y :: g) d = last (y :: g) d'). apply IH.
Qed.

Lemma fold_merge_last_proj {B : Type} (f : Row -> B) (g : table) (r0 : Row) :
  (forall a r, f (merge_last a r) = f r) ->
  f (fold_left merge_last g r0) = f (last g r0).
Proof.
  intros Hf. revert r0; induction g as [|r g IH]; intros r0; [reflexivity|].
  cbn [fold_left]. rewrite IH. destruct g as [|r' g]; [apply Hf|].
  f_equal. change (last (r :: r' :: g) r0) with (last (r' :: g) r0).
  apply last_nonempty.
Qed.

Lemma last_In_cons {A : Type} (g : list A) (r0 : A) : In (last g r0) (r0 :: g).
Proof.
  revert r0; induction g as [|r g IH]; intros r0; [now left|].
  right. destruct g as [|r' g]; [now left|].
  change (last (r :: r' :: g) r0) with (last (r' :: g) r0).
  rewrite (last_nonempty r' g r0 r). apply (IH r).
Qed.

Lemma sorted_last {A : Type} (R : A -> A -> Prop) (g : list A) (r0 x : A) :
  StronglySorted R (r0 :: g) -> In x (r0 :: g) -> x = last g r0 \/ R x (last g r0).
Proof.
  revert r0; induction g as [|r g IH]; intros r0 Hs Hx.
  - destruct Hx as [<-|[]]. now left.
  - assert (E : last (r :: g) r0 = last g r).
    { destruct g as [|r' g]; [reflexivity|].
      change (last (r :: r' :: g) r0) with (last (r' :: g) r0).
      apply last_nonempty. }
    rewrite E. apply StronglySorted_inv in Hs. destruct Hs as [Hs Hr0].
    destruct Hx as [<-|Hx].
    + right. rewrite Forall_forall in Hr0. apply Hr0. apply last_In_cons.
    + exact (IH r Hs Hx).
Qed.

Lemma latest_locations (t : table) :
  map location (latest t) = group_keys location (sort_by_date t).
Proof.
  unfold latest, groupby_last.
  assert (H : forall k, In k (group_keys location (sort_by_date t)) ->
                        In k (map location (sort_by_date t)))
    by (intros k; apply group_keys_In).
  induction (group_keys location (sort_by_date t)) as [|k ks IH];
    [reflexivity|].
  cbn [flat_map]. rewrite map_app, IH by (intros k' Hk'; apply H; now right).
  specialize (H k (or_introl eq_refl)). apply in_map_iff in H.
  destruct H as (r & Hloc & Hr).
  destruct (get_group location k (sort_by_date t)) as [|r0 g] eqn:E.
  - exfalso. assert (Hin : In r (get_group location k (sort_by_date t)))
      by (apply get_group_In; now split).
    rewrite E in Hin. contradiction.
  - cbn [map app]. f_equal.
    apply fold_merge_last_location.
    + apply (get_group_In k (sort_by_date t) r0). rewrite E. now left.
    + intros x Hx. apply (get_group_In k (sort_by_date t) x). rewrite E. now right.
Qed.

(** The snapshot has exactly one row for each location of the frame.
    That row carries the label, the ISO code and the date of a row of
    the location, and no row of the location has a later date. *)
Theorem latest_has_one_row_per_location (t : table) :
  NoDup (map location (latest t))
  /\ (forall l, In l (map location (latest t)) <-> In l (map location t))
  /\ (forall row, In row (latest t) ->
        (exists r, In r t /\ location r = location row /\
                   iso_code r = iso_code row /\ date r = date row) /\
        (forall r, In r t -> location r = location row ->
                   (date r <= date row)%Z)).
Proof.
  split; [|split].
  - rewrite latest_locations. apply group_keys_NoDup.
  - intros l. rewrite latest_locations, group_keys_In.
    split; apply Permutation_in, Permutation_map;
      [apply sort_by_perm | apply Permutation_sym, sort_by_perm].
  - intros row Hrow. apply latest_In in Hrow.
    destruct Hrow as (k & r0 & g & _ & E & ->).
    assert (Hlast : In (last g r0) (get_group location k (sort_by_date t)))
      by (rewrite E; apply last_In_cons).
    apply get_group_In in Hlast. destruct Hlast as [Hin Hk].
    apply (proj1 (sort_by_date_In _ _)) in Hin.
    rewrite (fold_merge_last_proj location g r0 (fun _ _ => eq_refl)).
    rewrite (fold_merge_last_proj iso_code g r0 (fun _ _ => eq_refl)).
    rewrite (fold_merge_last_proj date g r0 (fun _ _ => eq_refl)).
    split; [exists (last g r0); split; [exact Hin|]; repeat split; reflexivity|].
    intros r Hr Hloc.
    assert (Hg : In r (r0 :: g)).
    { rewrite <- E. apply get_group_In. split; [now apply sort_by_date_In|].
      congruence. }
    pose proof (sorted_group t k) as Hs. rewrite E in Hs.
    destruct (sorted_last _ g r0 r Hs Hg) as [->|H]; [lia|].
    now apply Z.leb_le.
Qed.

Section LastRecorded.
Context {V : Type} (missing : V -> bool) (col : Row -> V).
Hypothesis col_merge :
  forall a r, col (merge_last a r) = if missing (col r) then col a else col r.

Lemma fold_merge_last_col (g : table) (r0 : Row) :
  (missing (col (fold_left merge_last g r0)) = false ->
     exists l1 r l2, r0 :: g = l1 ++ r :: l2 /\
                     col r = col (fold_left merge_last g r0) /\
                     forall r', In r' l2 -> missing (col r') = true)
  /\ (missing (col (fold_left merge_last g r0)) = true ->
      forall r, In r (r0 :: g) -> missing (col r) = true).
Proof.
  induction g as [|r g IH] using rev_ind.
  - cbn [fold_left]. split.
    + intros _. exists [], r0, []. now repeat split.
    + intros H r [<-|[]]. exact H.
  - rewrite fold_left_app. cbn [fold_left]. rewrite col_merge.
    destruct IH as [IH1 IH2].
    destruct (missing (col r)) eqn:Hr.
    + split.
      * intros Hv. destruct (IH1 Hv) as (l1 & r1 & l2 & E & Hc & Hn).
        exists l1, r1, (l2 ++ [r]). split.
        { rewrite app_comm_cons, E, <- app_assoc. reflexivity. }
        split; [exact Hc|].
        intros r' Hr'. apply in_app_or in Hr'.
        destruct Hr' as [Hr'|[<-|[]]]; [now apply Hn|exact Hr].
      * intros H x Hx. rewrite app_comm_cons in Hx. apply in_app_or in Hx.
        destruct Hx as [Hx|[<-|[]]]; [now apply IH2|exact Hr].
    + split; [|congruence].
      intros _. exists (r0 :: g), r, []. now repeat split.
Qed.

Lemma latest_col (t : table) (row : Row) :
  In row (latest t) ->
  (missing (col row) = false ->
     exists r, In r t /\ location r = location row /\ col r = col row /\
               forall r', In r' t -> location r' = location row ->
                          (date r < date r')%Z -> missing (col r') = true)
  /\ (missing (col row) = true ->
      forall r, In r t -> location r = location row -> missing (col r) = true).
Proof.
  intros Hrow. apply latest_In in Hrow.
  destruct Hrow as (k & r0 & g & _ & E & ->).
  assert (Hloc : location (fold_left merge_last g r0) = k).
  { apply fold_merge_last_location.
    - apply (get_group_In k (sort_by_date t) r0). rewrite E. now left.
    - intros x Hx. apply (get_group_In k (sort_by_date t) x). rewrite E.
      now right. }
  rewrite Hloc.
  assert (Hgroup : forall r, In r t -> location r = k -> In r (r0 :: g)).
  { intros r Hr Hk. rewrite <- E. apply get_group_In.
    split; [now apply sort_by_date_In|exact Hk]. }
  destruct (fold_merge_last_col g r0) as [H1 H2]. split.
  - intros Hv. destruct (H1 Hv) as (l1 & r & l2 & Es & Hc & Hn).
    assert (Hr : In r (get_group location k (sort_by_date t)))
      by (rewrite E, Es; apply in_or_app; right; now left).
    apply get_group_In in Hr. destruct Hr as [Hr Hk].
    exists r. split; [now apply sort_by_date_In|]. split; [exact Hk|].
    split; [exact Hc|].
    intros r' Hr' Hk' Hlt. specialize (Hgroup r' Hr' Hk').
    rewrite Es in Hgroup.
    pose proof (sorted_group t k) as Hs. rewrite E, Es in Hs.
    apply in_app_or in Hgroup. destruct Hgroup as [Hin|[<-|Hin]].
    + assert (Hle : Z.leb (date r') (date r) = true)
        by (apply (StronglySorted_app_inv _ l1 (r :: l2) Hs r' r Hin);
            now left).
      apply Z.leb_le in Hle. lia.
    + lia.
    + now apply Hn.
  - intros Hnone r Hr Hk. apply (H2 Hnone). now apply Hgroup.
Qed.
End LastRecorded.

Lemma keep_last_isnull (a b : cell) :
  keep_last a b = if isnull b then a else b.
Proof. now destruct b. Qed.

Lemma keep_last_x_isna (a b : xcell) :
  keep_last_x a b = if isna_x b then a else b.
Proof. now destruct b. Qed.

(** An entry of a snapshot row is the last value recorded for the
    location in that column, in the float64 columns and in the ratio
    columns alike: it is the entry of some row of the location, and
    every row of the location with a later date has the column missing;
    the snapshot has the column missing only if every row of the
    location has.  (So an entry may come from an earlier day than the
    date of the snapshot row.) *)
Theorem latest_takes_last_recorded_value (t : table) (row : Row) :
  In row (latest t) ->
  (forall col, In col cell_columns ->
     (forall v, col row = Some v ->
        exists r, In r t /\ location r = location row /\ col r = Some v /\
                  forall r', In r' t -> location r' = location row ->
                             (date r < date r')%Z -> col r' = None)
     /\ (col row = None ->
         forall r, In r t -> location r = location row -> col r = None))
  /\ (forall col, In col ratio_columns ->
        (isna_x (col row) = false ->
           exists r, In r t /\ location r = location row /\ col r = col row /\
                     forall r', In r' t -> location r' = location row ->
                                (date r < date r')%Z -> col r' = XNaN)
        /\ (col row = XNaN ->
            forall r, In r t -> location r = location row -> col r = XNaN)).
Proof.
  intros Hrow. split.
  - intros col Hcol.
    assert (Hm : forall a r, col (merge_last a r)
                             = if isnull (col r) then col a else col r).
    { unfold cell_columns in Hcol. cbn [In] in Hcol. intros a r.
      repeat (destruct Hcol as [<-|Hcol]; [apply keep_last_isnull|]).
      contradiction. }
    destruct (latest_col isnull col Hm t row Hrow) as [H1 H2]. split.
    + intros v Hv. destruct H1 as (r & Hr & Hl & Hc & Hn);
        [now rewrite Hv|].
      exists r. split; [exact Hr|]. split; [exact Hl|].
      split; [congruence|].
      intros r' Hr' Hl' Hlt. specialize (Hn r' Hr' Hl' Hlt).
      now destruct (col r').
    + intros Hv r Hr Hl. specialize (H2 ltac:(now rewrite Hv) r Hr Hl).
      now destruct (col r).
  - intros col Hcol.
    assert (Hm : forall a r, col (merge_last a r)
                             = if isna_x (col r) then col a else col r).
    { unfold ratio_columns in Hcol. cbn [In] in Hcol. intros a r.
      repeat (destruct Hcol as [<-|Hcol]; [apply keep_last_x_isna|]).
      contradiction. }
    destruct (latest_col isna_x col Hm t row Hrow) as [H1 H2]. split.
    + intros Hv. destruct (H1 Hv) as (r & Hr & Hl & Hc & Hn).
      exists r. split; [exact Hr|]. split; [exact Hl|]. split; [exact Hc|].
      intros r' Hr' Hl' Hlt. specialize (Hn r' Hr' Hl' Hlt).
      now destruct (col r').
    + intros Hv r Hr Hl. specialize (H2 ltac:(now rewrite Hv) r Hr Hl).
      now destruct (col r).
Qed.

Lemma latest_takes_last_recorded_value_witness :
  exists row r,
    nth_error (latest Samples.population_gap) 0 = Some row /\
    date row = 2%Z /\ population row = Some 53771300%Q /\
    In r Samples.population_gap /\ population r = Some 53771300%Q /\
    (forall r', In r' Samples.population_gap -> location r' = location row ->
                (date r < date r')%Z -> population r' = None).
Proof.
  destruct (latest_takes_last_recorded_value Samples.population_gap
              (nth 0 (latest Samples.population_gap) (Samples.obs "" "" 0)))
    as [H _].
  - apply (nth_error_In _ 0). vm_compute. reflexivity.
  - destruct (H population) as [H1 _];
      [unfold cell_columns; cbn [In]; tauto|].
    destruct (H1 53771300%Q) as (r & Hr & _ & Hp & Hlater);
      [vm_compute; reflexivity|].
    exists (nth 0 (latest Samples.population_gap) (Samples.obs "" "" 0)), r.
    split; [vm_compute; reflexivity|]. split; [vm_compute; reflexivity|].
    split; [vm_compute; reflexivity|]. split; [exact Hr|].
    split; [exact Hp|exact Hlater].
Defined.

(** *** The rankings leave out nothing larger *)

(** A top-5 table is the head of the whole ranking: the rows of the
    snapshot split into the (at most five) rows shown and the rest, and
    no row of the rest has a value above that of a row shown (a missing
    value counts as the lowest).  The table has five rows as soon as the
    snapshot has five. *)
Theorem top5_is_head_of_ranking (col : Row -> cell) (t : table) :
  exists top rest,
    Permutation t (top ++ rest)
    /\ top5 col t = map (fun r => (location r, col r)) top
    /\ length top = Nat.min 5 (length t)
    /\ (forall a b, In a top -> In b rest -> may_follow (col a) (col b)).
Proof.
  exists (firstn 5 (sort_values_desc cell_geb col t)),
         (skipn 5 (sort_values_desc cell_geb col t)).
  split; [|split; [|split]].
  - rewrite firstn_skipn. apply Permutation_sym, sort_by_perm.
  - reflexivity.
  - rewrite length_firstn. unfold sort_values_desc. now rewrite sort_by_length.
  - intros a b Ha Hb. apply cell_geb_may_follow.
    apply (StronglySorted_app_inv (fun x y => cell_geb (col x) (col y) = true)
             (firstn 5 (sort_values_desc cell_geb col t))
             (skipn 5 (sort_values_desc cell_geb col t))); trivial.
    rewrite firstn_skipn. apply sort_by_sorted.
    + intros x y. apply cell_geb_total.
    + intros x y z. apply cell_geb_trans.
Qed.

(** *** The shape of a pivot table *)

Lemma index_of_Some {A : Type} (eqb : A -> A -> bool) (l : list A) (x : A) (i : nat) :
  (forall a b, eqb a b = true <-> a = b) ->
  index_of eqb x l = Some i -> nth_error l i = Some x.
Proof.
  intros Heq. revert i; induction l as [|y l IH]; intros i H; [discriminate|].
  cbn [index_of] in H. destruct (eqb x y) eqn:E.
  - injection H as <-. apply Heq in E. now subst.
  - destruct (index_of eqb x l) as [k|]; [|discriminate].
    injection H as <-. now apply IH.
Qed.

Lemma index_of_None {A : Type} (eqb : A -> A -> bool) (l : list A) (x : A) :
  (forall a b, eqb a b = true <-> a = b) ->
  ~ In x l -> index_of eqb x l = None.
Proof.
  intros Heq Hn. destruct (index_of eqb x l) as [i|] eqn:E; [|reflexivity].
  exfalso. apply Hn. apply (nth_error_In l i).
  now apply (index_of_Some eqb).
Qed.

Lemma Z_leb_total (a b : Z) : Z.leb a b = true \/ Z.leb b a = true.
Proof. rewrite !Z.leb_le. lia. Qed.

Lemma Z_leb_trans (a b c : Z) :
  Z.leb a b = true -> Z.leb b c = true -> Z.leb a c = true.
Proof. rewrite !Z.leb_le. lia. Qed.

(** A pivot that succeeds has one line per date of the frame, in
    strictly ascending order, and one column per location, each once;
    every line has an entry for every column; and a pair of labels has
    no entry exactly when the date or the location does not occur in
    the frame. *)
Theorem pivot_shape {V : Type} (values : Row -> V) (na : V) (t : table)
        (p : PivotTable V) :
  pivot date location values na t = Ok p ->
  NoDup (pt_index p) /\ NoDup (pt_columns p)
  /\ (forall d, In d (pt_index p) <-> In d (map date t))
  /\ (forall c, In c (pt_columns p) <-> In c (map location t))
  /\ (forall i j a b, i < j ->
        nth_error (pt_index p) i = Some a -> nth_error (pt_index p) j = Some b ->
        (a < b)%Z)
  /\ length (pt_data p) = length (pt_index p)
  /\ (forall line, In line (pt_data p) -> length line = length (pt_columns p))
  /\ (forall d c, pt_loc p d c = None <->
                  ~ In d (map date t) \/ ~ In c (map location t)).
Proof.
  intros Hp.
  assert (Hidx : pt_index p = sort_by Z.leb (nodup Z.eq_dec (map date t)) /\
                 pt_columns p
                 = sort_by String.leb (nodup string_dec (map location t)) /\
                 pt_data p
                 = map (fun d => map (fun c => pivot_entry date location values na t d c)
                                     (pt_columns p)) (pt_index p)).
  { unfold pivot in Hp.
    destruct (has_duplicates (pivot_keys date location t)); [discriminate|].
    injection Hp as <-. now repeat split. }
  destruct Hidx as (Hi & Hc & Hd).
  assert (Nidx : NoDup (pt_index p)).
  { rewrite Hi. apply (Permutation_NoDup (Permutation_sym (sort_by_perm _ _))).
    apply NoDup_nodup. }
  assert (Iidx : forall d, In d (pt_index p) <-> In d (map date t))
    by (intros d; now rewrite Hi, sort_by_In, nodup_In).
  assert (Icol : forall c, In c (pt_columns p) <-> In c (map location t))
    by (intros c; now rewrite Hc, sort_by_In, nodup_In).
  split; [exact Nidx|]. split.
  { rewrite Hc. apply (Permutation_NoDup (Permutation_sym (sort_by_perm _ _))).
    apply NoDup_nodup. }
  split; [exact Iidx|]. split; [exact Icol|]. split.
  { intros i j a b Hij Ha Hb.
    assert (Hle : Z.leb a b = true).
    { apply (sorted_nth_error Z.leb (pt_index p) i j a b); trivial.
      rewrite Hi. apply sort_by_sorted; [exact Z_leb_total|exact Z_leb_trans]. }
    apply Z.leb_le in Hle.
    assert (Hne : a <> b).
    { intros ->. rewrite <- Hb in Ha.
      apply (proj1 (NoDup_nth_error (pt_index p)) Nidx) in Ha; [lia|].
      apply nth_error_Some. rewrite Ha, Hb. discriminate. }
    lia. }
  split; [now rewrite Hd, length_map|]. split.
  { intros line Hl. rewrite Hd in Hl. apply in_map_iff in Hl.
    destruct Hl as (d & <- & _). apply length_map. }
  intros d c. split.
  - intros Hnone.
    destruct (in_dec Z.eq_dec d (map date t)) as [Hd1|Hd1]; [|now left].
    destruct (in_dec string_dec c (map location t)) as [Hc1|Hc1]; [|now right].
    rewrite (pivot_ok_any_loc values na t p d c Hp Hd1 Hc1) in Hnone.
    discriminate.
  - intros [Hn|Hn]; unfold pt_loc.
    + rewrite (index_of_None Z.eqb (pt_index p) d Z.eqb_eq); [reflexivity|].
      now rewrite Iidx.
    + rewrite (index_of_None String.eqb (pt_columns p) c String.eqb_eq).
      * now destruct (index_of Z.eqb d (pt_index p)).
      * now rewrite Icol.
Qed.

Lemma pivot_shape_witness :
  exists p,
    pivot date location (fun r => of_cell (total_cases r)) XNaN Samples.interleaved
    = Ok p /\
    pt_index p = [1; 2; 3; 4]%Z /\
    length (pt_data p) = length (pt_index p) /\
    pt_loc p 1%Z "Brazil"%string = None.
Proof.
  eexists. split; [vm_compute; reflexivity|].
  split; [reflexivity|].
  match goal with
  | |- length (pt_data ?p) = _ /\ _ =>
      destruct (pivot_shape (fun r => of_cell (total_cases r)) XNaN
                  Samples.interleaved p) as (_ & _ & _ & _ & _ & Hlen & _ & Hloc)
  end.
  - vm_compute. reflexivity.
  - split; [exact Hlen|]. apply Hloc. right.
    intros H. apply isin_In in H. vm_compute in H. discriminate H.
Defined.

(** *** The report of missing values *)

Lemma StronglySorted_map {A B : Type} (R : A -> A -> Prop) (R' : B -> B -> Prop)
      (f : A -> B) (l : list A) :
  (forall a b, R a b -> R' (f a) (f b)) ->
  StronglySorted R l -> StronglySorted R' (map f l).
Proof.
  intros Hf. induction 1 as [|a l Hs IH Ha]; cbn [map]; constructor; trivial.
  rewrite Forall_forall in *. intros y Hy. apply in_map_iff in Hy.
  destruct Hy as (x & <- & Hx). now apply Hf, Ha.
Qed.

Lemma count_true_le (f : Row -> bool) (t : table) : count_true f t <= length t.
Proof. unfold count_true. apply filter_length_le. Qed.

Lemma count_true_pos (f : Row -> bool) (t : table) :
  0 < count_true f t <-> exists r, In r t /\ f r = true.
Proof.
  unfold count_true. split.
  - destruct (filter f t) as [|r l] eqn:E; cbn [length]; [lia|].
    intros _. exists r. apply filter_In. rewrite E. now left.
  - intros (r & Hr). apply filter_In in Hr.
    destruct (filter f t); [contradiction|cbn [length]; lia].
Qed.

Lemma share_bounds (c n : nat) :
  0 < n -> c <= n ->
  let q := (inject_Z (Z.of_nat c) / inject_Z (Z.of_nat n) * 100)%Q in
  (0 <= q)%Q /\ (q <= 100)%Q /\ (0 < c -> (0 < q)%Q) /\ (c = 0 -> (q == 0)%Q).
Proof.
  intros Hn Hc q.
  assert (Qn : (0 < inject_Z (Z.of_nat n))%Q)
    by (change 0%Q with (inject_Z 0); rewrite <- Zlt_Qlt; lia).
  assert (Qc : (0 <= inject_Z (Z.of_nat c))%Q)
    by (change 0%Q with (inject_Z 0); rewrite <- Zle_Qle; lia).
  assert (Qcn : (inject_Z (Z.of_nat c) <= inject_Z (Z.of_nat n))%Q)
    by (rewrite <- Zle_Qle; lia).
  assert (B0 : (0 <= inject_Z (Z.of_nat c) / inject_Z (Z.of_nat n))%Q)
    by (apply Qle_shift_div_l; [exact Qn|lra]).
  assert (B1 : (inject_Z (Z.of_nat c) / inject_Z (Z.of_nat n) <= 1)%Q)
    by (apply Qle_shift_div_r; [exact Qn|lra]).
  unfold q. split; [lra|]. split; [lra|]. split.
  - intros Hpos.
    assert (Qc' : (0 < inject_Z (Z.of_nat c))%Q)
      by (change 0%Q with (inject_Z 0); rewrite <- Zlt_Qlt; lia).
    assert (B2 : (0 < inject_Z (Z.of_nat c) / inject_Z (Z.of_nat n))%Q)
      by (apply Qlt_shift_div_l; [exact Qn|lra]).
    lra.
  - intros ->. reflexivity.
Qed.

Lemma positive_share (f : Row -> bool) (t : table) :
  positive_entry (times_100 (null_share f t)) = true <-> 0 < count_true f t.
Proof.
  destruct t as [|r0 t]; [cbn; split; [discriminate|lia]|].
  unfold null_share, times_100, positive_entry.
  destruct (share_bounds (count_true f (r0 :: t)) (length (r0 :: t)))
    as (_ & _ & Hpos & Hzero); [cbn [length]; lia|apply count_true_le|].
  split.
  - intros H. destruct (count_true f (r0 :: t)) as [|c] eqn:E; [|lia].
    specialize (Hzero eq_refl).
    assert (Hle : Qle_bool (inject_Z (Z.of_nat 0)
                            / inject_Z (Z.of_nat (length (r0 :: t))) * 100) 0 = true)
      by (apply Qle_bool_iff; rewrite Hzero; apply Qle_refl).
    rewrite Hle in H. discriminate.
  - intros H. specialize (Hpos H).
    destruct (Qle_bool _ 0) eqn:E; [|reflexivity].
    apply Qle_bool_iff in E. exfalso. exact (Qlt_not_le _ _ Hpos E).
Qed.

Lemma times_100_geb (a b : cell) :
  cell_geb a b = true -> cell_geb (times_100 a) (times_100 b) = true.
Proof.
  destruct a as [x|], b as [y|]; cbn; trivial.
  rewrite !Qle_bool_iff. intros H. lra.
Qed.

(** The report lists exactly the columns with a missing entry, each
    with the percentage of the rows in which it is missing (above 0 and
    at most 100), the highest percentage first.  On a frame without rows
    every share is NaN and the report is empty. *)
Theorem missing_values_report (columns : list (string * (Row -> bool))) (t : table) :
  (forall name v, In (name, v) (missing_values_of columns t) ->
     exists f q,
       In (name, f) columns /\ v = Some q /\
       q = (inject_Z (Z.of_nat (count_true f t))
            / inject_Z (Z.of_nat (length t)) * 100)%Q /\
       (0 < q)%Q /\ (q <= 100)%Q /\
       exists r, In r t /\ f r = true)
  /\ (forall name f r, In (name, f) columns -> In r t -> f r = true ->
        In (name, Some (inject_Z (Z.of_nat (count_true f t))
                        / inject_Z (Z.of_nat (length t)) * 100)%Q)
           (missing_values_of columns t))
  /\ (forall i j na nb a b, i < j ->
        nth_error (missing_values_of columns t) i = Some (na, a) ->
        nth_error (missing_values_of columns t) j = Some (nb, b) ->
        may_follow a b)
  /\ missing_values_of columns [] = [].
Proof.
  assert (Hall : forall t name v,
            In (name, v) (missing_values_of columns t) <->
            exists f, In (name, f) columns /\ v = times_100 (null_share f t) /\
                      0 < count_true f t).
  { clear t. intros t name v. unfold missing_values_of.
    rewrite filter_In, in_map_iff. cbn [snd]. split.
    - intros ((nv & E & Hs) & Hpos). apply sort_by_In, in_map_iff in Hs.
      destruct Hs as ((n & f) & <- & Hc). cbn [fst snd] in E.
      injection E as <- <-. exists f. split; [exact Hc|]. split; [reflexivity|].
      now apply positive_share.
    - intros (f & Hc & -> & Hpos). split; [|now apply positive_share].
      exists (name, null_share f t). split; [reflexivity|].
      apply sort_by_In, in_map_iff. now exists (name, f). }
  pose proof (Hall t) as Hin.
  split; [|split; [|split]].
  - intros name v Hv. apply Hin in Hv. destruct Hv as (f & Hc & -> & Hpos).
    destruct t as [|r0 t]; [cbn in Hpos; lia|].
    destruct (share_bounds (count_true f (r0 :: t)) (length (r0 :: t)))
      as (_ & Hle & Hlt & _); [cbn [length]; lia|apply count_true_le|].
    exists f. eexists. split; [exact Hc|]. split; [reflexivity|].
    split; [reflexivity|]. split; [now apply Hlt|]. split; [exact Hle|].
    now apply count_true_pos.
  - intros name f r Hc Hr Hf.
    assert (Hpos : 0 < count_true f t) by (apply count_true_pos; now exists r).
    apply Hin. exists f. split; [exact Hc|]. split; [|exact Hpos].
    destruct t; [contradiction|reflexivity].
  - intros i j na nb a b Hij Ha Hb.
    apply cell_geb_may_follow.
    apply (sorted_nth_error (fun x y : string * cell => cell_geb (snd x) (snd y))
             (missing_values_of columns t) i j (na, a) (nb, b)); trivial.
    unfold missing_values_of. apply StronglySorted_filter.
    apply (StronglySorted_map
             (fun x y : string * cell => cell_geb (snd x) (snd y) = true)).
    + intros x y. cbn [snd]. apply times_100_geb.
    + apply sort_by_sorted.
      * intros x y. apply cell_geb_total.
      * intros x y z. apply cell_geb_trans.
  - destruct (missing_values_of columns []) as [|[n v] l] eqn:E; [reflexivity|].
    assert (Hnv : In (n, v) (missing_values_of columns []))
      by (rewrite E; now left).
    apply Hall in Hnv. destruct Hnv as (f & _ & _ & Hpos).
    cbn in Hpos. lia.
Qed.

(** *** Records per country, and the date range *)

Lemma total_perm (a b : list (string * nat)) :
  Permutation a b -> total a = total b.
Proof.
  induction 1 as [|x a b _ IH|x y a|a b c _ IH1 _ IH2]; cbn [total fold_right] in *;
    unfold total in *; lia.
Qed.

Lemma filter_either_length {A : Type} (f g : A -> bool) (l : list A) :
  (forall x, f x = true -> g x = false) ->
  length (filter (fun x => f x || g x) l)
  = length (filter f l) + length (filter g l).
Proof.
  intros H. induction l as [|x l IH]; [reflexivity|].
  cbn [filter]. destruct (f x) eqn:F.
  - rewrite (H x F). cbn [orb length]. lia.
  - cbn [orb]. destruct (g x); cbn [length]; lia.
Qed.

Lemma total_of_groups (ks : list string) (t : table) :
  NoDup ks ->
  total (map (fun k => (k, length (get_group location k t))) ks)
  = length (filter (fun r => isin (location r) ks) t).
Proof.
  induction 1 as [|k ks Hk Hnd IH].
  - cbn. induction t as [|r t IHt]; [reflexivity|exact IHt].
  - cbn [map total fold_right snd]. fold (total (map (fun k => (k, length (get_group location k t))) ks)).
    rewrite IH. unfold isin. cbn [existsb].
    rewrite (filter_either_length (fun r => String.eqb (location r) k)
               (fun r => existsb (String.eqb (location r)) ks)); [reflexivity|].
    intros r Hr. apply String.eqb_eq in Hr.
    destruct (existsb (String.eqb (location r)) ks) eqn:E; [|reflexivity].
    exfalso. apply Hk. rewrite <- Hr. now apply isin_In.
Qed.

Lemma filter_all {A : Type} (f : A -> bool) (l : list A) :
  (forall x, In x l -> f x = true) -> filter f l = l.
Proof.
  induction l as [|x l IH]; intros H; [reflexivity|].
  cbn [filter]. rewrite (H x (or_introl eq_refl)), IH; [reflexivity|].
  intros y Hy. apply H. now right.
Qed.

(** [value_counts] lists every location of the frame once, with the
    number of its rows (at least one), the largest number first; the
    numbers add up to the number of rows of the frame.  For
    [filtered_df] the locations are countries of interest, so there are
    at most ten lines. *)
Theorem value_counts_report (t : table) :
  NoDup (map fst (value_counts t))
  /\ (forall l n, In (l, n) (value_counts t) <->
        In l (map location t) /\ n = length (get_group location l t))
  /\ (forall l n, In (l, n) (value_counts t) -> 1 <= n)
  /\ total (value_counts t) = length t
  /\ (forall i j la lb a b, i < j ->
        nth_error (value_counts t) i = Some (la, a) ->
        nth_error (value_counts t) j = Some (lb, b) -> b <= a)
  /\ (forall d, t = filtered d ->
        (forall l n, In (l, n) (value_counts t) -> In l countries_of_interest) /\
        length (value_counts t) <= 10).
Proof.
  assert (Hin : forall l n, In (l, n) (value_counts t) <->
            In l (map location t) /\ n = length (get_group location l t)).
  { intros l n. unfold value_counts. rewrite sort_by_In, in_map_iff. split.
    - intros (k & E & Hk). injection E as -> <-.
      apply nodup_In in Hk. now split.
    - intros (Hl & ->). exists l. split; [reflexivity|]. now apply nodup_In. }
  split; [|split; [exact Hin|split; [|split; [|split]]]].
  - unfold value_counts.
    apply (Permutation_NoDup
             (Permutation_map fst (Permutation_sym (sort_by_perm _ _)))).
    rewrite map_map. cbn [fst]. rewrite map_id. apply NoDup_nodup.
  - intros l n H. apply Hin in H. destruct H as (Hl & ->).
    apply in_map_iff in Hl. destruct Hl as (r & Hloc & Hr).
    assert (Hg : In r (get_group location l t)) by (apply get_group_In; now split).
    destruct (get_group location l t); [contradiction|cbn [length]; lia].
  - unfold value_counts. rewrite (total_perm _ _ (sort_by_perm _ _)).
    rewrite total_of_groups by apply NoDup_nodup.
    rewrite filter_all; [reflexivity|].
    intros r Hr. apply isin_In, nodup_In. now apply in_map.
  - intros i j la lb a b Hij Ha Hb.
    apply Nat.leb_le.
    apply (sorted_nth_error (fun x y : string * nat => Nat.leb (snd y) (snd x))
             (value_counts t) i j (la, a) (lb, b)); trivial.
    apply sort_by_sorted.
    + intros x y. rewrite !Nat.leb_le. lia.
    + intros x y z. rewrite !Nat.leb_le. lia.
  - intros d ->.
    assert (Hc : forall l, In l (map location (filtered d)) ->
                           In l countries_of_interest).
    { intros l Hl. apply in_map_iff in Hl. destruct Hl as (r & <- & Hr).
      unfold filtered in Hr. apply filter_In in Hr. now apply isin_In. }
    split.
    + intros l n H. apply Hin in H. now apply Hc.
    + unfold value_counts. rewrite sort_by_length, length_map.
      change 10 with (length countries_of_interest).
      apply NoDup_incl_length; [apply NoDup_nodup|].
      intros l Hl. apply Hc. now apply nodup_In in Hl.
Qed.

Lemma fold_min_spec (t : table) (m0 : Z) :
  let m := fold_left (fun m r => Z.min m (date r)) t m0 in
  (m <= m0)%Z /\ (forall r, In r t -> (m <= date r)%Z) /\
  (m = m0 \/ In m (map date t)).
Proof.
  revert m0; induction t as [|r t IH]; intros m0; cbn [fold_left map In].
  - split; [lia|]. split; [contradiction|now left].
  - destruct (IH (Z.min m0 (date r))) as (H1 & H2 & H3).
    split; [lia|]. split.
    + intros x [<-|Hx]; [lia|now apply H2].
    + destruct H3 as [H3|H3]; [|right; now right].
      destruct (Z.min_spec m0 (date r)) as [[_ E]|[_ E]].
      * left. exact (eq_trans H3 E).
      * right. left. symmetry. exact (eq_trans H3 E).
Qed.

Lemma fold_max_spec (t : table) (m0 : Z) :
  let m := fold_left (fun m r => Z.max m (date r)) t m0 in
  (m0 <= m)%Z /\ (forall r, In r t -> (date r <= m)%Z) /\
  (m = m0 \/ In m (map date t)).
Proof.
  revert m0; induction t as [|r t IH]; intros m0; cbn [fold_left map In].
  - split; [lia|]. split; [contradiction|now left].
  - destruct (IH (Z.max m0 (date r))) as (H1 & H2 & H3).
    split; [lia|]. split.
    + intros x [<-|Hx]; [lia|now apply H2].
    + destruct H3 as [H3|H3]; [|right; now right].
      destruct (Z.max_spec m0 (date r)) as [[_ E]|[_ E]].
      * right. left. symmetry. exact (eq_trans H3 E).
      * left. exact (eq_trans H3 E).
Qed.

(** The printed date range is tight: both ends are dates of rows of the
    frame, and the date of every row lies between them. *)
Theorem date_range_is_tight (t : table) (lo hi : Z) :
  date_min t = Some lo -> date_max t = Some hi ->
  In lo (map date t) /\ In hi (map date t)
  /\ (forall r, In r t -> (lo <= date r)%Z /\ (date r <= hi)%Z).
Proof.
  destruct t as [|r0 t]; [discriminate|].
  cbn [date_min date_max]. intros Hlo Hhi.
  injection Hlo as <-. injection Hhi as <-.
  destruct (fold_min_spec t (date r0)) as (A1 & A2 & A3).
  destruct (fold_max_spec t (date r0)) as (B1 & B2 & B3).
  cbn [map In]. split; [|split].
  - destruct A3 as [A3|A3]; [left; now symmetry|now right].
  - destruct B3 as [B3|B3]; [left; now symmetry|now right].
  - intros r [<-|Hr]; split; trivial; [now apply A2|now apply B2].
Qed.

Lemma date_range_is_tight_witness :
  In 1%Z (map date Samples.interleaved) /\ In 4%Z (map date Samples.interleaved)
  /\ (forall r, In r Samples.interleaved -> (1 <= date r)%Z /\ (date r <= 4)%Z).
Proof.
  apply (date_range_is_tight Samples.interleaved 1 4); reflexivity.
Defined.

(** *** When cleaning changes nothing *)

Lemma ffill_from_some_fixed (v : Q) (xs : list cell) :
  ffill_from (Some v) xs = xs <-> forall q, nth_error xs q <> Some None.
Proof.
  revert v; induction xs as [|x xs IH]; intros v.
  - split; [intros _ [|q]; discriminate|reflexivity].
  - cbn [ffill_from]. destruct x as [w|].
    + split.
      * intros H. assert (Hxs : ffill_from (Some w) xs = xs) by congruence.
        intros [|q]; [discriminate|]. cbn [nth_error].
        exact (proj1 (IH w) Hxs q).
      * intros H. f_equal. apply IH. intros q. exact (H (S q)).
    + split; [discriminate|]. intros H. elim (H 0). reflexivity.
Qed.

Lemma ffill_fixed (xs : list cell) :
  ffill xs = xs <->
  forall p q, p < q -> nth_error xs q = Some None -> nth_error xs p = Some None.
Proof.
  unfold ffill. induction xs as [|x xs IH].
  - split; [intros _ p [|q]; discriminate|reflexivity].
  - cbn [ffill_from]. destruct x as [v|].
    + split.
      * intros H. assert (Hxs : ffill_from (Some v) xs = xs) by congruence.
        pose proof (proj1 (ffill_from_some_fixed v xs) Hxs) as Hn.
        intros p [|q] Hpq Hq; [lia|]. elim (Hn q). exact Hq.
      * intros H. f_equal. apply ffill_from_some_fixed.
        intros q Hq. specialize (H 0 (S q) (Nat.lt_0_succ q) Hq). discriminate.
    + split.
      * intros H. assert (Hxs : ffill_from None xs = xs) by congruence.
        intros [|p] [|q] Hpq Hq; try lia; [reflexivity|].
        cbn [nth_error] in *. apply (proj1 IH Hxs p q); [lia|exact Hq].
      * intros H. f_equal. apply IH. intros p q Hpq Hq.
        apply (H (S p) (S q)); [lia|exact Hq].
Qed.

(** The cleaning loop changes nothing exactly when, for every location
    and every key metric, no missing entry comes after a recorded one in
    the rows of the location: the only gaps it leaves are those at the
    start of a location. *)
Theorem forward_fill_changes_nothing_iff (t : table) :
  forward_fill t = t <->
  forall m loc p q, p < q ->
    nth_error (series (get m) loc t) q = Some None ->
    nth_error (series (get m) loc t) p = Some None.
Proof.
  split.
  - intros H m loc. apply ffill_fixed.
    rewrite <- forward_fill_series. now rewrite H.
  - intros H. apply table_ext.
    + apply ffill_loop_rest.
    + intros m loc. rewrite forward_fill_series. apply ffill_fixed, H.
Qed.

(** *** Bar charts *)

Lemma xcell_geb_total (a b : xcell) : xcell_geb a b = true \/ xcell_geb b a = true.
Proof.
  destruct a as [|[|]|x], b as [|[|]|y]; cbn; auto.
  destruct (Qle_bool y x) eqn:E; [now left|right].
  apply Qle_bool_iff. apply Qlt_le_weak, Qnot_le_lt.
  intros H. apply Qle_bool_iff in H. congruence.
Qed.

Lemma xcell_geb_trans (a b c : xcell) :
  xcell_geb a b = true -> xcell_geb b c = true -> xcell_geb a c = true.
Proof.
  destruct a as [|[|]|x], b as [|[|]|y], c as [|[|]|z]; cbn; trivial;
    try discriminate.
  rewrite !Qle_bool_iff. intros H1 H2. now apply (Qle_trans z y x).
Qed.

Lemma xcell_geb_may_follow (a b : xcell) :
  xcell_geb a b = true -> may_follow_x a b.
Proof.
  destruct a as [|[|]|x], b as [|[|]|y]; cbn; trivial; try discriminate.
  now rewrite Qle_bool_iff.
Qed.

Lemma latest_locations_NoDup (t : table) : NoDup (map location (latest t)).
Proof. rewrite latest_locations. apply group_keys_NoDup. Qed.

Lemma latest_locations_In (t : table) (l : string) :
  In l (map location (latest t)) <-> In l (map location t).
Proof.
  rewrite latest_locations, group_keys_In.
  split; apply Permutation_in, Permutation_map;
    [apply sort_by_perm | apply Permutation_sym, sort_by_perm].
Qed.

(** A bar chart of a snapshot never fails and changes no data.  It has
    one bar for each location of the frame the snapshot was taken from;
    the bars are the rows of the snapshot in descending order of the
    plotted column: rows without a value last, and before them from
    plus infinity down to minus infinity. *)
Theorem bar_chart_ranks_the_snapshot (title : string) (col : Row -> xcell)
        (t : table) (s : state) :
  exists bars s',
    bar_plot title col (latest t) s = Done s'
    /\ stdout s' = stdout s ++ [BarPlot title bars]
    /\ same_data s' s
    /\ Permutation bars (map (fun r => (location r, col r)) (latest t))
    /\ NoDup (map fst bars)
    /\ (forall l, In l (map fst bars) <-> In l (map location t))
    /\ (forall i j la lb a b, i < j ->
          nth_error bars i = Some (la, a) -> nth_error bars j = Some (lb, b) ->
          may_follow_x a b).
Proof.
  exists (map (fun r => (location r, col r))
              (sort_values_desc xcell_geb col (latest t))).
  eexists. split; [reflexivity|]. cbn [stdout]. split; [reflexivity|].
  split; [now repeat split|].
  assert (Hperm : Permutation (sort_values_desc xcell_geb col (latest t)) (latest t))
    by apply sort_by_perm.
  assert (Hloc : Permutation
            (map fst (map (fun r => (location r, col r))
                          (sort_values_desc xcell_geb col (latest t))))
            (map location (latest t))).
  { rewrite map_map. cbn [fst]. now apply Permutation_map. }
  split; [now apply Permutation_map|]. split; [|split].
  - apply (Permutation_NoDup (Permutation_sym Hloc)), latest_locations_NoDup.
  - intros l. rewrite <- latest_locations_In.
    split; apply Permutation_in; [exact Hloc|exact (Permutation_sym Hloc)].
  - intros i j la lb a b Hij Ha Hb. rewrite nth_error_map in Ha, Hb.
    destruct (nth_error (sort_values_desc xcell_geb col (latest t)) i)
      as [ra|] eqn:Ea; [|discriminate].
    destruct (nth_error (sort_values_desc xcell_geb col (latest t)) j)
      as [rb|] eqn:Eb; [|discriminate].
    cbn [option_map] in Ha, Hb. injection Ha as _ <-. injection Hb as _ <-.
    apply xcell_geb_may_follow.
    apply (sorted_nth_error (fun x y => xcell_geb (col x) (col y))
             (sort_values_desc xcell_geb col (latest t)) i j ra rb); trivial.
    apply sort_by_sorted.
    + intros x y. apply xcell_geb_total.
    + intros x y z. apply xcell_geb_trans.
Qed.

(** *** The maps are built from every location of the dataset *)

(** The two figures as the cell builds them from [df]. *)
Lemma choropleth_maps_figures (px : plotly) (s : state) :
  exists s1,
    choropleth_maps px s = Done s1 /\
    fig_cases s1
    = match cases_map px with
      | BuildRaises _ => fig_cases s
      | _ => Some (Choropleth "COVID-19 Total Cases per Million"
                     (map (fun r => (iso_code r, of_cell (total_cases_per_million r)))
                          (latest (df s))))
      end /\
    fig_vax s1
    = match vax_map px with
      | BuildRaises _ => fig_vax s
      | _ => Some (Choropleth "COVID-19 Vaccination Rates (% of Population)"
                     (map (fun r => (iso_code r, vaccination_percentage r))
                          (snapshot_for_maps (df s))))
      end /\
    (cases_map px = Rendered ->
       In (Choropleth "COVID-19 Total Cases per Million"
             (map (fun r => (iso_code r, of_cell (total_cases_per_million r)))
                  (latest (df s)))) (stdout s1)) /\
    (vax_map px = Rendered ->
       In (Choropleth "COVID-19 Vaccination Rates (% of Population)"
             (map (fun r => (iso_code r, vaccination_percentage r))
                  (snapshot_for_maps (df s)))) (stdout s1)).
Proof.
  unfold choropleth_maps, andthen, modify.
  rewrite cases_choropleth_run. cbv zeta. rewrite vaccination_choropleth_run.
  cbv zeta.
  cbn [df filtered_df has_pct_vaccinated latest_global_data fig_cases fig_vax stdout
       set_latest_global_data].
  eexists. split; [reflexivity|].
  cbn [fig_cases fig_vax stdout]. fold (snapshot_for_maps (df s)).
  split; [reflexivity|]. split; [reflexivity|]. split.
  - intros H. rewrite H, !in_app_iff. left. right. cbn [In]. now left.
  - intros H. rewrite H, !in_app_iff. right. cbn [In]. now left.
Qed.

(** Whatever Plotly does, the cell of the maps ends normally, and the
    data it hands to [px.choropleth] come from every location of the
    loaded frame: each figure that is built holds one entry for each row
    of a snapshot of the whole of [df], and that snapshot has a row for
    every location of [df], each once, the aggregates of [continents]
    among them, since nothing filters them out; a figure that Plotly
    renders is shown with these data.  (Which of the entries Plotly
    draws as a region is Plotly's matter.) *)
Theorem maps_are_given_every_location (px : plotly) (s : state) :
  exists s1 cases_data vax_data,
    choropleth_maps px s = Done s1
    /\ cases_data
       = map (fun r => (iso_code r, of_cell (total_cases_per_million r)))
             (latest (df s))
    /\ vax_data
       = map (fun r => (iso_code r, vaccination_percentage r))
             (snapshot_for_maps (df s))
    /\ ((forall e, cases_map px <> BuildRaises e) ->
        fig_cases s1
        = Some (Choropleth "COVID-19 Total Cases per Million" cases_data))
    /\ ((forall e, vax_map px <> BuildRaises e) ->
        fig_vax s1
        = Some (Choropleth "COVID-19 Vaccination Rates (% of Population)" vax_data))
    /\ (cases_map px = Rendered ->
        In (Choropleth "COVID-19 Total Cases per Million" cases_data) (stdout s1))
    /\ (vax_map px = Rendered ->
        In (Choropleth "COVID-19 Vaccination Rates (% of Population)" vax_data)
           (stdout s1))
    /\ NoDup (map location (latest (df s)))
    /\ length cases_data = length (latest (df s))
    /\ length vax_data = length (latest (df s))
    /\ (forall l, In l (map location (df s)) ->
          exists row x,
            In row (latest (df s)) /\ location row = l /\
            In (iso_code row, of_cell (total_cases_per_million row)) cases_data /\
            In (iso_code row, x) vax_data).
Proof.
  destruct (choropleth_maps_figures px s) as (s1 & Hrun & Hc & Hv & Sc & Sv).
  exists s1. do 2 eexists. split; [exact Hrun|].
  split; [reflexivity|]. split; [reflexivity|]. split.
  { intros Hb. rewrite Hc. destruct (cases_map px) as [|e|e]; trivial.
    elim (Hb e). reflexivity. }
  split.
  { intros Hb. rewrite Hv. destruct (vax_map px) as [|e|e]; trivial.
    elim (Hb e). reflexivity. }
  split; [exact Sc|]. split; [exact Sv|].
  split; [apply latest_locations_NoDup|].
  split; [apply length_map|].
  split; [unfold snapshot_for_maps; now rewrite !length_map|].
  intros l Hl. apply latest_locations_In, in_map_iff in Hl.
  destruct Hl as (row & Hloc & Hrow).
  exists row. eexists. split; [exact Hrow|]. split; [exact Hloc|]. split.
  - apply (in_map (fun r => (iso_code r, of_cell (total_cases_per_million r)))
                  _ row Hrow).
  - unfold snapshot_for_maps. rewrite map_map.
    apply in_map_iff. exists row. split; [|exact Hrow].
    destruct row; reflexivity.
Qed.

(** *** The case fatality rate repeats the death rate *)

Lemma pct_country_frame {B : Type} (g : Row -> B) (c : string) (t : table) :
  (forall v r, g (set_pct_vaccinated v r) = g r) ->
  map g (fst (pct_country c t)) = map g t.
Proof.
  intros Hg. unfold pct_country.
  destruct (latest_pop c t) as [[p|]|]; try reflexivity.
  destruct (negb (Qle_bool p 0)); [|reflexivity].
  cbn [fst]. rewrite map_map. apply map_ext. intros r. unfold pct_row.
  destruct (String.eqb (location r) c); [apply Hg|reflexivity].
Qed.

Lemma pct_loop_frame {B : Type} (g : Row -> B) (cs : list string)
      (acc : table * bool) :
  (forall v r, g (set_pct_vaccinated v r) = g r) ->
  map g (fst (pct_loop cs acc)) = map g (fst acc).
Proof.
  intros Hg. revert acc; induction cs as [|c cs IH]; intros acc; [reflexivity|].
  unfold pct_loop in *. cbn [fold_left]. rewrite IH. cbn [fst].
  now apply pct_country_frame.
Qed.

Lemma fold_merge_last_same_ratio (g : table) (r0 : Row) :
  cfr r0 = death_rate r0 -> (forall r, In r g -> cfr r = death_rate r) ->
  cfr (fold_left merge_last g r0) = death_rate (fold_left merge_last g r0).
Proof.
  revert r0; induction g as [|r g IH]; intros r0 H0 Hg; [exact H0|].
  cbn [fold_left]. apply IH.
  - cbn [merge_last cfr death_rate]. now rewrite H0, (Hg r (or_introl eq_refl)).
  - intros x Hx. apply Hg. now right.
Qed.

Lemma death_rate_set_cfr (v : xcell) (r : Row) :
  death_rate (set_cfr v r) = death_rate r.
Proof. now destruct r. Qed.

Lemma ratio_set_pct_vaccinated (v : cell) (r : Row) :
  (deaths_per_100_cases (set_pct_vaccinated v r),
   death_rate (set_pct_vaccinated v r))
  = (deaths_per_100_cases r, death_rate r).
Proof. now destruct r. Qed.

Lemma deaths_per_100_cases_set_death_rate (v : xcell) (r : Row) :
  deaths_per_100_cases (set_death_rate v r) = deaths_per_100_cases r.
Proof. now destruct r. Qed.

Lemma with_pct_vaccinated_frame {B : Type} (g : Row -> B) (t : table) :
  (forall v r, g (set_pct_vaccinated v r) = g r) ->
  map g (fst (with_pct_vaccinated t)) = map g t.
Proof. intros Hg. exact (pct_loop_frame g countries_of_interest (t, false) Hg). Qed.

Lemma with_death_rate_same_ratio (t : table) (x : xcell * xcell) :
  In x (map (fun r => (deaths_per_100_cases r, death_rate r)) (with_death_rate t)) ->
  fst x = snd x.
Proof.
  unfold with_death_rate. rewrite map_map, in_map_iff.
  intros (r & <- & _). cbn [fst snd].
  now rewrite deaths_per_100_cases_set_death_rate, death_rate_with_death_rate.
Qed.

Lemma with_cfr_same_ratio (t : table) :
  (forall x, In x (map (fun r => (deaths_per_100_cases r, death_rate r)) t) ->
             fst x = snd x) ->
  forall r, In r (with_cfr t) -> cfr r = death_rate r.
Proof.
  intros H r Hr. unfold with_cfr in Hr. apply in_map_iff in Hr.
  destruct Hr as (y & <- & Hy). rewrite cfr_with_cfr, death_rate_set_cfr.
  apply (H (deaths_per_100_cases y, death_rate y)).
  apply (in_map (fun r => (deaths_per_100_cases r, death_rate r)) t y Hy).
Qed.

Lemma frame_8_same_ratio (d : table) (r : Row) :
  In r (frame_8 d) -> cfr r = death_rate r.
Proof.
  apply with_cfr_same_ratio. intros x.
  rewrite (with_pct_vaccinated_frame
             (fun r => (deaths_per_100_cases r, death_rate r))
             (frame_4_4 d) ratio_set_pct_vaccinated).
  apply with_death_rate_same_ratio.
Qed.

Lemma latest_same_ratio (t : table) :
  (forall r, In r t -> cfr r = death_rate r) ->
  forall row, In row (latest t) -> cfr row = death_rate row.
Proof.
  intros H row Hrow. apply latest_In in Hrow.
  destruct Hrow as (k & r0 & g & _ & E & ->).
  assert (Hg : forall r, In r (r0 :: g) -> In r t).
  { intros r Hr. rewrite <- E in Hr. apply get_group_In in Hr.
    destruct Hr as [Hr _]. exact (proj1 (sort_by_date_In _ _) Hr). }
  apply fold_merge_last_same_ratio.
  - apply H, Hg. left. reflexivity.
  - intros r Hr. apply H, Hg. right. exact Hr.
Qed.

(** In the frame of the last cells the column [cfr] holds, row by row,
    what [death_rate] holds, and so do the rows of the snapshot the
    rankings are taken from: cell 7 recomputes the ratio of cell 4.4
    from columns that no cell in between has changed. *)
Theorem cfr_repeats_death_rate (d : table) :
  map cfr (frame_8 d) = map death_rate (frame_8 d)
  /\ (forall row, In row (latest_data d) -> cfr row = death_rate row).
Proof.
  split.
  - apply map_ext_in. exact (frame_8_same_ratio d).
  - exact (latest_same_ratio (frame_8 d) (frame_8_same_ratio d)).
Qed.

(** *** Alphabetical order of the labels *)

Lemma String_leb_trans (a b c : string) :
  String.leb a b = true -> String.leb b c = true -> String.leb a c = true.
Proof.
  unfold String.leb. revert b c.
  induction a as [|x a IH]; intros [|y b] [|z c]; cbn [String.compare];
    trivial; try discriminate.
  unfold Ascii.compare.
  destruct (N.compare_spec (Ascii.N_of_ascii x) (Ascii.N_of_ascii y)) as [E1|L1|G1];
    destruct (N.compare_spec (Ascii.N_of_ascii y) (Ascii.N_of_ascii z)) as [E2|L2|G2];
    destruct (N.compare_spec (Ascii.N_of_ascii x) (Ascii.N_of_ascii z)) as [E3|L3|G3];
    intros H1 H2; trivial; try discriminate; try lia.
  exact (IH b c H1 H2).
Qed.

Lemma sorted_labels (l : list string) (i j : nat) (a b : string) :
  i < j ->
  nth_error (sort_by String.leb (nodup string_dec l)) i = Some a ->
  nth_error (sort_by String.leb (nodup string_dec l)) j = Some b ->
  String.ltb a b = true.
Proof.
  intros Hij Ha Hb.
  assert (Hle : String.leb a b = true).
  { apply (sorted_nth_error String.leb (sort_by String.leb (nodup string_dec l))
             i j a b); trivial.
    apply sort_by_sorted; [exact String.leb_total|exact String_leb_trans]. }
  assert (Hne : a <> b).
  { intros ->. rewrite <- Hb in Ha.
    assert (Hnd : NoDup (sort_by String.leb (nodup string_dec l))).
    { apply (Permutation_NoDup (Permutation_sym (sort_by_perm _ _))).
      apply NoDup_nodup. }
    apply (proj1 (NoDup_nth_error _) Hnd) in Ha; [lia|].
    apply nth_error_Some. rewrite Ha, Hb. discriminate. }
  unfold String.leb in Hle. unfold String.ltb.
  destruct (String.compare a b) eqn:E; [|reflexivity|discriminate].
  apply String.compare_eq_iff in E. contradiction.
Qed.

(** The rows of a snapshot and the columns of a pivot table come in
    strictly ascending order of the location, whatever the order of the
    rows of the frame. *)
Theorem labels_in_alphabetical_order (t : table) :
  (forall i j a b, i < j ->
     nth_error (map location (latest t)) i = Some a ->
     nth_error (map location (latest t)) j = Some b ->
     String.ltb a b = true)
  /\ (forall (V : Type) (values : Row -> V) (na : V) (p : PivotTable V) i j a b,
        pivot date location values na t = Ok p -> i < j ->
        nth_error (pt_columns p) i = Some a ->
        nth_error (pt_columns p) j = Some b ->
        String.ltb a b = true).
Proof.
  split.
  - rewrite latest_locations. unfold group_keys. intros i j a b.
    apply sorted_labels.
  - intros V values na p i j a b Hp. unfold pivot in Hp.
    destruct (has_duplicates (pivot_keys date location t)); [discriminate|].
    injection Hp as <-. cbn [pt_columns]. apply sorted_labels.
Qed.

(** *** The rankings read the last day *)

Lemma latest_row_date (t : table) (row : Row) :
  In row (latest t) ->
  (exists r, In r t /\ location r = location row /\ date r = date row) /\
  (forall r, In r t -> location r = location row -> (date r <= date row)%Z).
Proof.
  intros Hrow. apply latest_In in Hrow.
  destruct Hrow as (k & r0 & g & _ & E & ->).
  assert (Hlast : In (last g r0) (get_group location k (sort_by_date t)))
    by (rewrite E; apply last_In_cons).
  apply get_group_In in Hlast. destruct Hlast as [Hin Hk].
  apply (proj1 (sort_by_date_In _ _)) in Hin.
  rewrite (fold_merge_last_proj location g r0 (fun _ _ => eq_refl)).
  rewrite (fold_merge_last_proj date g r0 (fun _ _ => eq_refl)).
  split; [exists (last g r0); split; [exact Hin|]; split; reflexivity|].
  intros r Hr Hloc.
  assert (Hg : In r (r0 :: g)).
  { rewrite <- E. apply get_group_In. split; [now apply sort_by_date_In|].
    congruence. }
  pose proof (sorted_group t k) as Hs. rewrite E in Hs.
  destruct (sorted_last _ g r0 r Hs Hg) as [->|H]; [lia|].
  now apply Z.leb_le.
Qed.

Lemma series_proj {P V : Type} (proj : Row -> P) (loc_of : P -> string)
      (f : Row -> V) (g : P -> V) (loc : string) (t t' : table) :
  (forall r, loc_of (proj r) = location r) ->
  (forall r, f r = g (proj r)) ->
  map proj t = map proj t' ->
  series f loc t = series f loc t'.
Proof.
  intros Hl Hf H. unfold series.
  assert (E : forall l, map f l = map g (map proj l))
    by (intros l; rewrite map_map; apply map_ext, Hf).
  now rewrite !E, (get_group_proj proj loc_of Hl loc t t' H).
Qed.

Section LastDay.
Variables (t : table) (k : string) (m : metric).
Hypothesis by_date : listed_by_date k t.
Hypothesis filled :
  forall p q, p < q ->
    nth_error (series (get m) k t) q = Some None ->
    nth_error (series (get m) k t) p = Some None.

Lemma group_position_of (r : Row) :
  In r t -> location r = k ->
  exists p, nth_error (get_group location k t) p = Some r /\
            nth_error (series date k t) p = Some (date r) /\
            nth_error (series (get m) k t) p = Some (get m r).
Proof.
  intros Hr Hk.
  assert (Hg : In r (get_group location k t)) by (apply get_group_In; now split).
  apply In_nth_error in Hg. destruct Hg as (p & Hp). exists p.
  split; [exact Hp|]. unfold series. rewrite !nth_error_map, Hp. now split.
Qed.

Lemma latest_of_filled (row : Row) :
  In row (latest t) -> location row = k ->
  exists r, In r t /\ location r = k /\ date r = date row /\
            get m row = get m r.
Proof.
  intros Hrow Hk.
  destruct (latest_row_date t row Hrow) as ((rl & Hrl & Hlk & Hld) & Hmax).
  rewrite Hk in Hlk, Hmax.
  exists rl. split; [exact Hrl|]. split; [exact Hlk|]. split; [exact Hld|].
  destruct (group_position_of rl Hrl Hlk) as (q & Hq & Hqd & Hqm).
  destruct (latest_col isnull (get m)
              ltac:(intros a r; destruct m; apply keep_last_isnull) t row Hrow)
    as [H1 H2].
  rewrite Hk in H1, H2.
  destruct (get m row) as [v|] eqn:Hv.
  - destruct (H1 eq_refl) as (r & Hr & Hrk & Hc & Hlater).
    destruct (group_position_of r Hr Hrk) as (p & Hp & Hpd & Hpm).
    destruct (Nat.lt_trichotomy p q) as [Hpq|[->|Hqp]].
    + destruct (get m rl) as [w|] eqn:Hw.
      * assert (Hlt : (date r < date rl)%Z) by exact (by_date p q _ _ Hpq Hpd Hqd).
        specialize (Hlater rl Hrl Hlk Hlt). rewrite Hw in Hlater. discriminate.
      * specialize (filled p q Hpq Hqm). rewrite Hpm, Hc in filled.
        discriminate.
    + rewrite Hq in Hp. injection Hp as ->. now symmetry.
    + assert (Hlt : (date rl < date r)%Z) by exact (by_date q p _ _ Hqp Hqd Hpd).
      specialize (Hmax r Hr Hrk). lia.
  - specialize (H2 eq_refl rl Hrl Hlk). now destruct (get m rl).
Qed.
End LastDay.

Lemma ffill_no_gap (xs : list cell) (p q : nat) :
  p < q -> nth_error (ffill xs) q = Some None -> nth_error (ffill xs) p = Some None.
Proof.
  apply (proj1 (ffill_fixed (ffill xs))). apply ffill_from_twice.
Qed.

Lemma frame_8_series_date (d : table) (loc : string) :
  series date loc (frame_8 d) = series date loc (filtered d).
Proof.
  transitivity (series date loc (cleaned d)).
  - apply (series_proj kept_columns (fun '(l, _, _, _, _, _, _) => l)
             date (fun '(_, _, x, _, _, _, _) => x));
      [reflexivity|reflexivity|].
    unfold frame_8, frame_4_4.
    rewrite with_cfr_kept,
      (with_pct_vaccinated_frame kept_columns) by (now intros v []).
    now rewrite with_death_rate_kept, with_new_cases_smoothed_kept.
  - apply (series_proj rest_of_row (fun '(l, _, _, _, _, _, _, _, _, _) => l)
             date (fun '(_, _, x, _, _, _, _, _, _, _) => x));
      [reflexivity|reflexivity|].
    apply ffill_loop_rest.
Qed.

Lemma frame_8_series_metric (d : table) (loc : string) (m : metric) :
  series (get m) loc (frame_8 d) = ffill (series (get m) loc (filtered d)).
Proof.
  rewrite <- forward_fill_series.
  apply (series_proj kept_columns (fun '(l, _, _, _, _, _, _) => l)
           (get m)
           (fun '(_, _, _, (tc, nc, td, nd), (tv, pv, pfv), _, _) =>
              match m with
              | TotalCases => tc | NewCases => nc | TotalDeaths => td
              | NewDeaths => nd | TotalVaccinations => tv
              | PeopleVaccinated => pv | PeopleFullyVaccinated => pfv
              end));
    [reflexivity|now destruct m|].
  unfold frame_8, frame_4_4.
  rewrite with_cfr_kept,
    (with_pct_vaccinated_frame kept_columns) by (now intros v []).
  now rewrite with_death_rate_kept, with_new_cases_smoothed_kept.
Qed.

Lemma frame_8_listed_by_date (d : table) (loc : string) :
  listed_by_date loc (filtered d) -> listed_by_date loc (frame_8 d).
Proof.
  intros Hby. unfold listed_by_date. rewrite frame_8_series_date. exact Hby.
Qed.

Lemma frame_8_filled (d : table) (loc : string) (m : metric) (p q : nat) :
  p < q ->
  nth_error (series (get m) loc (frame_8 d)) q = Some None ->
  nth_error (series (get m) loc (frame_8 d)) p = Some None.
Proof. rewrite frame_8_series_metric. apply ffill_no_gap. Qed.

Lemma latest_data_unfold (d : table) : latest_data d = latest (frame_8 d).
Proof. reflexivity. Qed.

(** When the rows of a country are listed by date in the dataset, the
    key metrics of its row in the final snapshot are those of the
    country's row of the last date, already cleaned: the rankings by
    total cases and total deaths compare the countries on their last
    day, and nothing in these columns comes from another row. *)
Theorem rankings_read_the_last_day (d : table) (row : Row) (m : metric) :
  listed_by_date (location row) (filtered d) ->
  In row (latest_data d) ->
  exists r, In r (frame_8 d) /\ location r = location row /\
            date r = date row /\
            (forall r', In r' (frame_8 d) -> location r' = location row ->
                        (date r' <= date r)%Z) /\
            get m row = get m r.
Proof.
  intros Hby Hrow. rewrite latest_data_unfold in Hrow.
  destruct (latest_of_filled (frame_8 d) (location row) m
              (frame_8_listed_by_date d (location row) Hby)
              (frame_8_filled d (location row) m) row Hrow eq_refl)
    as (r & Hr & Hk & Hd & Hm).
  exists r. split; [exact Hr|]. split; [exact Hk|]. split; [exact Hd|].
  split; [|exact Hm].
  intros r' Hr' Hl'. rewrite Hd.
  exact (proj2 (latest_row_date (frame_8 d) row Hrow) r' Hr' Hl').
Qed.

Lemma two_days_listed (a b : Z) (p q : nat) (dp dq : Z) :
  (a < b)%Z -> p < q ->
  nth_error [a; b] p = Some dp -> nth_error [a; b] q = Some dq -> (dp < dq)%Z.
Proof.
  intros Hab Hpq Hp Hq.
  destruct p as [|[|p]], q as [|[|q]]; cbn [nth_error] in Hp, Hq; try lia.
  - injection Hp as <-. injection Hq as <-. exact Hab.
  - destruct q; discriminate Hq.
  - destruct q; discriminate Hq.
  - destruct p; discriminate Hp.
Qed.

Lemma rankings_read_the_last_day_witness :
  exists row r,
    nth_error (latest_data Samples.two_countries) 0 = Some row /\
    In r (frame_8 Samples.two_countries) /\
    location r = "India"%string /\ date r = 2%Z /\
    total_cases row = total_cases r.
Proof.
  assert (L : location (nth 0 (latest_data Samples.two_countries)
                            (Samples.obs "" "" 0)) = "India"%string)
    by (vm_compute; reflexivity).
  assert (D : date (nth 0 (latest_data Samples.two_countries)
                        (Samples.obs "" "" 0)) = 2%Z)
    by (vm_compute; reflexivity).
  destruct (rankings_read_the_last_day Samples.two_countries
              (nth 0 (latest_data Samples.two_countries) (Samples.obs "" "" 0))
              TotalCases)
    as (r & Hr & Hl & Hd & _ & Hm).
  - assert (E : series date "India" (filtered Samples.two_countries) = [1; 2]%Z)
      by (vm_compute; reflexivity).
    unfold listed_by_date. rewrite L, E. clear L D E.
    intros p q dp dq. apply two_days_listed. reflexivity.
  - apply (nth_error_In _ 0). vm_compute. reflexivity.
  - exists (nth 0 (latest_data Samples.two_countries) (Samples.obs "" "" 0)), r.
    split; [vm_compute; reflexivity|]. split; [exact Hr|].
    split; [exact (eq_trans Hl L)|].
    split; [exact (eq_trans Hd D)|exact Hm].
Defined.

(** *** What the cells after the cleaning write *)







